(** * DimensionSwitch: the simulation core, embedded and verified

    A shallow embedding of the parts of the game that carry its simulation:
    [game/utils.py] (side-of-impact test, interpolation),
    [game/game_objects.py] (entities, the enemy patrol, powerups),
    [game/player.py] (actor controller), [game/world.py] (foreground particle
    pool, camera, culling, powerup pick-up, level generation) and
    [game/game_controller.py] (the per-frame time step, the dimension switch
    and what a frame does to the actor).

    Conventions of the embedding.
    - Python [float] values are idealised as rationals [Q]; every comparison
      the code makes is made here on the same quantity.  Python [int] values
      are [Z].
    - [pygame.Rect] stores C ints: building one from floats truncates each
      coordinate toward zero ([trunc]); assigning a float to one of its
      attributes rounds it ([round_nearest]).
    - A Python [dict] with string keys is a [gmap string _].
    - Sources of non-determinism ([time.time()], [random.*]) are explicit
      arguments of the functions that read them. *)

From Stdlib Require Import ZArith QArith Qround Lqa Lia.
From stdpp Require Import gmap strings list fin_maps sorting.

Local Open Scope Z_scope.

(** ** Python built-ins on numbers *)

Definition Qltb (a b : Q) : bool := negb (Qle_bool b a).

(** [min(a, b)]: the first argument unless the second is strictly smaller. *)
Definition pymin (a b : Q) : Q := if Qltb b a then b else a.

(** [max(a, b)]: the first argument unless the second is strictly larger. *)
Definition pymax (a b : Q) : Q := if Qltb a b then b else a.

(** [abs(a)]. *)
Definition pyabs (a : Q) : Q := if Qltb a 0 then Qopp a else a.

(** Conversion of a float to a C int, as the constructor of [pygame.Rect]
    does: toward zero. *)
Definition trunc (q : Q) : Z := Z.quot (Qnum q) (Zpos (Qden q)).

(** Conversion of a float that is assigned to an attribute of a
    [pygame.Rect]: to the nearest integer, a half away from zero. *)
Definition round_nearest (q : Q) : Z :=
  if Qltb q 0 then - Qfloor (- q + (1 # 2)) else Qfloor (q + (1 # 2)).

(** ** game/constants.py *)

Module Constants.
Definition SCREEN_WIDTH : Z := 1280.
Definition SCREEN_HEIGHT : Z := 720.
Definition GRAVITY : Q := 0.5.
Definition PLAYER_SPEED : Q := 5.
Definition PLAYER_STARTING_LIVES : Z := 3.
Definition PLAYER_INVINCIBILITY_AFTER_HIT : Q := 2.
Definition DIMENSION_CHANGE_COOLDOWN : Q := 1.
Definition LEVEL_WIDTH : Z := 3000.
Definition LEVEL_HEIGHT : Z := 1000.
Definition DIMENSION_NORMAL : Z := 1.
Definition DIMENSION_MIRROR : Z := 2.
Definition DIMENSION_TIME_SLOW : Z := 3.
Definition PLAYER_JUMP_STRENGTH : Q := -16.
Definition MAX_FALL_SPEED : Q := 15.
End Constants.
Import Constants.

(** ** pygame.Rect *)

Record Rect : Type := mkRect { rx : Z; ry : Z; rw : Z; rh : Z }.

(** [pygame.Rect(x, y, w, h)] called with floats. *)
Definition Rect_of (x y w h : Q) : Rect :=
  mkRect (trunc x) (trunc y) (trunc w) (trunc h).

Definition left (r : Rect) : Z := rx r.
Definition top (r : Rect) : Z := ry r.
Definition right (r : Rect) : Z := rx r + rw r.
Definition bottom (r : Rect) : Z := ry r + rh r.
(** The centre halves the size toward minus infinity. *)
Definition centerx (r : Rect) : Z := rx r + rw r / 2.
Definition centery (r : Rect) : Z := ry r + rh r / 2.

(** [A.colliderect(B)]: a rectangle of zero width or height collides with
    nothing; rectangles that only share an edge do not collide. *)
Definition colliderect (a b : Rect) : bool :=
  if (rw a =? 0) || (rh a =? 0) || (rw b =? 0) || (rh b =? 0) then false
  else (Z.min (rx a) (rx a + rw a) <? Z.max (rx b) (rx b + rw b))
    && (Z.min (ry a) (ry a + rh a) <? Z.max (ry b) (ry b + rh b))
    && (Z.min (rx b) (rx b + rw b) <? Z.max (rx a) (rx a + rw a))
    && (Z.min (ry b) (ry b + rh b) <? Z.max (ry a) (ry a + rh a)).

(** [r.collidepoint(px, py)] called with floats. *)
Definition collidepoint (r : Rect) (px py : Q) : bool :=
  (rx r <=? trunc px) && (trunc px <? rx r + rw r)
  && (ry r <=? trunc py) && (trunc py <? ry r + rh r).

(** ** game/utils.py *)

Inductive side : Type := NoSide | Top | Bottom | Left | Right.

(** [check_collision(rect1, rect2)]: the empty string is [NoSide]. *)
Definition check_collision (rect1 rect2 : Rect) : side :=
  if negb (colliderect rect1 rect2) then NoSide
  else
    let overlap_x := Z.min (right rect1) (right rect2) - Z.max (left rect1) (left rect2) in
    let overlap_y := Z.min (bottom rect1) (bottom rect2) - Z.max (top rect1) (top rect2) in
    if overlap_x >=? overlap_y then
      if centery rect1 <? centery rect2 then Bottom else Top
    else
      if centerx rect1 <? centerx rect2 then Right else Left.

(** ** game/game_objects.py *)

(** [GameObject]: the four fields every entity has, and [get_rect]. *)
Record GameObject : Type := mkObj { ox : Q; oy : Q; owidth : Q; oheight : Q }.

Definition GameObject_get_rect (o : GameObject) : Rect :=
  Rect_of (ox o) (oy o) (owidth o) (oheight o).

(** [Platform]: [dimension_visible] is -1 for "all dimensions". *)
Record Platform : Type := mkPlatform {
  pobj : GameObject;
  dimension_visible : Z
}.

(** [Portal(x, y)] is a 40 x 60 object. *)
Record Portal : Type := mkPortal { portal_obj : GameObject }.

Definition Portal_new (x y : Q) : Portal := mkPortal (mkObj x y 40 60).

(** [Collectible]: only the fields the actor reads and writes. *)
Record Collectible : Type := mkCollectible {
  cobj : GameObject;
  collected : bool
}.

(** [Enemy]: 40 x 40, with the terminal [is_dead] flag set by [die] and the
    two animation slots; the colour is left out. *)
Record Enemy : Type := mkEnemy {
  eobj : GameObject;
  patrol_left : Q;
  patrol_right : Q;
  espeed : Q;
  edirection : Z;
  e_is_dead : bool;
  e_animation_frame : Z;
  e_frame_timer : Q
}.

Definition die (e : Enemy) : Enemy :=
  mkEnemy (eobj e) (patrol_left e) (patrol_right e) (espeed e) (edirection e) true
          (e_animation_frame e) (e_frame_timer e).

(** ** game/player.py *)

Module Player.

Inductive anim : Type := AnimIdle | AnimRun | AnimJump | AnimFall.

(** The four pre-computed rectangles of [collision_rects]. *)
Record rects : Type := mkRects {
  rect_top : Rect; rect_bottom : Rect; rect_left : Rect; rect_right : Rect
}.

(** The slots of [Player]. *)
Record t : Type := mk {
  x : Q; y : Q; width : Z; height : Z;
  velocity_x : Q; velocity_y : Q; on_ground : bool;
  is_dead : bool; level_completed : bool; collected_item : bool;
  jump_count : Z; max_jumps : Z;
  direction : Z; animation_frame : Z; frame_timer : Q; animation_state : anim;
  last_x : Q; step_distance : Q;
  lives : Z; score : Z;
  active_powerups : gmap string bool; powerup_timers : gmap string Q;
  invincible_timer : Q;
  collision_rects : rects;
  last_safe_position : Q * Q;
  last_portal_time : Q
}.

(** Attribute assignments, one per slot that the methods below write. *)
Definition set_x v (p : t) : t :=
  mk v (y p) (width p) (height p) (velocity_x p) (velocity_y p) (on_ground p)
    (is_dead p) (level_completed p) (collected_item p) (jump_count p) (max_jumps p)
    (direction p) (animation_frame p) (frame_timer p) (animation_state p) (last_x p)
    (step_distance p) (lives p) (score p) (active_powerups p) (powerup_timers p)
    (invincible_timer p) (collision_rects p) (last_safe_position p) (last_portal_time p).
Definition set_y v (p : t) : t :=
  mk (x p) v (width p) (height p) (velocity_x p) (velocity_y p) (on_ground p)
    (is_dead p) (level_completed p) (collected_item p) (jump_count p) (max_jumps p)
    (direction p) (animation_frame p) (frame_timer p) (animation_state p) (last_x p)
    (step_distance p) (lives p) (score p) (active_powerups p) (powerup_timers p)
    (invincible_timer p) (collision_rects p) (last_safe_position p) (last_portal_time p).
Definition set_velocity_x v (p : t) : t :=
  mk (x p) (y p) (width p) (height p) v (velocity_y p) (on_ground p) (is_dead p)
    (level_completed p) (collected_item p) (jump_count p) (max_jumps p) (direction p)
    (animation_frame p) (frame_timer p) (animation_state p) (last_x p) (step_distance p)
    (lives p) (score p) (active_powerups p) (powerup_timers p) (invincible_timer p)
    (collision_rects p) (last_safe_position p) (last_portal_time p).
Definition set_velocity_y v (p : t) : t :=
  mk (x p) (y p) (width p) (height p) (velocity_x p) v (on_ground p) (is_dead p)
    (level_completed p) (collected_item p) (jump_count p) (max_jumps p) (direction p)
    (animation_frame p) (frame_timer p) (animation_state p) (last_x p) (step_distance p)
    (lives p) (score p) (active_powerups p) (powerup_timers p) (invincible_timer p)
    (collision_rects p) (last_safe_position p) (last_portal_time p).
Definition set_on_ground v (p : t) : t :=
  mk (x p) (y p) (width p) (height p) (velocity_x p) (velocity_y p) v (is_dead p)
    (level_completed p) (collected_item p) (jump_count p) (max_jumps p) (direction p)
    (animation_frame p) (frame_timer p) (animation_state p) (last_x p) (step_distance p)
    (lives p) (score p) (active_powerups p) (powerup_timers p) (invincible_timer p)
    (collision_rects p) (last_safe_position p) (last_portal_time p).
Definition set_is_dead v (p : t) : t :=
  mk (x p) (y p) (width p) (height p) (velocity_x p) (velocity_y p) (on_ground p) v
    (level_completed p) (collected_item p) (jump_count p) (max_jumps p) (direction p)
    (animation_frame p) (frame_timer p) (animation_state p) (last_x p) (step_distance p)
    (lives p) (score p) (active_powerups p) (powerup_timers p) (invincible_timer p)
    (collision_rects p) (last_safe_position p) (last_portal_time p).
Definition set_level_completed v (p : t) : t :=
  mk (x p) (y p) (width p) (height p) (velocity_x p) (velocity_y p) (on_ground p)
    (is_dead p) v (collected_item p) (jump_count p) (max_jumps p) (direction p)
    (animation_frame p) (frame_timer p) (animation_state p) (last_x p) (step_distance p)
    (lives p) (score p) (active_powerups p) (powerup_timers p) (invincible_timer p)
    (collision_rects p) (last_safe_position p) (last_portal_time p).
Definition set_collected_item v (p : t) : t :=
  mk (x p) (y p) (width p) (height p) (velocity_x p) (velocity_y p) (on_ground p)
    (is_dead p) (level_completed p) v (jump_count p) (max_jumps p) (direction p)
    (animation_frame p) (frame_timer p) (animation_state p) (last_x p) (step_distance p)
    (lives p) (score p) (active_powerups p) (powerup_timers p) (invincible_timer p)
    (collision_rects p) (last_safe_position p) (last_portal_time p).
Definition set_jump_count v (p : t) : t :=
  mk (x p) (y p) (width p) (height p) (velocity_x p) (velocity_y p) (on_ground p)
    (is_dead p) (level_completed p) (collected_item p) v (max_jumps p) (direction p)
    (animation_frame p) (frame_timer p) (animation_state p) (last_x p) (step_distance p)
    (lives p) (score p) (active_powerups p) (powerup_timers p) (invincible_timer p)
    (collision_rects p) (last_safe_position p) (last_portal_time p).
Definition set_max_jumps v (p : t) : t :=
  mk (x p) (y p) (width p) (height p) (velocity_x p) (velocity_y p) (on_ground p)
    (is_dead p) (level_completed p) (collected_item p) (jump_count p) v (direction p)
    (animation_frame p) (frame_timer p) (animation_state p) (last_x p) (step_distance p)
    (lives p) (score p) (active_powerups p) (powerup_timers p) (invincible_timer p)
    (collision_rects p) (last_safe_position p) (last_portal_time p).
Definition set_direction v (p : t) : t :=
  mk (x p) (y p) (width p) (height p) (velocity_x p) (velocity_y p) (on_ground p)
    (is_dead p) (level_completed p) (collected_item p) (jump_count p) (max_jumps p) v
    (animation_frame p) (frame_timer p) (animation_state p) (last_x p) (step_distance p)
    (lives p) (score p) (active_powerups p) (powerup_timers p) (invincible_timer p)
    (collision_rects p) (last_safe_position p) (last_portal_time p).
Definition set_animation_frame v (p : t) : t :=
  mk (x p) (y p) (width p) (height p) (velocity_x p) (velocity_y p) (on_ground p)
    (is_dead p) (level_completed p) (collected_item p) (jump_count p) (max_jumps p)
    (direction p) v (frame_timer p) (animation_state p) (last_x p) (step_distance p)
    (lives p) (score p) (active_powerups p) (powerup_timers p) (invincible_timer p)
    (collision_rects p) (last_safe_position p) (last_portal_time p).
Definition set_frame_timer v (p : t) : t :=
  mk (x p) (y p) (width p) (height p) (velocity_x p) (velocity_y p) (on_ground p)
    (is_dead p) (level_completed p) (collected_item p) (jump_count p) (max_jumps p)
    (direction p) (animation_frame p) v (animation_state p) (last_x p) (step_distance p)
    (lives p) (score p) (active_powerups p) (powerup_timers p) (invincible_timer p)
    (collision_rects p) (last_safe_position p) (last_portal_time p).
Definition set_animation_state v (p : t) : t :=
  mk (x p) (y p) (width p) (height p) (velocity_x p) (velocity_y p) (on_ground p)
    (is_dead p) (level_completed p) (collected_item p) (jump_count p) (max_jumps p)
    (direction p) (animation_frame p) (frame_timer p) v (last_x p) (step_distance p)
    (lives p) (score p) (active_powerups p) (powerup_timers p) (invincible_timer p)
    (collision_rects p) (last_safe_position p) (last_portal_time p).
Definition set_last_x v (p : t) : t :=
  mk (x p) (y p) (width p) (height p) (velocity_x p) (velocity_y p) (on_ground p)
    (is_dead p) (level_completed p) (collected_item p) (jump_count p) (max_jumps p)
    (direction p) (animation_frame p) (frame_timer p) (animation_state p) v
    (step_distance p) (lives p) (score p) (active_powerups p) (powerup_timers p)
    (invincible_timer p) (collision_rects p) (last_safe_position p) (last_portal_time p).
Definition set_step_distance v (p : t) : t :=
  mk (x p) (y p) (width p) (height p) (velocity_x p) (velocity_y p) (on_ground p)
    (is_dead p) (level_completed p) (collected_item p) (jump_count p) (max_jumps p)
    (direction p) (animation_frame p) (frame_timer p) (animation_state p) (last_x p) v
    (lives p) (score p) (active_powerups p) (powerup_timers p) (invincible_timer p)
    (collision_rects p) (last_safe_position p) (last_portal_time p).
Definition set_lives v (p : t) : t :=
  mk (x p) (y p) (width p) (height p) (velocity_x p) (velocity_y p) (on_ground p)
    (is_dead p) (level_completed p) (collected_item p) (jump_count p) (max_jumps p)
    (direction p) (animation_frame p) (frame_timer p) (animation_state p) (last_x p)
    (step_distance p) v (score p) (active_powerups p) (powerup_timers p)
    (invincible_timer p) (collision_rects p) (last_safe_position p) (last_portal_time p).
Definition set_active_powerups v (p : t) : t :=
  mk (x p) (y p) (width p) (height p) (velocity_x p) (velocity_y p) (on_ground p)
    (is_dead p) (level_completed p) (collected_item p) (jump_count p) (max_jumps p)
    (direction p) (animation_frame p) (frame_timer p) (animation_state p) (last_x p)
    (step_distance p) (lives p) (score p) v (powerup_timers p) (invincible_timer p)
    (collision_rects p) (last_safe_position p) (last_portal_time p).
Definition set_powerup_timers v (p : t) : t :=
  mk (x p) (y p) (width p) (height p) (velocity_x p) (velocity_y p) (on_ground p)
    (is_dead p) (level_completed p) (collected_item p) (jump_count p) (max_jumps p)
    (direction p) (animation_frame p) (frame_timer p) (animation_state p) (last_x p)
    (step_distance p) (lives p) (score p) (active_powerups p) v (invincible_timer p)
    (collision_rects p) (last_safe_position p) (last_portal_time p).
Definition set_invincible_timer v (p : t) : t :=
  mk (x p) (y p) (width p) (height p) (velocity_x p) (velocity_y p) (on_ground p)
    (is_dead p) (level_completed p) (collected_item p) (jump_count p) (max_jumps p)
    (direction p) (animation_frame p) (frame_timer p) (animation_state p) (last_x p)
    (step_distance p) (lives p) (score p) (active_powerups p) (powerup_timers p) v
    (collision_rects p) (last_safe_position p) (last_portal_time p).
Definition set_collision_rects v (p : t) : t :=
  mk (x p) (y p) (width p) (height p) (velocity_x p) (velocity_y p) (on_ground p)
    (is_dead p) (level_completed p) (collected_item p) (jump_count p) (max_jumps p)
    (direction p) (animation_frame p) (frame_timer p) (animation_state p) (last_x p)
    (step_distance p) (lives p) (score p) (active_powerups p) (powerup_timers p)
    (invincible_timer p) v (last_safe_position p) (last_portal_time p).
Definition set_last_safe_position v (p : t) : t :=
  mk (x p) (y p) (width p) (height p) (velocity_x p) (velocity_y p) (on_ground p)
    (is_dead p) (level_completed p) (collected_item p) (jump_count p) (max_jumps p)
    (direction p) (animation_frame p) (frame_timer p) (animation_state p) (last_x p)
    (step_distance p) (lives p) (score p) (active_powerups p) (powerup_timers p)
    (invincible_timer p) (collision_rects p) v (last_portal_time p).
Definition set_last_portal_time v (p : t) : t :=
  mk (x p) (y p) (width p) (height p) (velocity_x p) (velocity_y p) (on_ground p)
    (is_dead p) (level_completed p) (collected_item p) (jump_count p) (max_jumps p)
    (direction p) (animation_frame p) (frame_timer p) (animation_state p) (last_x p)
    (step_distance p) (lives p) (score p) (active_powerups p) (powerup_timers p)
    (invincible_timer p) (collision_rects p) (last_safe_position p) v.

(** [reset(x, y)], also the body of [__init__]; [now] is the reading of
    [time.time()] that initialises the portal cooldown. *)
Definition reset (x0 y0 now : Q) : t :=
  {| x := x0; y := y0; width := 40; height := 60;
     velocity_x := 0; velocity_y := 0; on_ground := false;
     is_dead := false; level_completed := false; collected_item := false;
     jump_count := 0; max_jumps := 2;
     direction := 1; animation_frame := 0; frame_timer := 0;
     animation_state := AnimIdle;
     last_x := x0; step_distance := 0;
     lives := PLAYER_STARTING_LIVES; score := 0;
     active_powerups := ∅; powerup_timers := ∅;
     invincible_timer := 0;
     collision_rects :=
       {| rect_top := Rect_of (x0 + 5) y0 (40 - 10) 5;
          rect_bottom := Rect_of (x0 + 5) (y0 + 60 - 5) (40 - 10) 5;
          rect_left := Rect_of x0 (y0 + 5) 5 (60 - 10);
          rect_right := Rect_of (x0 + 40 - 5) (y0 + 5) 5 (60 - 10) |};
     last_safe_position := (x0, y0);
     last_portal_time := now |}.

(** [get_powerup_effect(powerup_type, default_value)]. *)
Definition get_powerup_effect (powerup_type : string) (default_value : Q) (p : t) : Q :=
  match active_powerups p !! powerup_type with
  | Some true =>
      if decide (powerup_type = "speed") then 1.5%Q
      else if decide (powerup_type = "jump") then 1.3%Q
      else if decide (powerup_type = "gravity") then 0.7%Q
      else default_value
  | _ => default_value
  end.

Definition move_left (p : t) : t :=
  let speed_multiplier := get_powerup_effect "speed" 1 p in
  set_animation_state AnimRun
    (set_direction (-1) (set_velocity_x (- PLAYER_SPEED * speed_multiplier)%Q p)).

Definition move_right (p : t) : t :=
  let speed_multiplier := get_powerup_effect "speed" 1 p in
  set_animation_state AnimRun
    (set_direction 1 (set_velocity_x (PLAYER_SPEED * speed_multiplier)%Q p)).

Definition stop_horizontal_movement (p : t) : t :=
  let p := set_velocity_x 0 p in
  if on_ground p then set_animation_state AnimIdle p else p.

(** [jump()]: the new state and the returned boolean. *)
Definition jump (p : t) : t * bool :=
  if jump_count p <? max_jumps p then
    let jump_multiplier := get_powerup_effect "jump" 1 p in
    let jump_strength :=
      if 0 <? jump_count p then (PLAYER_JUMP_STRENGTH * 0.8)%Q
      else PLAYER_JUMP_STRENGTH in
    let p := set_velocity_y (jump_strength * jump_multiplier)%Q p in
    let p := set_jump_count (jump_count p + 1) p in
    let p := set_on_ground false p in
    let p := set_animation_state AnimJump p in
    (p, true)
  else (p, false).

(** [get_rect()]: [width] and [height] are ints already. *)
Definition get_rect (p : t) : Rect :=
  mkRect (trunc (x p)) (trunc (y p)) (width p) (height p).

(** [add_powerup(powerup_type, duration)]. *)
Definition add_powerup (powerup_type : string) (duration : Q) (p : t) : t :=
  let p := set_active_powerups (<[powerup_type := true]> (active_powerups p)) p in
  let p :=
    match powerup_timers p !! powerup_type with
    | Some remaining =>
        set_powerup_timers (<[powerup_type := (remaining + duration)%Q]> (powerup_timers p)) p
    | None =>
        set_powerup_timers (<[powerup_type := duration]> (powerup_timers p)) p
    end in
  if decide (powerup_type = "jump") then set_max_jumps 3 p else p.

(** [update_powerups(dt)]: every timer is decremented; the keys whose timer
    reached zero or less are the [expired] ones: their flag becomes [False],
    their timer is deleted, and an expired "jump" restores the double jump. *)
Definition update_powerups (dt : Q) (p : t) : t :=
  let timers := (λ remaining, (remaining - dt)%Q) <$> powerup_timers p in
  let expired := filter (λ kv : string * Q, Qle_bool kv.2 0 = true) timers in
  let p := set_active_powerups (((λ _, false) <$> expired) ∪ active_powerups p) p in
  let p := set_powerup_timers (filter (λ kv : string * Q, Qle_bool kv.2 0 ≠ true) timers) p in
  let p := if decide (is_Some (expired !! "jump")) then set_max_jumps 2 p else p in
  if Qltb 0 (invincible_timer p)
  then set_invincible_timer (invincible_timer p - dt)%Q p
  else p.

Definition _update_animation (dt : Q) (p : t) : t :=
  let p := set_frame_timer (frame_timer p + dt)%Q p in
  let anim_speed :=
    match animation_state p with
    | AnimRun => 0.07%Q
    | AnimJump | AnimFall => 0.15%Q
    | AnimIdle => 0.1%Q
    end in
  if Qle_bool anim_speed (frame_timer p)
  then set_frame_timer 0 (set_animation_frame ((animation_frame p + 1) mod 4) p)
  else p.

(** Assigning a float to [rect.x] or [rect.y] rounds it, where the
    constructor truncates. *)
Definition move_rect (r : Rect) (x0 y0 : Q) : Rect :=
  mkRect (round_nearest x0) (round_nearest y0) (rw r) (rh r).

Definition _update_collision_rects (p : t) : t :=
  let c := collision_rects p in
  let h := inject_Z (height p) in
  let w := inject_Z (width p) in
  set_collision_rects
    {| rect_top := move_rect (rect_top c) (x p + 5) (y p);
       rect_bottom := move_rect (rect_bottom c) (x p + 5) (y p + h - 5);
       rect_left := move_rect (rect_left c) (x p) (y p + 5);
       rect_right := move_rect (rect_right c) (x p + w - 5) (y p + 5) |} p.

(** [active_powerups.get("invincibility", False)]. *)
Definition invincibility_powerup (p : t) : bool :=
  default false (active_powerups p !! "invincibility").

Definition is_invincible (p : t) : bool :=
  Qltb 0 (invincible_timer p) || invincibility_powerup p.

(** The dimension gate written inline in [check_platform_collisions]. *)
Definition visible_in (current_dimension : Z) (platform : Platform) : bool :=
  (dimension_visible platform =? -1) || (dimension_visible platform =? current_dimension).

(** The landing assignments, shared by the ground-probe branch and the
    ["bottom"] branch. *)
Definition land_on (platform_rect : Rect) (p : t) : t :=
  let p := set_y (inject_Z (ry platform_rect - height p)) p in
  let p := set_velocity_y 0 p in
  let p := set_on_ground true p in
  set_jump_count 0 p.

(** One iteration of the loop of [check_platform_collisions]; [player_rect]
    and [bottom_rect] were computed before the loop and are not refreshed. *)
Definition resolve_platform (player_rect bottom_rect : Rect) (current_dimension : Z)
    (p : t) (platform : Platform) : t :=
  if negb (visible_in current_dimension platform) then p
  else
    let platform_rect := GameObject_get_rect (pobj platform) in
    if negb (colliderect player_rect platform_rect) then p
    else if colliderect bottom_rect platform_rect && Qle_bool 0 (velocity_y p) then
      land_on platform_rect p
    else
      match check_collision player_rect platform_rect with
      | Bottom => land_on platform_rect p
      | Top =>
          set_velocity_y 0 (set_y (inject_Z (ry platform_rect + rh platform_rect)) p)
      | Left =>
          set_velocity_x 0 (set_x (inject_Z (rx platform_rect - width p + 1)) p)
      | Right =>
          set_velocity_x 0 (set_x (inject_Z (rx platform_rect + rw platform_rect - 1)) p)
      | NoSide => p
      end.

(** The enlarged ground probe at the actor's feet. *)
Definition ground_probe (p : t) : Rect :=
  mkRect (trunc (x p + 2)) (trunc (y p + inject_Z (height p) - 6)) (width p - 4) 10.

Definition check_platform_collisions (platforms : list Platform) (current_dimension : Z)
    (p : t) : t :=
  let p := set_on_ground false p in
  let player_rect := get_rect p in
  let bottom_rect := ground_probe p in
  fold_left (resolve_platform player_rect bottom_rect current_dimension) platforms p.

(** The overlap test of [_check_portal_collision]: the actor's centre lies in
    the portal, or the two rectangles collide. *)
Definition touches_portal (p : t) (portal : Portal) : bool :=
  let portal_rect := GameObject_get_rect (portal_obj portal) in
  let player_center_x := (x p + inject_Z (width p) / 2)%Q in
  let player_center_y := (y p + inject_Z (height p) / 2)%Q in
  collidepoint portal_rect player_center_x player_center_y
  || colliderect (get_rect p) portal_rect.

(** [_check_portal_collision(portals)]; [current_time] is the reading of
    [time.time()] taken by the call. *)
Definition _check_portal_collision (current_time : Q) (portals : list Portal) (p : t)
    : t * bool :=
  if Qltb (current_time - last_portal_time p) 1 then (p, false)
  else if existsb (touches_portal p) portals
       then (set_last_portal_time current_time p, true)
       else (p, false).

(** [check_collectible_collisions(collectibles)]: the collectibles are
    mutated in place, so the updated list is returned with the flag. *)
Definition check_collectible_collisions (collectibles : list Collectible) (p : t)
    : list Collectible * bool :=
  let hit (c : Collectible) :=
    negb (collected c) && colliderect (get_rect p) (GameObject_get_rect (cobj c)) in
  (map (λ c, if hit c then mkCollectible (cobj c) true else c) collectibles,
   existsb hit collectibles).

Inductive enemy_hit : Type := player_death | enemy_death | no_hit.

(** [check_enemy_collisions(enemies)]: the loop returns at the first enemy
    that decides the outcome; a stomped enemy is mutated by [die]. *)
Fixpoint check_enemy_collisions (enemies : list Enemy) (p : t)
    : t * list Enemy * enemy_hit :=
  match enemies with
  | [] => (p, [], no_hit)
  | enemy :: rest =>
      let skip :=
        let '(p', rest', r) := check_enemy_collisions rest p in
        (p', enemy :: rest', r) in
      if e_is_dead enemy then skip
      else
        let enemy_rect := GameObject_get_rect (eobj enemy) in
        if colliderect (get_rect p) enemy_rect then
          if colliderect (rect_bottom (collision_rects p)) enemy_rect
             && Qltb 0 (velocity_y p)
          then (set_velocity_y (PLAYER_JUMP_STRENGTH * 0.7)%Q p, die enemy :: rest, enemy_death)
          else if negb (is_invincible p) then (p, enemy :: rest, player_death)
          else skip
        else skip
  end.

(** The event dictionary returned by [update]: a key is present exactly
    when its field is [true]. *)
Record events : Type := mkEvents {
  ev_step : bool;
  ev_level_complete : bool;
  ev_collect : bool;
  ev_player_death : bool;
  ev_enemy_death : bool
}.

Definition no_events : events := mkEvents false false false false false.

(** Integration of the motion, with the clamp on the horizontal position:
    the first part of [update]. *)
Definition integrate (dt : Q) (p : t) : t :=
  let p := if on_ground p then set_last_safe_position (x p, y p) p else p in
  let gravity_multiplier := get_powerup_effect "gravity" 1 p in
  let p := set_velocity_y (velocity_y p + GRAVITY * gravity_multiplier * dt)%Q p in
  let max_fall_speed := (MAX_FALL_SPEED * gravity_multiplier)%Q in
  let p := set_velocity_y (pymin (velocity_y p) max_fall_speed) p in
  let p := set_x (x p + velocity_x p * dt)%Q p in
  let p := set_y (y p + velocity_y p * dt)%Q p in
  set_x (pymax 0 (pymin (x p) (inject_Z (LEVEL_WIDTH - width p)))) p.

(** Footstep events and the bookkeeping of [last_x]. *)
Definition footsteps (p : t) : t * bool :=
  let step_threshold := 40%Q in
  let '(p, step) :=
    if on_ground p && Qltb 0 (pyabs (x p - last_x p)) then
      let p := set_step_distance (step_distance p + pyabs (x p - last_x p))%Q p in
      if Qle_bool step_threshold (step_distance p)
      then (set_step_distance 0 p, true)
      else (p, false)
    else (p, false) in
  (set_last_x (x p) p, step).

(** The animation state derived from the motion. *)
Definition derive_animation_state (p : t) : t :=
  if negb (on_ground p) then
    if Qltb (velocity_y p) 0 then set_animation_state AnimJump p
    else set_animation_state AnimFall p
  else if Qeq_bool (velocity_x p) 0 then set_animation_state AnimIdle p
  else set_animation_state AnimRun p.

(** The reaction of [update] to the result of [check_enemy_collisions]. *)
Definition apply_enemy_hit (hit : enemy_hit) (p : t) : t * bool * bool :=
  match hit with
  | player_death =>
      if negb (is_invincible p) && negb (invincibility_powerup p) then
        let p := set_lives (lives p - 1) p in
        let p := set_is_dead (lives p <=? 0) p in
        let p :=
          if negb (is_dead p)
          then set_invincible_timer PLAYER_INVINCIBILITY_AFTER_HIT p
          else p in
        (p, true, false)
      else (p, false, false)
  | enemy_death => (p, false, true)
  | no_hit => (p, false, false)
  end.

(** Death by falling out of the world: the last statement of [update]. *)
Definition fall_out (p : t) : t * bool :=
  if Qltb (inject_Z LEVEL_HEIGHT) (y p) then
    let p := set_lives (lives p - 1) p in
    (set_is_dead (lives p <=? 0) p, true)
  else (p, false).

(** [update(dt, platforms, portals, collectibles, enemies, current_dimension)].
    The collectibles and enemies are mutable objects shared with the world:
    their new states are returned with the actor and the events.  The
    [time.sleep] after a portal hit has no effect on the state. *)
Definition update (dt : Q) (current_time : Q) (platforms : list Platform)
    (portals : list Portal) (collectibles : list Collectible) (enemies : list Enemy)
    (current_dimension : Z) (p : t)
    : t * list Collectible * list Enemy * events :=
  if is_dead p then (p, collectibles, enemies, no_events)
  else
    let p := integrate dt p in
    let p := _update_animation dt p in
    let p := _update_collision_rects p in
    let p := check_platform_collisions platforms current_dimension p in
    let '(p, step) := footsteps p in
    let p := update_powerups dt p in
    let p := derive_animation_state p in
    let '(p, portal) := _check_portal_collision current_time portals p in
    let p := if portal then set_level_completed true p else p in
    let '(collectibles, collect) := check_collectible_collisions collectibles p in
    let p := if collect then set_collected_item true p else p in
    let '(p, enemies, hit) := check_enemy_collisions enemies p in
    let '(p, death_by_enemy, enemy_died) := apply_enemy_hit hit p in
    let '(p, death_by_fall) := fall_out p in
    (p, collectibles, enemies,
     mkEvents step portal collect (death_by_enemy || death_by_fall) enemy_died).

End Player.

(** ** game/world.py: the foreground particle pool *)

Module World.

(** A row of [foreground_particles]: x, y, size, vx, vy, lifetime and the
    colour index. *)
Record particle : Type := mkParticle {
  px : Q; py : Q; size : Q; vx : Q; vy : Q; lifetime : Q; color_index : Q
}.

Definition zero_particle : particle := mkParticle 0 0 0 0 0 0 0.

(** The fields of [World] that the particle pool and the camera use. *)
Record t : Type := mk {
  foreground_particles : list particle;
  particle_pool_size : Z;
  active_particles : Z;
  camera_x : Q;
  camera_y : Q
}.

(** [World()]: a pool of 300 zeroed rows, none of them active. *)
Definition new : t :=
  mk (replicate 300 zero_particle) 300 0 0 0.

(** The values drawn from [random] by one call of [_add_dimension_particle]. *)
Record draws : Type := mkDraws {
  offset_x : Z; offset_y : Z; drawn_size : Z;
  drawn_vx : Q; drawn_vy : Q; drawn_life : Q
}.

(** [pool[i] = row] on a numpy array: a negative index counts from the end,
    an index out of range raises [IndexError] ([None]). *)
Definition set_row (i : Z) (row : particle) (pool : list particle)
    : option (list particle) :=
  let n := Z.of_nat (length pool) in
  if (0 <=? i) && (i <? n) then Some (<[Z.to_nat i := row]> pool)
  else if (- n <=? i) && (i <? 0) then Some (<[Z.to_nat (n + i) := row]> pool)
  else None.

(** [_add_dimension_particle(dimension, player_x, player_y)].  The velocity
    and lifetime ranges depend on the dimension, the drawn values do not
    enter the control flow.  Both [try] blocks swallow every exception, so
    a failed row assignment leaves the world as it was. *)
Definition _add_dimension_particle (dimension : Z) (player_x player_y : Q)
    (d : draws) (w : t) : t :=
  if active_particles w >=? particle_pool_size w then w
  else
    let dim_index := Z.min (Z.max 1 dimension) 3 - 1 in
    let pos_x := (player_x + inject_Z (offset_x d) - camera_x w)%Q in
    let pos_y := (player_y + inject_Z (offset_y d) - camera_y w)%Q in
    let safe_pos_x := pymax (pymin pos_x (inject_Z SCREEN_WIDTH)) 0 in
    let safe_pos_y := pymax (pymin pos_y (inject_Z SCREEN_HEIGHT)) 0 in
    let safe_size := pymax (pymin (inject_Z (drawn_size d)) 10) 1 in
    let safe_vx := pymax (pymin (drawn_vx d) 5) (-5) in
    let safe_vy := pymax (pymin (drawn_vy d) 5) (-5) in
    let safe_life := pymax (pymin (drawn_life d) 10) 0.1 in
    let safe_dim_index := Z.max (Z.min dim_index 2) 0 in
    let particle_data :=
      mkParticle safe_pos_x safe_pos_y safe_size safe_vx safe_vy safe_life
                 (inject_Z safe_dim_index) in
    match set_row (active_particles w) particle_data (foreground_particles w) with
    | Some pool =>
        mk pool (particle_pool_size w) (active_particles w + 1) (camera_x w) (camera_y w)
    | None => w
    end.

(** What a call hands back to its caller: [None] where the method returns
    without a value, a truth value where it reports one. *)
Inductive pyvalue : Type := PyNone | PyBool (b : bool).

(** The value that [_add_dimension_particle] returns.  On a full pool it is
    that of the bare [return]; otherwise the body runs to its end, after the
    row was written as well as after an [except] clause has swallowed an
    exception, and no path has a [return] with a value. *)
Definition _add_dimension_particle_returns (dimension : Z) (player_x player_y : Q)
    (d : draws) (w : t) : pyvalue :=
  if active_particles w >=? particle_pool_size w then PyNone
  else PyNone.

(** The vectorised aging of one row. *)
Definition age (dt : Q) (q : particle) : particle :=
  mkParticle (px q + vx q * dt) (py q + vy q * dt) (size q) (vx q) (vy q)
             (lifetime q - dt) (color_index q).

Definition is_dead_particle (q : particle) : bool := Qle_bool (lifetime q) 0.
Definition is_live_particle (q : particle) : bool := Qltb 0 (lifetime q).

(** [pool[:k] = rows] on a numpy array: the shapes must agree, a single row
    is broadcast, anything else raises [ValueError] ([None]). *)
Definition assign_prefix (k : nat) (rows : list particle) (pool : list particle)
    : option (list particle) :=
  let m := length (take k pool) in
  if decide (length rows = m) then Some (rows ++ drop k pool)
  else match rows with
       | [row] => Some (replicate m row ++ drop k pool)
       | _ => None
       end.

(** The block of [World.update] that ages the active particles and compacts
    the pool.  [active_slice] is a view: the aging is written through to the
    pool, dead rows included; the survivors are gathered into a fresh array
    before they are written back.  [None] is an uncaught exception. *)
Definition update_foreground_particles (dt : Q) (w : t) : option t :=
  if 0 <? active_particles w then
    let n := Z.to_nat (active_particles w) in
    let active_slice := age dt <$> take n (foreground_particles w) in
    let pool := active_slice ++ drop n (foreground_particles w) in
    let dead_count := Z.of_nat (length (filter (λ q, is_dead_particle q = true) active_slice)) in
    if 0 <? dead_count then
      let active := active_particles w - dead_count in
      if 0 <? active then
        let survivors := filter (λ q, is_live_particle q = true) active_slice in
        pool' ← assign_prefix (Z.to_nat active) survivors pool;
        Some (mk pool' (particle_pool_size w) active (camera_x w) (camera_y w))
      else Some (mk pool (particle_pool_size w) active (camera_x w) (camera_y w))
    else Some (mk pool (particle_pool_size w) (active_particles w) (camera_x w) (camera_y w))
  else Some w.

(** The pool as [World()] builds it and every method keeps it: 300 rows,
    and an active count between 0 and the capacity. *)
Definition well_formed (w : t) : Prop :=
  particle_pool_size w = 300
  ∧ Z.of_nat (length (foreground_particles w)) = particle_pool_size w
  ∧ 0 <= active_particles w <= particle_pool_size w.

End World.

(** ** game/game_controller.py: the per-frame step *)

Module GameController.

(** The fields that [update] reads before it calls the simulation. *)
Record t : Type := mk {
  dimension_cooldown : Q;
  active_menu : bool;
  game_started : bool;
  game_paused : bool;
  game_time : Q;
  current_dimension : Z;
  difficulty : Z
}.

(** The local [time_factor] of [update]. *)
Definition time_factor (g : t) : Q :=
  let time_factor := if current_dimension g =? 3 then 0.5%Q else 1.0%Q in
  if difficulty g =? 0 then (time_factor * 0.9)%Q
  else if difficulty g =? 2 then (time_factor * 1.1)%Q
  else time_factor.

(** The first argument of the two simulation calls of a frame:
    [self.player.update(...)] and [self.world.update(...)]. *)
Record sim_calls : Type := mkCalls { player_update_dt : Q; world_update_dt : Q }.

(** [update(dt)], up to the two calls into the simulation.  With a menu
    open the method returns before it reaches them. *)
Definition update (dt : Q) (g : t) : t * option sim_calls :=
  let g :=
    if Qltb 0 (dimension_cooldown g)
    then mk (dimension_cooldown g - dt)%Q (active_menu g) (game_started g) (game_paused g)
            (game_time g) (current_dimension g) (difficulty g)
    else g in
  if active_menu g then (g, None)
  else if game_started g && negb (game_paused g) then
    let g' := mk (dimension_cooldown g) (active_menu g) (game_started g) (game_paused g)
                 (game_time g + dt)%Q (current_dimension g) (difficulty g) in
    (g', Some (mkCalls (time_factor g) (time_factor g)))
  else (g, None).

(** The multipliers as the specification names them. *)
Definition difficulty_multiplier (d : Z) : Q :=
  if d =? 0 then 0.9%Q else if d =? 2 then 1.1%Q else 1%Q.

Definition dimension_factor (dim : Z) : Q :=
  if dim =? 3 then 0.5%Q else 1%Q.

End GameController.

(** * Observation points, call sequences and invariants *)

Section Sessions.
Import Player.

(** The actor at three points inside [update] that the properties refer to:
    after platform resolution, before the portal test and before the enemy
    test. *)
Definition after_collisions (dt : Q) (platforms : list Platform) (dim : Z)
    (p : Player.t) : Player.t :=
  check_platform_collisions platforms dim
    (_update_collision_rects (_update_animation dt (integrate dt p))).

Definition before_portal (dt : Q) (platforms : list Platform) (dim : Z)
    (p : Player.t) : Player.t :=
  derive_animation_state
    (update_powerups dt (footsteps (after_collisions dt platforms dim p)).1).

Definition before_enemies (dt now : Q) (platforms : list Platform)
    (portals : list Portal) (collectibles : list Collectible) (dim : Z)
    (p : Player.t) : Player.t :=
  let pp := _check_portal_collision now portals (before_portal dt platforms dim p) in
  let p2 := if pp.2 then set_level_completed true pp.1 else pp.1 in
  if (check_collectible_collisions collectibles p2).2
  then set_collected_item true p2 else p2.

(** The calls the controller makes on the actor between two resets. *)
Inductive action : Type :=
| Jump
| MoveLeft
| MoveRight
| StopHorizontalMovement
| AddPowerup (powerup_type : string) (duration : Q)
| Update (dt now : Q) (platforms : list Platform) (portals : list Portal)
         (collectibles : list Collectible) (enemies : list Enemy)
         (current_dimension : Z).

Definition step (p : Player.t) (a : action) : Player.t :=
  match a with
  | Jump => (jump p).1
  | MoveLeft => move_left p
  | MoveRight => move_right p
  | StopHorizontalMovement => stop_horizontal_movement p
  | AddPowerup powerup_type duration => add_powerup powerup_type duration p
  | Update dt now platforms portals collectibles enemies dim =>
      (update dt now platforms portals collectibles enemies dim p).1.1.1
  end.

Definition run (actions : list action) (p : Player.t) : Player.t :=
  fold_left step actions p.

(** The jump powerup is active. *)
Definition jump_powerup_active (p : Player.t) : Prop :=
  active_powerups p !! "jump" = Some true.

(** The limit is 3 while the jump powerup is active and 2 otherwise, and the
    powerup is active exactly while it has a timer. *)
Definition jump_limit_inv (p : Player.t) : Prop :=
  (jump_powerup_active p /\ is_Some (powerup_timers p !! "jump") /\ max_jumps p = 3)
  \/ (~ jump_powerup_active p /\ powerup_timers p !! "jump" = None /\ max_jumps p = 2).

(** What every reachable actor satisfies. *)
Definition jump_inv (p : Player.t) : Prop :=
  0 <= jump_count p <= 3
  /\ jump_limit_inv p
  /\ (on_ground p = true -> jump_count p = 0).

(** The time of the most recent portal trigger along a sequence of calls,
    starting from [t0], the time of the reset: only an update that reports
    "level_complete" moves it, to the time that update read. *)
Fixpoint last_trigger (t0 : Q) (p : Player.t) (actions : list action) : Q :=
  match actions with
  | [] => t0
  | a :: rest =>
      let t1 :=
        match a with
        | Update dt now platforms portals collectibles enemies dim =>
            if ev_level_complete
                 (update dt now platforms portals collectibles enemies dim p).2
            then now else t0
        | _ => t0
        end in
      last_trigger t1 (step p a) rest
  end.

End Sessions.

(** * Scenarios *)

Section Scenarios.
Import Player.

(** A running, unpaused game in the normal dimension at normal difficulty. *)
Definition running_normal : GameController.t :=
  GameController.mk 0 false true false 0 1 1.

(** The same game after a switch to the time dimension. *)
Definition running_time_dimension : GameController.t :=
  GameController.mk 0 false true false 0 3 1.

(** An actor that holds a jump powerup with 4 time units left. *)
Definition actor_with_jump_powerup : Player.t :=
  add_powerup "jump" 4 (reset 100 300 0).

(** A pool whose 300 rows are all active, each with one time unit to live. *)
Definition full_pool : World.t :=
  World.mk (replicate 300 (World.mkParticle 10 10 2 0 0 1 0)) 300 300 0 0.

(** One set of random draws. *)
Definition some_draws : World.draws := World.mkDraws 5 (-7) 3 0.25 (-0.25) 2.

(** A pool with three active rows: the middle one dies in the next step. *)
Definition small_pool : World.t :=
  World.mk (World.mkParticle 1 1 2 1 0 3 0 :: World.mkParticle 2 2 2 0 1 1 1
              :: World.mkParticle 3 3 2 0 0 2 2
              :: replicate 297 World.zero_particle) 300 3 0 0.

(** Fifteen frames in the air, one time unit each. *)
Definition airborne_frames : list action :=
  replicate 15 (Update 1 0 [] [] [] [] 1).

(** A platform visible in every dimension, with integer geometry. *)
Definition platform_at (x0 y0 w h : Z) : Platform :=
  mkPlatform (mkObj (inject_Z x0) (inject_Z y0) (inject_Z w) (inject_Z h)) (-1).

(** The first platform of the tutorial level. *)
Definition tutorial_platform : Platform := platform_at 300 550 200 20.

(** An actor that rises into the left end of [tutorial_platform]. *)
Definition rising_actor : Player.t := set_velocity_y (-8) (reset 265 540 0).

(** Two ledges whose tops are 5 units apart and which both lie under the
    feet of [standing_actor]. *)
Definition lower_ledge : Platform := platform_at 0 500 200 20.
Definition upper_ledge : Platform := platform_at 100 505 200 20.
Definition standing_actor : Player.t := reset 120 450 0.

(** A live actor that stands in the portal of the tutorial level, reset at
    time 0. *)
Definition actor_in_portal : Player.t := reset 750 190 0.
Definition tutorial_portal : Portal := Portal_new 750 190.

(** A wall whose left face is one unit inside the right edge of
    [actor_at_wall], clear of its ground probe. *)
Definition wall : Platform := platform_at 139 100 100 30.
Definition actor_at_wall : Player.t := reset 100 100 0.

(** An actor at the lower edge of the level: one more frame of gravity
    takes it below [LEVEL_HEIGHT]. *)
Definition actor_at_bottom : Player.t := reset 100 1000 0.

(** A live enemy that overlaps an actor reset at the same place. *)
Definition enemy_at (x0 y0 : Q) : Enemy :=
  mkEnemy (mkObj x0 y0 40 40) 0 500 2 1 false 0 0.
Definition actor_beside_enemy : Player.t := reset 100 300 0.

(** The floor every level starts with. *)
Definition floor : Platform := platform_at 0 (SCREEN_HEIGHT - 50) SCREEN_WIDTH 50.

(** An actor that has dropped beside the right end of the floor and walks
    left into it. *)
Definition actor_beside_floor : Player.t := set_velocity_x (-5) (reset 1280 666 0).

End Scenarios.

(** * The rest of the entities, the camera and the controller *)

(** ** game/game_objects.py: [Enemy.update] *)

Module EnemyPatrol.

(** [Enemy.update(dt, current_dimension)]: the patrol and the animation
    timer.  A dead enemy returns at once. *)
Definition update (dt : Q) (current_dimension : Z) (e : Enemy) : Enemy :=
  if e_is_dead e then e
  else
    let time_factor := (dt * 60)%Q in
    let x1 := (ox (eobj e) + espeed e * inject_Z (edirection e) * time_factor / 60)%Q in
    let timer := (e_frame_timer e + time_factor / 60)%Q in
    let at_x (x2 : Q) (direction : Z) :=
      mkEnemy (mkObj x2 (oy (eobj e)) (owidth (eobj e)) (oheight (eobj e)))
              (patrol_left e) (patrol_right e) (espeed e) direction (e_is_dead e)
              (if Qle_bool 10 timer then (e_animation_frame e + 1) mod 2
               else e_animation_frame e)
              (if Qle_bool 10 timer then 0%Q else timer) in
    if Qle_bool x1 (patrol_left e) then at_x (patrol_left e) 1
    else if Qle_bool (patrol_right e) (x1 + owidth (eobj e))
         then at_x (patrol_right e - owidth (eobj e))%Q (-1)
         else at_x x1 (edirection e).

(** The enemy loop of [World.update]. *)
Definition update_all (dt : Q) (current_dimension : Z) (enemies : list Enemy)
    : list Enemy :=
  update dt current_dimension <$> enemies.

(** The enemy is inside its patrol interval. *)
Definition in_patrol (e : Enemy) : Prop :=
  (patrol_left e <= ox (eobj e))%Q
  /\ (ox (eobj e) + owidth (eobj e) <= patrol_right e)%Q.

End EnemyPatrol.

(** ** game/game_objects.py: [Powerup], and [World.check_player_powerup_collisions] *)

Module PowerupItem.

(** The slots of [Powerup]; the colour and the two display texts are render
    data and are left out. *)
Record t : Type := mk {
  obj : GameObject;
  powerup_type : string;
  duration : Q;
  effect_strength : Q;
  animation_offset : Q;
  animation_direction : Z;
  collected : bool;
  dimension_visible : Z
}.

(** [setup_properties()]: duration and strength by type. *)
Definition properties (powerup_type : string) : Q * Q :=
  if decide (powerup_type = "speed") then (10%Q, 1.5%Q)
  else if decide (powerup_type = "jump") then (15%Q, 1.3%Q)
  else if decide (powerup_type = "invincibility") then (5%Q, 1%Q)
  else if decide (powerup_type = "gravity") then (8%Q, 0.7%Q)
  else (10%Q, 1%Q).

(** [Powerup(x, y, powerup_type, dimension)]: a 30 x 30 object. *)
Definition new (x0 y0 : Q) (powerup_type : string) (dimension : Z) : t :=
  let '(duration, strength) := properties powerup_type in
  mk (mkObj x0 y0 30 30) powerup_type duration strength 0 1 false dimension.

(** [Powerup.update(dt)]: the bobbing animation. *)
Definition update (dt : Q) (w : t) : t :=
  if collected w then w
  else
    let anim_speed := (0.3 * dt * 60 / 60)%Q in
    let offset := (animation_offset w + anim_speed * inject_Z (animation_direction w))%Q in
    let direction :=
      if Qltb 5 offset then -1
      else if Qltb offset (-5) then 1
      else animation_direction w in
    mk (obj w) (powerup_type w) (duration w) (effect_strength w)
       offset direction (collected w) (dimension_visible w).

Definition collect (w : t) : t :=
  mk (obj w) (powerup_type w) (duration w) (effect_strength w)
     (animation_offset w) (animation_direction w) true (dimension_visible w).

(** The powerup can be picked up by the actor in this dimension. *)
Definition collectable (player_rect : Rect) (current_dimension : Z) (w : t) : bool :=
  negb (negb (dimension_visible w =? -1) && negb (dimension_visible w =? current_dimension))
  && negb (collected w)
  && colliderect player_rect (GameObject_get_rect (obj w)).

(** The loop of [check_player_powerup_collisions]: it stops at the first
    powerup it collects.  [player_rect] is computed before the loop. *)
Fixpoint collect_first (player_rect : Rect) (current_dimension : Z)
    (powerups : list t) (p : Player.t) : Player.t * list t * option string :=
  match powerups with
  | [] => (p, [], None)
  | w :: rest =>
      if negb (dimension_visible w =? -1) && negb (dimension_visible w =? current_dimension)
      then let '(p', rest', r) := collect_first player_rect current_dimension rest p in
           (p', w :: rest', r)
      else if negb (collected w)
              && colliderect player_rect (GameObject_get_rect (obj w))
      then (Player.add_powerup (powerup_type w) (duration w) p, collect w :: rest,
            Some (powerup_type w))
      else let '(p', rest', r) := collect_first player_rect current_dimension rest p in
           (p', w :: rest', r)
  end.

(** [World.check_player_powerup_collisions(player, current_dimension)]: the
    actor and the powerups are mutated, the pair of results is
    [(powerup_collected, powerup_type)]. *)
Definition check_player_powerup_collisions (powerups : list t) (current_dimension : Z)
    (p : Player.t) : Player.t * list t * (bool * option string) :=
  let '(p', powerups', r) :=
    collect_first (Player.get_rect p) current_dimension powerups p in
  (p', powerups', (bool_decide (is_Some r), r)).

(** [World.spawn_powerup(x, y, powerup_type)] with a given type. *)
Definition spawn_powerup (x0 y0 : Q) (powerup_type : string) (powerups : list t) : list t :=
  powerups ++ [new x0 y0 powerup_type (-1)].

End PowerupItem.

(** ** game/world.py: the camera *)

Module Camera.

(** The camera slots of [World] and the world size they are clamped to. *)
Record t : Type := mk {
  camera_x : Q; camera_y : Q;
  camera_target_x : Q; camera_target_y : Q;
  world_width : Z; world_height : Z
}.

(** The camera of a fresh [World()]; [_clear_level] sets the same size. *)
Definition new : t := mk 0 0 0 0 SCREEN_WIDTH SCREEN_HEIGHT.

(** The first block of [World.update]. *)
Definition update (dt player_x player_y : Q) (c : t) : t :=
  let target_x := (player_x - inject_Z (SCREEN_WIDTH / 2))%Q in
  let target_y := (player_y - inject_Z (SCREEN_HEIGHT / 2))%Q in
  let target_x := pymax 0 (pymin target_x (inject_Z (world_width c - SCREEN_WIDTH))) in
  let target_y := pymax 0 (pymin target_y (inject_Z (world_height c - SCREEN_HEIGHT))) in
  let camera_smoothing := (0.1 * dt * 60)%Q in
  mk (camera_x c + (target_x - camera_x c) * camera_smoothing)%Q
     (camera_y c + (target_y - camera_y c) * camera_smoothing)%Q
     target_x target_y (world_width c) (world_height c).

End Camera.

(** ** game/utils.py: interpolation *)

Module Noise.

(** [lerp(start, end, amount)]. *)
Definition lerp (start stop amount : Q) : Q := (start + amount * (stop - start))%Q.

(** [perlin_noise(x, y, seed)]: the generator is re-seeded on every call, so
    the four values it draws depend on the seed alone; they are the
    arguments [n00], [n10], [n01], [n11]. *)
Definition perlin_noise (x y : Q) (n00 n10 n01 n11 : Q) : Q :=
  let x0 := Qfloor x in
  let y0 := Qfloor y in
  let sx := (x - inject_Z x0)%Q in
  let sy := (y - inject_Z y0)%Q in
  let ix0 := lerp n00 n10 sx in
  let ix1 := lerp n01 n11 sx in
  lerp ix0 ix1 sy.

End Noise.

(** ** game/game_controller.py: dimension switch and the actor's frame *)

Module Frame.

Definition MAX_DIMENSIONS : Z := 4.

(** [switch_dimension()]: Python's [%] has the sign of the divisor, as
    [Z.modulo] has. *)
Definition switch_dimension (g : GameController.t) : GameController.t :=
  let new_dimension := (GameController.current_dimension g mod MAX_DIMENSIONS) + 1 in
  GameController.mk (GameController.dimension_cooldown g) (GameController.active_menu g)
    (GameController.game_started g) (GameController.game_paused g)
    (GameController.game_time g) new_dimension (GameController.difficulty g).

(** The last test of [handle_events]: the dimension key, read while the game
    is started and not paused. *)
Definition handle_dimension_key (pressed : bool) (g : GameController.t) : GameController.t :=
  if GameController.game_started g && negb (GameController.game_paused g) then
    if pressed && Qle_bool (GameController.dimension_cooldown g) 0 then
      let g := switch_dimension g in
      GameController.mk DIMENSION_CHANGE_COOLDOWN (GameController.active_menu g)
        (GameController.game_started g) (GameController.game_paused g)
        (GameController.game_time g) (GameController.current_dimension g)
        (GameController.difficulty g)
    else g
  else g.

(** One turn of the main loop as the dimension sees it: the key, then
    [update(dt)]. *)
Definition key_frame (g : GameController.t) (f : bool * Q) : GameController.t :=
  (GameController.update f.2 (handle_dimension_key f.1 g)).1.

Definition key_frames (frames : list (bool * Q)) (g : GameController.t) : GameController.t :=
  fold_left key_frame frames g.

(** The frame time that a list of frames adds up to. *)
Definition elapsed (frames : list (bool * Q)) : Q :=
  foldr (λ f acc, (f.2 + acc)%Q) 0%Q frames.

(** What [GameController.update] does to the actor in a running frame:
    [player.update], the powerup pick-up, [handle_level_completion] on a
    "level_complete" event (it ends with [player.reset(100, 300)]), and on a
    "player_death" event either [_game_over] (the flag returned) or
    [reset_level], which resets the actor too.  [t1] and [t2] are the
    [time.time()] readings of the two resets.  Every path of
    [handle_level_completion] that returns ends with the reset; an exception
    out of its last fallback ends the program. *)
Definition update_actor (time_factor now t1 t2 : Q) (platforms : list Platform)
    (portals : list Portal) (collectibles : list Collectible) (enemies : list Enemy)
    (powerups : list PowerupItem.t) (current_dimension : Z) (p : Player.t)
    : Player.t * bool :=
  let '(p, _, _, player_events) :=
    Player.update time_factor now platforms portals collectibles enemies
                  current_dimension p in
  let '(p, _, _) :=
    PowerupItem.check_player_powerup_collisions powerups current_dimension p in
  let p := if Player.ev_level_complete player_events
           then Player.reset 100 300 t1 else p in
  if Player.ev_player_death player_events then
    if Player.lives p <=? 0 then (p, true)
    else (Player.reset 100 300 t2, false)
  else (p, false).

(** The keys that [handle_events] reads for the actor, and what it calls
    on the actor while the game is started and not paused. *)
Record keys : Type := mkKeys { key_left : bool; key_right : bool; key_jump : bool }.

Definition handle_keys (k : keys) (p : Player.t) : Player.t :=
  let p :=
    if key_left k then Player.move_left p
    else if key_right k then Player.move_right p
    else Player.stop_horizontal_movement p in
  if key_jump k then (Player.jump p).1 else p.

(** What one turn of the main loop is given from outside the actor: the
    keys, the clock readings, and the world as it is in that frame. *)
Record frame : Type := mkFrame {
  frame_keys : keys;
  frame_time_factor : Q;
  frame_now : Q; frame_reset_time_1 : Q; frame_reset_time_2 : Q;
  frame_platforms : list Platform;
  frame_portals : list Portal;
  frame_collectibles : list Collectible;
  frame_enemies : list Enemy;
  frame_powerups : list PowerupItem.t;
  frame_dimension : Z
}.

Definition actor_frame (p : Player.t) (f : frame) : Player.t * bool :=
  update_actor (frame_time_factor f) (frame_now f) (frame_reset_time_1 f)
    (frame_reset_time_2 f) (frame_platforms f) (frame_portals f)
    (frame_collectibles f) (frame_enemies f) (frame_powerups f) (frame_dimension f)
    (handle_keys (frame_keys f) p).

(** The running game over a list of frames; the flag says that [_game_over]
    was called, after which the game-over menu is active and the actor is
    not updated any more. *)
Fixpoint actor_frames (frames : list frame) (p : Player.t) : Player.t * bool :=
  match frames with
  | [] => (p, false)
  | f :: frames =>
      let '(p', game_over) := actor_frame p f in
      if game_over then (p', true) else actor_frames frames p'
  end.

End Frame.

(** ** game/world.py: culling, and the frames of the camera and of the pool *)

Module View.

(** [World._is_visible(obj, camera_x, camera_y)]; [render] passes the camera
    position converted by [int]. *)
Definition _is_visible (obj : GameObject) (camera_x camera_y : Z) : bool :=
  let screen_x := (ox obj - inject_Z camera_x)%Q in
  let screen_y := (oy obj - inject_Z camera_y)%Q in
  if Qltb (screen_x + owidth obj) 0 || Qltb (inject_Z SCREEN_WIDTH) screen_x
     || Qltb (screen_y + oheight obj) 0 || Qltb (inject_Z SCREEN_HEIGHT) screen_y
  then false
  else true.

(** [get_rect()] of an object while [render] has shifted its position by
    the camera offset for the call of the object's own [render].  It is the
    rectangle that [Platform.render] and [Enemy.render] fill; what the
    entities draw around it (the waves of a portal, the bobbing of
    collectibles and powerups, the sparks of dimension 3) is not part of it. *)
Definition shifted_rect (obj : GameObject) (camera_offset_x camera_offset_y : Z) : Rect :=
  GameObject_get_rect
    (mkObj (ox obj - inject_Z camera_offset_x) (oy obj - inject_Z camera_offset_y)
           (owidth obj) (oheight obj)).

(** The surface that [render] draws on. *)
Definition screen : Rect := mkRect 0 0 SCREEN_WIDTH SCREEN_HEIGHT.

(** The camera block over the frames of a game: each frame gives the step
    and the actor's position. *)
Definition camera_frames (frames : list (Q * Q * Q)) (c : Camera.t) : Camera.t :=
  fold_left (λ c f, Camera.update f.1.1 f.1.2 f.2 c) frames c.

(** The two particle blocks of [World.update] in one frame: the aging, then
    the spawn, which the frame's random draw decides ([None]: no spawn).
    [None] as a result is an uncaught exception. *)
Definition particle_frame (w : World.t)
    (f : Q * option (Z * Q * Q * World.draws)) : option World.t :=
  w ← World.update_foreground_particles f.1 w;
  match f.2 with
  | Some (dimension, player_x, player_y, d) =>
      Some (World._add_dimension_particle dimension player_x player_y d w)
  | None => Some w
  end.

Fixpoint particle_frames (frames : list (Q * option (Z * Q * Q * World.draws)))
    (w : World.t) : option World.t :=
  match frames with
  | [] => Some w
  | f :: frames => w ← particle_frame w f; particle_frames frames w
  end.

(** The rows of the active prefix. *)
Definition active_rows (w : World.t) : list World.particle :=
  take (Z.to_nat (World.active_particles w)) (World.foreground_particles w).

End View.

(** ** Repeated calls of [update_powerups] *)

Module Countdown.


(** What the successive subtractions of [update_powerups] leave of a timer
    [t]: [t - dt1 - dt2 - ...], subtracted in the order of the calls. *)
Definition remaining (t : Q) (dts : list Q) : Q :=
  fold_left (λ t dt, (t - dt)%Q) dts t.

End Countdown.

(** ** game/world.py: the levels *)

Module Levels.

(** The five registries of [World]. *)
Record level : Type := mkLevel {
  platforms : list Platform;
  portals : list Portal;
  collectibles : list Collectible;
  enemies : list Enemy;
  powerups : list PowerupItem.t
}.

(** [Platform(x, y, width, height)], [Enemy(x, y, patrol_left, patrol_right)]
    and [Collectible(x, y)]. *)
Definition Platform_new (x y width height : Q) : Platform :=
  mkPlatform (mkObj x y width height) (-1).

Definition Enemy_new (x y patrol_left patrol_right : Q) : Enemy :=
  mkEnemy (mkObj x y 40 40) patrol_left patrol_right 2 1 false 0 0.

Definition Collectible_new (x y : Q) : Collectible :=
  mkCollectible (mkObj x y 20 20) false.

(** The assignments [platform.dimension_visible = d] and [enemy.speed = s]. *)
Definition set_dimension_visible (d : Z) (P : Platform) : Platform :=
  mkPlatform (pobj P) d.

Definition set_speed (s : Q) (e : Enemy) : Enemy :=
  mkEnemy (eobj e) (patrol_left e) (patrol_right e) s (edirection e) (e_is_dead e)
          (e_animation_frame e) (e_frame_timer e).

(** [_clear_level()]: the registries are emptied and the floor is added.
    The particle count and the world size, which it also resets, are not
    registries. *)
Definition _clear_level : level := mkLevel [floor] [] [] [] [].

Definition _generate_tutorial_level (lv : level) : level :=
  mkLevel
    (platforms lv ++ [Platform_new 300 550 200 20; Platform_new 600 450 200 20;
                      Platform_new 300 350 200 20; Platform_new 600 250 200 20])
    (portals lv ++ [Portal_new 750 190])
    (collectibles lv ++ [Collectible_new 350 520; Collectible_new 650 220])
    (enemies lv)
    (powerups lv).

Definition _generate_mirror_level (lv : level) : level :=
  mkLevel
    (platforms lv ++ [Platform_new 200 600 150 20; Platform_new 400 500 150 20;
                      Platform_new 600 400 150 20; Platform_new 800 300 150 20;
                      Platform_new 1000 200 150 20;
                      set_dimension_visible DIMENSION_MIRROR (Platform_new 300 450 100 20);
                      set_dimension_visible DIMENSION_MIRROR (Platform_new 700 250 100 20)])
    (portals lv ++ [Portal_new 1080 140])
    (collectibles lv ++ [Collectible_new 250 570; Collectible_new 450 470;
                         Collectible_new 650 370; Collectible_new 850 270])
    (enemies lv ++ [Enemy_new 450 470 400 600; Enemy_new 850 270 800 950])
    (powerups lv).

(** The time level clears the platforms once more and adds its own floor. *)
Definition _generate_time_warp_level (lv : level) : level :=
  mkLevel
    ([floor;
      Platform_new 100 500 200 20; Platform_new 500 500 200 20;
      Platform_new 790 410 180 20;
      Platform_new 750 450 150 20; Platform_new 850 370 150 20;
      Platform_new 700 250 180 20; Platform_new 400 350 150 20;
      Platform_new 200 400 150 20;
      set_dimension_visible DIMENSION_TIME_SLOW (Platform_new 500 300 150 20);
      set_dimension_visible DIMENSION_TIME_SLOW (Platform_new 300 200 150 20)])
    (portals lv ++ [Portal_new 900 340])
    (collectibles lv ++ [Collectible_new 250 570; Collectible_new 550 470;
                         Collectible_new 850 370; Collectible_new 550 270;
                         Collectible_new 350 170])
    (enemies lv ++ [set_speed 5 (Enemy_new 550 470 500 700);
                    set_speed 4 (Enemy_new 750 380 700 900)])
    (powerups lv ++ [PowerupItem.new 300 370 "gravity" (-1)]).

(** The values that the random level draws: for each platform its
    position, its width, the value of [random.random()] and the index that
    [random.choice] picks among the three dimensions; for each enemy and each
    collectible the index that [random.choice] picks in [platforms[1:]] and
    the value of [random.randint]. *)
Record platform_draw : Type := mkPlatformDraw {
  draw_x : Z; draw_y : Z; draw_width : Z; draw_gate : Q; draw_dimension : nat
}.

Record placement_draw : Type := mkPlacementDraw { draw_choice : nat; draw_offset : Z }.

Record random_draws : Type := mkRandomDraws {
  platform_draws : nat -> platform_draw;
  enemy_draws : nat -> placement_draw;
  collectible_draws : nat -> placement_draw
}.

(** [random.randint(a, b)] raises [ValueError] on an empty range. *)
Definition randint (a b : Q) (drawn : Z) : option Q :=
  if Qle_bool a b then Some (inject_Z drawn) else None.

(** [list.sort(key=lambda p: p.y)]: the sort is stable, so each element is
    inserted before the first one with a key that is not smaller. *)
Fixpoint insert_by_y (P : Platform) (l : list Platform) : list Platform :=
  match l with
  | [] => [P]
  | Q :: l' =>
      if Qle_bool (oy (pobj P)) (oy (pobj Q)) then P :: Q :: l'
      else Q :: insert_by_y P l'
  end.

Definition sort_by_y (l : list Platform) : list Platform := foldr insert_by_y [] l.

(** One turn of the platform loop. *)
Definition random_platform (level_width : Z) (d : platform_draw) : option Platform :=
  x ← randint 100 (inject_Z (level_width - 200)) (draw_x d);
  y ← randint 150 (inject_Z (SCREEN_HEIGHT - 100)) (draw_y d);
  width ← randint 100 250 (draw_width d);
  let platform := Platform_new x y width 20 in
  if Qltb (draw_gate d) 0.3 then
    dimension ← [DIMENSION_NORMAL; DIMENSION_MIRROR; DIMENSION_TIME_SLOW]
                  !! draw_dimension d;
    Some (set_dimension_visible dimension platform)
  else Some platform.

(** One turn of the enemy loop: the enemies it appends. *)
Definition random_enemy (level_width : Z) (platforms : list Platform)
    (d : placement_draw) : option (list Enemy) :=
  if (1 <? length platforms)%nat then
    platform ← drop 1 platforms !! draw_choice d;
    offset ← randint 20 (owidth (pobj platform) - 40) (draw_offset d);
    let x := (ox (pobj platform) + offset)%Q in
    let y := (oy (pobj platform) - 40)%Q in
    let patrol_left := pymax (ox (pobj platform) - 50) 0 in
    let patrol_right :=
      pymin (ox (pobj platform) + owidth (pobj platform) + 50) (inject_Z level_width) in
    Some [Enemy_new x y patrol_left patrol_right]
  else Some [].

(** One turn of the collectible loop. *)
Definition random_collectible (platforms : list Platform) (d : placement_draw)
    : option (list Collectible) :=
  if (1 <? length platforms)%nat then
    platform ← drop 1 platforms !! draw_choice d;
    offset ← randint 10 (owidth (pobj platform) - 20) (draw_offset d);
    Some [Collectible_new (ox (pobj platform) + offset) (oy (pobj platform) - 30)]
  else Some [].

(** [_generate_random_level(level_number)]; [None] is an exception. *)
Definition _generate_random_level (level_number : Z) (d : random_draws) (lv : level)
    : option level :=
  let platform_count := 5 + level_number in
  let enemy_count := level_number in
  let collectible_count := 3 + level_number in
  let level_width := SCREEN_WIDTH + level_number * 100 in
  drawn ← mapM (λ i, random_platform level_width (platform_draws d i))
               (seq 0 (Z.to_nat platform_count));
  let platforms := sort_by_y (platforms lv ++ drawn) in
  new_enemies ← mapM (λ i, random_enemy level_width platforms (enemy_draws d i))
                     (seq 0 (Z.to_nat enemy_count));
  new_collectibles ← mapM (λ i, random_collectible platforms (collectible_draws d i))
                          (seq 0 (Z.to_nat collectible_count));
  let new_portals :=
    if (1 <? length platforms)%nat then
      match platforms !! 1%nat with
      | Some highest_platform =>
          [Portal_new (ox (pobj highest_platform) + owidth (pobj highest_platform) - 30)
                      (oy (pobj highest_platform) - 60)]
      | None => []
      end
    else [] in
  Some (mkLevel platforms (portals lv ++ new_portals)
                (collectibles lv ++ concat new_collectibles)
                (enemies lv ++ concat new_enemies) (powerups lv)).

(** [generate_level(level_number)]. *)
Definition generate_level (level_number : Z) (d : random_draws) : option level :=
  let lv := _clear_level in
  if level_number =? 0 then Some (_generate_tutorial_level lv)
  else if level_number =? 1 then Some (_generate_mirror_level lv)
  else if level_number =? 2 then Some (_generate_time_warp_level lv)
  else _generate_random_level level_number d lv.

(** The draws that the platform loop and the two calls of [random.choice] on
    [platforms[1:]] can return for this level number. *)
Definition draws_in_range (level_number : Z) (d : random_draws) : Prop :=
  let level_width := SCREEN_WIDTH + level_number * 100 in
  (forall i, (i < Z.to_nat (5 + level_number))%nat ->
     100 <= draw_x (platform_draws d i) <= level_width - 200
     /\ 150 <= draw_y (platform_draws d i) <= SCREEN_HEIGHT - 100
     /\ 100 <= draw_width (platform_draws d i) <= 250
     /\ (draw_dimension (platform_draws d i) < 3)%nat)
  /\ (forall i, (draw_choice (enemy_draws d i) < Z.to_nat (5 + level_number))%nat)
  /\ (forall i, (draw_choice (collectible_draws d i) < Z.to_nat (5 + level_number))%nat).

(** A platform as the platform loop draws it, and what the enemy loop
    gives an enemy: a live enemy that faces right, with a patrol interval
    inside the level and at least as wide as the enemy. *)
Definition drawn_platform (level_width : Z) (P : Platform) : Prop :=
  (100 <= ox (pobj P) <= inject_Z (level_width - 200))%Q
  /\ (150 <= oy (pobj P) <= inject_Z (SCREEN_HEIGHT - 100))%Q
  /\ (100 <= owidth (pobj P) <= 250)%Q.

Definition can_patrol (e : Enemy) : Prop :=
  e_is_dead e = false /\ edirection e = 1
  /\ (0 <= patrol_left e)%Q
  /\ (patrol_left e + owidth (eobj e) <= patrol_right e)%Q.

End Levels.

(** * More scenarios *)

Section MoreScenarios.

(** A started game in dimension 4 whose switch cooldown has run out. *)
Definition running_quantum : GameController.t :=
  GameController.mk 0 false true false 0 4 1.

(** Three frames of a tenth of a second with the dimension key held. *)
Definition held_key_frames : list (bool * Q) :=
  [(true, 0.1%Q); (true, 0.1%Q); (true, 0.1%Q)].

End MoreScenarios.


(** * Properties *)

(** ** Numbers *)

Lemma Qltb_lt a b : Qltb a b = true <-> (a < b)%Q.
Proof.
  unfold Qltb. rewrite negb_true_iff.
  destruct (Qle_bool b a) eqn:E.
  - apply Qle_bool_iff in E. split; [discriminate | intros; lra].
  - split; [intros _ | reflexivity].
    apply Qnot_le_lt. intros H. apply Qle_bool_iff in H. congruence.
Qed.

Lemma Qltb_ge a b : Qltb a b = false <-> (b <= a)%Q.
Proof.
  unfold Qltb. rewrite negb_false_iff. apply Qle_bool_iff.
Qed.

Lemma trunc_inject_Z (z : Z) : trunc (inject_Z z) = z.
Proof. unfold trunc; simpl. apply Z.quot_1_r. Qed.

(** ** The frame step of the controller *)

Section FrameStep.
Import GameController.

(** C1: the elapsed time of the frame does not reach the simulation.  At 60
    frames per second and normal difficulty the actor update receives 1, a
    whole second where 1/60 of a second has passed, and the world update
    receives the same value; in dimension 3 both receive 1/2.  Neither value
    is the frame's dt scaled by the difficulty multiplier. *)
Lemma C1_dt_is_not_forwarded :
  (exists c, snd (update (1 # 60) running_normal) = Some c
     /\ (player_update_dt c == 1)%Q /\ (world_update_dt c == 1)%Q
     /\ ~ (player_update_dt c == (1 # 60) * difficulty_multiplier 1)%Q
     /\ ~ (world_update_dt c == (1 # 60) * difficulty_multiplier 1)%Q)
  /\ (exists c, snd (update (1 # 60) running_time_dimension) = Some c
     /\ (player_update_dt c == 1 # 2)%Q /\ (world_update_dt c == 1 # 2)%Q
     /\ ~ (player_update_dt c == (1 # 60) * difficulty_multiplier 1)%Q
     /\ ~ (world_update_dt c == (1 # 60) * difficulty_multiplier 1)%Q).
Proof.
  split; eexists; (split; [reflexivity | ]); vm_compute;
    repeat split; discriminate.
Qed.

Lemma time_factor_product (g : GameController.t) :
  (time_factor g
   == dimension_factor (current_dimension g) * difficulty_multiplier (difficulty g))%Q.
Proof.
  unfold time_factor, dimension_factor, difficulty_multiplier.
  destruct (current_dimension g =? 3), (difficulty g =? 0), (difficulty g =? 2);
    vm_compute; reflexivity.
Qed.

(** In every frame in which the game is running and unpaused and no menu is
    open, the actor update and the world update receive the same value,
    whatever the frame's dt: the dimension time factor (0.5 in dimension 3,
    1 otherwise) times the difficulty multiplier (0.9, 1.0, 1.1).  The
    frame's dt is added to the game clock. *)
Lemma update_passes_time_factor (dt : Q) (g : GameController.t) :
  active_menu g = false -> game_started g = true -> game_paused g = false ->
  exists c,
    snd (update dt g) = Some c
    /\ player_update_dt c = world_update_dt c
    /\ (player_update_dt c
         == dimension_factor (current_dimension g) * difficulty_multiplier (difficulty g))%Q
    /\ (game_time (fst (update dt g)) == game_time g + dt)%Q.
Proof.
  intros Hm Hs Hp. unfold update.
  destruct (Qltb 0 (dimension_cooldown g)); simpl; rewrite Hm, Hs, Hp; simpl;
    (eexists; split; [reflexivity | ]; simpl; split; [reflexivity | ]; split;
     [ | reflexivity ]).
  - rewrite <- (time_factor_product g). reflexivity.
  - apply time_factor_product.
Qed.

End FrameStep.

(** ** Powerup timers *)

Section Powerups.
Import Player.

(** C6: re-collecting a powerup whose timer is [t1 > 0] with duration [t2]
    leaves a timer of exactly [t1 + t2] and an active flag that is true. *)
Theorem C6_add_powerup_extends (X : string) (t1 t2 : Q) (p : Player.t) :
  powerup_timers p !! X = Some t1 -> (0 < t1)%Q ->
  powerup_timers (add_powerup X t2 p) !! X = Some (t1 + t2)%Q
  /\ active_powerups (add_powerup X t2 p) !! X = Some true.
Proof.
  intros Ht _. unfold add_powerup. cbn. rewrite Ht.
  destruct (decide (X = "jump")); cbn; rewrite !lookup_insert_eq; done.
Qed.

Lemma C6_add_powerup_extends_witness :
  powerup_timers (add_powerup "jump" 15 actor_with_jump_powerup) !! "jump"
    = Some (4 + 15)%Q
  /\ active_powerups (add_powerup "jump" 15 actor_with_jump_powerup) !! "jump"
    = Some true.
Proof.
  apply (C6_add_powerup_extends "jump" 4 15 actor_with_jump_powerup).
  - vm_compute. reflexivity.
  - reflexivity.
Defined.

End Powerups.

(** ** The particle pool *)

Section ParticlePool.
Import World.

(** C7, as stated, fails in what the spawn reports: on the full pool, which
    it leaves as it was, it returns [None], and it returns the same [None]
    from the pool with free slots, where it has added a row.  The caller is
    told nothing. *)
Lemma C7_full_pool_reports_nothing :
  _add_dimension_particle_returns 2 640 360 some_draws full_pool = PyNone
  /\ _add_dimension_particle_returns 2 640 360 some_draws full_pool
     = _add_dimension_particle_returns 2 640 360 some_draws small_pool
  /\ _add_dimension_particle_returns 2 640 360 some_draws full_pool <> PyBool false
  /\ _add_dimension_particle 2 640 360 some_draws full_pool = full_pool
  /\ active_particles (_add_dimension_particle 2 640 360 some_draws small_pool)
     = active_particles small_pool + 1.
Proof.
  repeat split; try reflexivity. discriminate.
Qed.

(** C7 (amended): with every slot of the pool active, a spawn attempt is a
    silent no-op: the world it leaves is the world it was given, so the
    active count is still the capacity, no row changed and the pool did not
    grow; no exception gets out (the function is total), and the call
    returns [None], as every call does.  The failure shows only as the
    unchanged count. *)
Theorem C7_spawn_on_full_pool (dimension : Z) (player_x player_y : Q) (d : draws)
    (w : World.t) :
  particle_pool_size w = 300 -> active_particles w = particle_pool_size w ->
  let w' := _add_dimension_particle dimension player_x player_y d w in
  w' = w
  /\ active_particles w' = 300
  /\ foreground_particles w' = foreground_particles w
  /\ length (foreground_particles w') = length (foreground_particles w)
  /\ _add_dimension_particle_returns dimension player_x player_y d w = PyNone.
Proof.
  intros Hcap Hfull w'. subst w'.
  unfold _add_dimension_particle, _add_dimension_particle_returns.
  rewrite Hfull, Z.geb_leb, Z.leb_refl. rewrite <- Hcap, <- Hfull. done.
Qed.

Lemma C7_spawn_on_full_pool_witness :
  let w' := _add_dimension_particle 2 640 360 some_draws full_pool in
  w' = full_pool
  /\ active_particles w' = 300
  /\ foreground_particles w' = foreground_particles full_pool
  /\ length (foreground_particles w') = length (foreground_particles full_pool)
  /\ _add_dimension_particle_returns 2 640 360 some_draws full_pool = PyNone.
Proof.
  apply (C7_spawn_on_full_pool 2 640 360 some_draws full_pool); reflexivity.
Defined.

(** With a free slot the spawn writes the row at the active count and
    counts it: the unchanged count of a full pool is how the failure shows. *)
Lemma spawn_on_free_slot (dimension : Z) (player_x player_y : Q) (d : draws)
    (w : World.t) :
  well_formed w -> active_particles w < particle_pool_size w ->
  let w' := _add_dimension_particle dimension player_x player_y d w in
  active_particles w' = active_particles w + 1
  /\ length (foreground_particles w') = length (foreground_particles w)
  /\ well_formed w'.
Proof.
  intros (Hcap & Hlen & Hlo & Hhi) Hfree w'. subst w'.
  unfold _add_dimension_particle.
  rewrite Z.geb_leb.
  destruct (particle_pool_size w <=? active_particles w) eqn:E;
    [apply Z.leb_le in E; exfalso; lia|].
  unfold set_row. rewrite Hlen.
  destruct (0 <=? active_particles w) eqn:E1; [|apply Z.leb_gt in E1; exfalso; lia].
  destruct (active_particles w <? particle_pool_size w) eqn:E2;
    [|apply Z.ltb_ge in E2; exfalso; lia].
  cbn. repeat split; cbn; rewrite ?length_insert; try assumption; lia.
Qed.

Lemma live_not_dead (q : particle) : is_live_particle q = negb (is_dead_particle q).
Proof. reflexivity. Qed.

Lemma is_live_particle_lt (q : particle) : is_live_particle q = true <-> (0 < lifetime q)%Q.
Proof. apply Qltb_lt. Qed.

(** The dead and the live rows of a slice partition it. *)
Lemma dead_live_partition (l : list particle) :
  (length (filter (λ q, is_dead_particle q = true) l)
   + length (filter (λ q, is_live_particle q = true) l) = length l)%nat.
Proof.
  induction l as [|q l IH]; [reflexivity|].
  rewrite !filter_cons, live_not_dead.
  destruct (is_dead_particle q) eqn:E; simpl;
    repeat case_decide; try congruence; try done; simpl; lia.
Qed.

Lemma no_dead_all_live (l : list particle) :
  length (filter (λ q, is_dead_particle q = true) l) = 0%nat ->
  filter (λ q, is_live_particle q = true) l = l.
Proof.
  induction l as [|q l IH]; [reflexivity|].
  rewrite !filter_cons, live_not_dead.
  destruct (is_dead_particle q) eqn:E; simpl;
    repeat case_decide; try congruence; try done; simpl; try lia.
  intros H. f_equal. apply IH, H.
Qed.

Lemma survivors_live (l : list particle) :
  Forall (λ q, (0 < lifetime q)%Q) (filter (λ q, is_live_particle q = true) l).
Proof.
  apply Forall_forall. intros q Hq.
  apply list_elem_of_filter in Hq as [Hq _]. apply is_live_particle_lt, Hq.
Qed.

(** C8: the aging and compaction step of a well-formed pool returns
    normally; afterwards the active prefix is exactly the list of the aged
    rows with a positive lifetime, in their former order, the active count is
    their number and stays within the capacity, and the pool keeps its
    size. *)
Theorem C8_age_and_compact (dt : Q) (w : World.t) :
  well_formed w ->
  exists w',
    update_foreground_particles dt w = Some w'
    /\ let aged := age dt <$> take (Z.to_nat (active_particles w)) (foreground_particles w) in
       let survivors := filter (λ q, is_live_particle q = true) aged in
       take (Z.to_nat (active_particles w')) (foreground_particles w') = survivors
       /\ active_particles w' = Z.of_nat (length survivors)
       /\ Forall (λ q, (0 < lifetime q)%Q)
                 (take (Z.to_nat (active_particles w')) (foreground_particles w'))
       /\ sublist survivors aged
       /\ 0 <= active_particles w' <= particle_pool_size w'
       /\ active_particles w' <= active_particles w
       /\ well_formed w'.
Proof.
  intros (Hcap & Hlen & Hlo & Hhi).
  set (n := Z.to_nat (active_particles w)).
  set (aged := age dt <$> take n (foreground_particles w)).
  set (survivors := filter (λ q, is_live_particle q = true) aged).
  assert (Hn : (n <= length (foreground_particles w))%nat) by lia.
  assert (Haged : length aged = n).
  { unfold aged. rewrite length_fmap, length_take_le; [reflexivity | exact Hn]. }
  pose proof (dead_live_partition aged) as Hpart. fold survivors in Hpart.
  assert (Hpool : length (aged ++ drop n (foreground_particles w))
                  = length (foreground_particles w)).
  { rewrite length_app, Haged, length_drop. lia. }
  cut (exists w',
    update_foreground_particles dt w = Some w'
    /\ take (Z.to_nat (active_particles w')) (foreground_particles w') = survivors
    /\ active_particles w' = Z.of_nat (length survivors)
    /\ length (foreground_particles w') = length (foreground_particles w)
    /\ particle_pool_size w' = particle_pool_size w).
  { intros (w' & Hr & Htake & Hact & Hlen' & Hcap'). exists w'.
    split; [exact Hr|]. cbv zeta. fold n aged survivors.
    rewrite Htake.
    repeat split; try rewrite Hcap'; try (rewrite Hlen'; exact Hlen);
      try exact Hact; try apply survivors_live; try apply sublist_filter;
      try congruence; lia. }
  unfold update_foreground_particles. fold n aged survivors.
  destruct (0 <? active_particles w) eqn:Hpos.
  - set (dead := length (filter (λ q, is_dead_particle q = true) aged)) in *.
    destruct (0 <? Z.of_nat dead) eqn:Hdead.
    + apply Z.ltb_lt in Hdead.
      assert (Hsurv : active_particles w - Z.of_nat dead = Z.of_nat (length survivors)) by lia.
      destruct (0 <? active_particles w - Z.of_nat dead) eqn:Hleft.
      * apply Z.ltb_lt in Hleft. unfold assign_prefix.
        rewrite Hsurv, Nat2Z.id.
        rewrite length_take_le by lia.
        rewrite decide_True by reflexivity. simpl.
        eexists; split; [reflexivity|]; simpl.
        rewrite Nat2Z.id, take_app_length, length_app, length_drop.
        repeat split; lia.
      * apply Z.ltb_ge in Hleft.
        assert (Hnil : length survivors = 0%nat) by lia.
        eexists; split; [reflexivity|]; simpl.
        rewrite Hsurv, Hnil. simpl.
        destruct survivors; [|discriminate]. repeat split; try done.
    + apply Z.ltb_ge in Hdead.
      assert (Hnone : dead = 0%nat) by lia.
      eexists; split; [reflexivity|]; simpl. fold n.
      unfold survivors. rewrite (no_dead_all_live aged Hnone).
      rewrite <- Haged at 1. rewrite take_app_length.
      repeat split; try done. lia.
  - apply Z.ltb_ge in Hpos.
    assert (Hz : n = 0%nat) by lia.
    eexists; split; [reflexivity|].
    unfold survivors, aged. rewrite Hz. simpl.
    replace (active_particles w) with 0 by lia. done.
Qed.

Lemma C8_age_and_compact_witness :
  exists w',
    update_foreground_particles 1 small_pool = Some w'
    /\ let aged := age 1 <$> take (Z.to_nat (active_particles small_pool))
                                  (foreground_particles small_pool) in
       let survivors := filter (λ q, is_live_particle q = true) aged in
       take (Z.to_nat (active_particles w')) (foreground_particles w') = survivors
       /\ active_particles w' = Z.of_nat (length survivors)
       /\ Forall (λ q, (0 < lifetime q)%Q)
                 (take (Z.to_nat (active_particles w')) (foreground_particles w'))
       /\ sublist survivors aged
       /\ 0 <= active_particles w' <= particle_pool_size w'
       /\ active_particles w' <= active_particles small_pool
       /\ well_formed w'.
Proof.
  apply (C8_age_and_compact 1 small_pool).
  repeat split; vm_compute; congruence.
Defined.

(** On [small_pool] one step leaves the first and the third row, in that
    order, at indices 0 and 1. *)
Example small_pool_step :
  (λ w', (active_particles w', take 2 (foreground_particles w')))
    <$> update_foreground_particles 1 small_pool
  = Some (2, [mkParticle (1 + 1 * 1) (1 + 0 * 1) 2 1 0 (3 - 1) 0;
              mkParticle (3 + 0 * 1) (3 + 0 * 1) 2 0 0 (2 - 1) 2]).
Proof. vm_compute. reflexivity. Qed.

End ParticlePool.

(** ** The actor: what each phase of [update] leaves alone *)

Ltac resolve_cases :=
  unfold Player.resolve_platform, Player.land_on;
  repeat match goal with
         | |- context [if ?b then _ else _] => destruct b eqn:?
         | |- context [match check_collision ?a ?b with _ => _ end] =>
             destruct (check_collision a b) eqn:?
         end; simpl.

Section ActorFrames.
Import Player.

(** An invariant of the loop body is an invariant of the loop. *)
Lemma resolve_fold_inv (I : Player.t -> Prop) (pr br : Rect) (dim : Z)
    (platforms : list Platform) :
  (forall s P, P ∈ platforms -> I s -> I (resolve_platform pr br dim s P)) ->
  forall s, I s -> I (fold_left (resolve_platform pr br dim) platforms s).
Proof.
  induction platforms as [|P ps IH]; intros Hstep s Hs; simpl; [exact Hs|].
  apply IH.
  - intros s' P' HP'. apply Hstep. right. exact HP'.
  - apply Hstep; [left | exact Hs].
Qed.

(** The slots that platform resolution never writes. *)
Lemma resolve_platform_frame pr br dim s P :
  let s' := resolve_platform pr br dim s P in
  lives s' = lives s /\ is_dead s' = is_dead s
  /\ invincible_timer s' = invincible_timer s
  /\ last_portal_time s' = last_portal_time s
  /\ max_jumps s' = max_jumps s
  /\ width s' = width s /\ height s' = height s
  /\ active_powerups s' = active_powerups s
  /\ powerup_timers s' = powerup_timers s.
Proof. resolve_cases; repeat split; reflexivity. Qed.

Lemma check_platform_collisions_frame platforms dim p :
  let q := check_platform_collisions platforms dim p in
  lives q = lives p /\ is_dead q = is_dead p
  /\ invincible_timer q = invincible_timer p
  /\ last_portal_time q = last_portal_time p
  /\ max_jumps q = max_jumps p
  /\ width q = width p /\ height q = height p
  /\ active_powerups q = active_powerups p
  /\ powerup_timers q = powerup_timers p.
Proof.
  unfold check_platform_collisions.
  apply (resolve_fold_inv (λ s,
    lives s = lives p /\ is_dead s = is_dead p
    /\ invincible_timer s = invincible_timer p
    /\ last_portal_time s = last_portal_time p
    /\ max_jumps s = max_jumps p
    /\ width s = width p /\ height s = height p
    /\ active_powerups s = active_powerups p
    /\ powerup_timers s = powerup_timers p)).
  - intros s P _ Hs.
    pose proof (resolve_platform_frame (get_rect (set_on_ground false p))
                  (ground_probe (set_on_ground false p)) dim s P) as Hf.
    simpl in Hf. intuition congruence.
  - simpl. repeat split; reflexivity.
Qed.


Lemma integrate_frame dt p :
  let q := integrate dt p in
  lives q = lives p /\ is_dead q = is_dead p
  /\ invincible_timer q = invincible_timer p
  /\ last_portal_time q = last_portal_time p
  /\ on_ground q = on_ground p
  /\ jump_count q = jump_count p /\ max_jumps q = max_jumps p
  /\ width q = width p /\ height q = height p
  /\ active_powerups q = active_powerups p
  /\ powerup_timers q = powerup_timers p.
Proof.
  unfold integrate. destruct (on_ground p) eqn:E; repeat split; try reflexivity; exact E.
Qed.

Lemma _update_animation_frame dt p :
  let q := _update_animation dt p in
  lives q = lives p /\ is_dead q = is_dead p
  /\ invincible_timer q = invincible_timer p
  /\ last_portal_time q = last_portal_time p
  /\ on_ground q = on_ground p
  /\ jump_count q = jump_count p /\ max_jumps q = max_jumps p
  /\ width q = width p /\ height q = height p
  /\ active_powerups q = active_powerups p
  /\ powerup_timers q = powerup_timers p
  /\ x q = x p /\ y q = y p /\ velocity_y q = velocity_y p.
Proof.
  unfold _update_animation. destruct (Qle_bool _ _); repeat split; reflexivity.
Qed.

Lemma _update_collision_rects_frame p :
  let q := _update_collision_rects p in
  lives q = lives p /\ is_dead q = is_dead p
  /\ invincible_timer q = invincible_timer p
  /\ last_portal_time q = last_portal_time p
  /\ on_ground q = on_ground p
  /\ jump_count q = jump_count p /\ max_jumps q = max_jumps p
  /\ width q = width p /\ height q = height p
  /\ active_powerups q = active_powerups p
  /\ powerup_timers q = powerup_timers p
  /\ x q = x p /\ y q = y p /\ velocity_y q = velocity_y p.
Proof. repeat split; reflexivity. Qed.

Lemma footsteps_frame p :
  let q := (footsteps p).1 in
  lives q = lives p /\ is_dead q = is_dead p
  /\ invincible_timer q = invincible_timer p
  /\ last_portal_time q = last_portal_time p
  /\ on_ground q = on_ground p
  /\ jump_count q = jump_count p /\ max_jumps q = max_jumps p
  /\ width q = width p /\ height q = height p
  /\ active_powerups q = active_powerups p
  /\ powerup_timers q = powerup_timers p
  /\ x q = x p /\ y q = y p /\ velocity_y q = velocity_y p.
Proof.
  unfold footsteps. destruct (on_ground p && _); [destruct (Qle_bool _ _)|];
    repeat split; reflexivity.
Qed.

Lemma update_powerups_frame dt p :
  let q := update_powerups dt p in
  lives q = lives p /\ is_dead q = is_dead p
  /\ last_portal_time q = last_portal_time p
  /\ on_ground q = on_ground p
  /\ jump_count q = jump_count p
  /\ width q = width p /\ height q = height p
  /\ x q = x p /\ y q = y p /\ velocity_y q = velocity_y p.
Proof.
  unfold update_powerups. destruct (decide _); simpl;
    destruct (Qltb 0 (invincible_timer p)); repeat split; reflexivity.
Qed.

Lemma update_powerups_invincible_timer dt p :
  invincible_timer (update_powerups dt p)
  = if Qltb 0 (invincible_timer p) then (invincible_timer p - dt)%Q
    else invincible_timer p.
Proof.
  unfold update_powerups. destruct (decide _); simpl;
    destruct (Qltb 0 (invincible_timer p)); reflexivity.
Qed.

(** [update_powerups] reads nothing but the two dictionaries, the limit
    and the hit timer. *)
Lemma update_powerups_congr dt p q :
  powerup_timers p = powerup_timers q -> active_powerups p = active_powerups q ->
  max_jumps p = max_jumps q -> invincible_timer p = invincible_timer q ->
  powerup_timers (update_powerups dt p) = powerup_timers (update_powerups dt q)
  /\ active_powerups (update_powerups dt p) = active_powerups (update_powerups dt q)
  /\ max_jumps (update_powerups dt p) = max_jumps (update_powerups dt q)
  /\ invincible_timer (update_powerups dt p) = invincible_timer (update_powerups dt q).
Proof.
  intros Ht Ha Hm Hi. unfold update_powerups. rewrite Ht, Ha.
  destruct (decide _); cbn [invincible_timer set_max_jumps set_powerup_timers
                             set_active_powerups];
    rewrite Hi; destruct (Qltb _ _); cbn; repeat split; congruence.
Qed.

Lemma derive_animation_state_frame p :
  let q := derive_animation_state p in
  lives q = lives p /\ is_dead q = is_dead p
  /\ invincible_timer q = invincible_timer p
  /\ last_portal_time q = last_portal_time p
  /\ on_ground q = on_ground p
  /\ jump_count q = jump_count p /\ max_jumps q = max_jumps p
  /\ width q = width p /\ height q = height p
  /\ active_powerups q = active_powerups p
  /\ powerup_timers q = powerup_timers p
  /\ x q = x p /\ y q = y p /\ velocity_y q = velocity_y p.
Proof.
  unfold derive_animation_state.
  destruct (negb _); [destruct (Qltb _ _) | destruct (Qeq_bool _ _)];
    repeat split; reflexivity.
Qed.

Lemma _check_portal_collision_frame now portals p :
  let q := (_check_portal_collision now portals p).1 in
  lives q = lives p /\ is_dead q = is_dead p
  /\ invincible_timer q = invincible_timer p
  /\ on_ground q = on_ground p
  /\ jump_count q = jump_count p /\ max_jumps q = max_jumps p
  /\ width q = width p /\ height q = height p
  /\ active_powerups q = active_powerups p
  /\ powerup_timers q = powerup_timers p
  /\ x q = x p /\ y q = y p /\ velocity_y q = velocity_y p.
Proof.
  unfold _check_portal_collision.
  destruct (Qltb _ _); [|destruct (existsb _ _)]; repeat split; reflexivity.
Qed.

Lemma check_enemy_collisions_frame enemies p :
  let q := (check_enemy_collisions enemies p).1.1 in
  lives q = lives p /\ is_dead q = is_dead p
  /\ invincible_timer q = invincible_timer p
  /\ last_portal_time q = last_portal_time p
  /\ on_ground q = on_ground p
  /\ jump_count q = jump_count p /\ max_jumps q = max_jumps p
  /\ width q = width p /\ height q = height p
  /\ active_powerups q = active_powerups p
  /\ powerup_timers q = powerup_timers p
  /\ x q = x p /\ y q = y p.
Proof.
  induction enemies as [|e es IH]; [repeat split; reflexivity|].
  simpl. destruct (check_enemy_collisions es p) as [[p' es'] r].
  destruct (e_is_dead e); [exact IH|].
  destruct (colliderect _ _); [|exact IH].
  destruct (colliderect _ _ && _); [repeat split; reflexivity|].
  destruct (negb _); [repeat split; reflexivity | exact IH].
Qed.

Lemma apply_enemy_hit_frame hit p :
  let q := (apply_enemy_hit hit p).1.1 in
  last_portal_time q = last_portal_time p
  /\ on_ground q = on_ground p
  /\ jump_count q = jump_count p /\ max_jumps q = max_jumps p
  /\ width q = width p /\ height q = height p
  /\ active_powerups q = active_powerups p
  /\ powerup_timers q = powerup_timers p
  /\ x q = x p /\ y q = y p.
Proof.
  unfold apply_enemy_hit. destruct hit; [|repeat split; reflexivity..].
  destruct (negb _ && _); [|repeat split; reflexivity].
  destruct (lives p - 1 <=? 0) eqn:E; simpl; rewrite E; simpl; repeat split; reflexivity.
Qed.

Lemma fall_out_frame p :
  let q := (fall_out p).1 in
  invincible_timer q = invincible_timer p
  /\ last_portal_time q = last_portal_time p
  /\ on_ground q = on_ground p
  /\ jump_count q = jump_count p /\ max_jumps q = max_jumps p
  /\ width q = width p /\ height q = height p
  /\ active_powerups q = active_powerups p
  /\ powerup_timers q = powerup_timers p
  /\ x q = x p /\ y q = y p.
Proof.
  unfold fall_out. destruct (Qltb _ _); repeat split; reflexivity.
Qed.


Lemma update_live dt now platforms portals collectibles enemies dim p :
  is_dead p = false ->
  update dt now platforms portals collectibles enemies dim p
  = let p1 := before_portal dt platforms dim p in
    let pp := _check_portal_collision now portals p1 in
    let p3 := before_enemies dt now platforms portals collectibles dim p in
    let ee := check_enemy_collisions enemies p3 in
    let hh := apply_enemy_hit ee.2 ee.1.1 in
    let ff := fall_out hh.1.1 in
    (ff.1,
     (check_collectible_collisions collectibles
        (if pp.2 then set_level_completed true pp.1 else pp.1)).1,
     ee.1.2,
     mkEvents (footsteps (after_collisions dt platforms dim p)).2 pp.2
       (check_collectible_collisions collectibles
          (if pp.2 then set_level_completed true pp.1 else pp.1)).2
       (hh.1.2 || ff.2) hh.2).
Proof.
  intros Hlive. unfold update. rewrite Hlive.
  unfold before_enemies, before_portal, after_collisions. cbv zeta.
  destruct (footsteps _) as [p1 st]. cbn [fst snd].
  destruct (_check_portal_collision _ _ _) as [p2 portal]. cbn [fst snd].
  destruct (check_collectible_collisions _ _) as [cs collect]. cbn [fst snd].
  destruct (check_enemy_collisions _ _) as [[p3 es] hit]. cbn [fst snd].
  destruct (apply_enemy_hit _ _) as [[p4 de] ed]. cbn [fst snd].
  destruct (fall_out _) as [p5 df]. reflexivity.
Qed.

End ActorFrames.

(** ** Lives and the invincibility window *)

Section PlayerDeath.
Import Player.

Lemma before_portal_frame dt platforms dim p :
  let q := before_portal dt platforms dim p in
  lives q = lives p /\ is_dead q = is_dead p
  /\ last_portal_time q = last_portal_time p
  /\ width q = width p /\ height q = height p
  /\ invincible_timer q = invincible_timer (update_powerups dt p)
  /\ max_jumps q = max_jumps (update_powerups dt p)
  /\ powerup_timers q = powerup_timers (update_powerups dt p)
  /\ active_powerups q = active_powerups (update_powerups dt p)
  /\ x q = x (after_collisions dt platforms dim p)
  /\ y q = y (after_collisions dt platforms dim p)
  /\ on_ground q = on_ground (after_collisions dt platforms dim p)
  /\ jump_count q = jump_count (after_collisions dt platforms dim p).
Proof.
  unfold before_portal, after_collisions.
  set (p0 := integrate dt p).
  set (p1 := _update_animation dt p0).
  set (p2 := _update_collision_rects p1).
  set (p3 := check_platform_collisions platforms dim p2).
  set (p4 := (footsteps p3).1).
  set (p5 := update_powerups dt p4).
  pose proof (integrate_frame dt p) as F0.
  pose proof (_update_animation_frame dt p0) as F1.
  pose proof (_update_collision_rects_frame p1) as F2.
  pose proof (check_platform_collisions_frame platforms dim p2) as F3.
  pose proof (footsteps_frame p3) as F4.
  pose proof (update_powerups_frame dt p4) as F5.
  pose proof (derive_animation_state_frame p5) as F6.
  cbv zeta in *. fold p0 p1 p2 p3 p4 p5 in F0, F1, F2, F3, F4, F5, F6.
  destruct_and!.
  destruct (update_powerups_congr dt p4 p) as (Ct & Ca & Cm & Ci); try congruence.
  fold p5 in Ct, Ca, Cm, Ci.
  repeat split; congruence.
Qed.

Lemma before_enemies_frame dt now platforms portals collectibles dim p :
  let q := before_enemies dt now platforms portals collectibles dim p in
  let q0 := before_portal dt platforms dim p in
  lives q = lives q0 /\ is_dead q = is_dead q0
  /\ invincible_timer q = invincible_timer q0
  /\ width q = width q0 /\ height q = height q0
  /\ x q = x q0 /\ y q = y q0
  /\ on_ground q = on_ground q0 /\ jump_count q = jump_count q0
  /\ max_jumps q = max_jumps q0
  /\ powerup_timers q = powerup_timers q0
  /\ active_powerups q = active_powerups q0.
Proof.
  unfold before_enemies. cbv zeta.
  pose proof (_check_portal_collision_frame now portals (before_portal dt platforms dim p)) as F.
  cbv zeta in F. destruct_and!.
  destruct (_check_portal_collision _ _ _) as [q b]. cbn [fst snd] in *.
  destruct b; destruct (check_collectible_collisions _ _).2; repeat split; assumption.
Qed.

(** The slots of the actor at the end of [update], in terms of the state
    after platform resolution and of the powerup step. *)
Lemma update_final_state dt now platforms portals collectibles enemies dim p :
  is_dead p = false ->
  let q := (update dt now platforms portals collectibles enemies dim p).1.1.1 in
  x q = x (after_collisions dt platforms dim p)
  /\ y q = y (after_collisions dt platforms dim p)
  /\ on_ground q = on_ground (after_collisions dt platforms dim p)
  /\ jump_count q = jump_count (after_collisions dt platforms dim p)
  /\ max_jumps q = max_jumps (update_powerups dt p)
  /\ powerup_timers q = powerup_timers (update_powerups dt p)
  /\ active_powerups q = active_powerups (update_powerups dt p)
  /\ width q = width p /\ height q = height p.
Proof.
  intros Hlive. rewrite update_live by exact Hlive. cbv zeta. cbn [fst snd].
  pose proof (before_portal_frame dt platforms dim p) as F1.
  pose proof (before_enemies_frame dt now platforms portals collectibles dim p) as F2.
  set (p3 := before_enemies dt now platforms portals collectibles dim p) in *.
  pose proof (check_enemy_collisions_frame enemies p3) as F3.
  set (ee := check_enemy_collisions enemies p3) in *.
  pose proof (apply_enemy_hit_frame ee.2 ee.1.1) as F4.
  set (hh := apply_enemy_hit ee.2 ee.1.1) in *.
  pose proof (fall_out_frame hh.1.1) as F5.
  cbv zeta in *. destruct_and!. repeat split; congruence.
Qed.

(** A verdict of "player_death" leaves the actor as it was and is only
    given to an actor that is not invincible. *)
Lemma check_enemy_collisions_player_death enemies p :
  (check_enemy_collisions enemies p).2 = player_death ->
  (check_enemy_collisions enemies p).1.1 = p /\ is_invincible p = false.
Proof.
  induction enemies as [|e es IH]; simpl; [discriminate|].
  destruct (check_enemy_collisions es p) as [[p' es'] r]. cbn [fst snd] in *.
  destruct (e_is_dead e); [exact IH|].
  destruct (colliderect _ _); [|exact IH].
  destruct (colliderect _ _ && _); [discriminate|].
  destruct (is_invincible p) eqn:E; simpl; [exact IH | intros _; split; reflexivity].
Qed.

(** An enemy hit on an actor that is not invincible. *)
Lemma apply_enemy_hit_player_death p :
  is_invincible p = false ->
  let r := apply_enemy_hit player_death p in
  r.1.2 = true
  /\ lives r.1.1 = lives p - 1
  /\ is_dead r.1.1 = (lives p - 1 <=? 0)
  /\ invincible_timer r.1.1
     = (if lives p - 1 <=? 0 then invincible_timer p else PLAYER_INVINCIBILITY_AFTER_HIT)
  /\ y r.1.1 = y p.
Proof.
  intros Hinv. unfold apply_enemy_hit. rewrite Hinv.
  assert (Hpw : invincibility_powerup p = false).
  { unfold is_invincible in Hinv. apply orb_false_iff in Hinv. apply Hinv. }
  rewrite Hpw. cbn [negb andb].
  cbn [is_dead set_is_dead lives set_lives].
  destruct (lives p - 1 <=? 0); cbn; repeat split; reflexivity.
Qed.

Lemma apply_enemy_hit_other hit p :
  hit <> player_death -> (apply_enemy_hit hit p).1 = (p, false).
Proof. destruct hit; [congruence | reflexivity..]. Qed.

(** The fall-out test takes a life exactly when the actor is below the
    level, and writes nothing but [lives] and [is_dead]. *)
Lemma fall_out_spec p :
  let r := fall_out p in
  (r.2 = true /\ (inject_Z LEVEL_HEIGHT < y p)%Q
   /\ lives r.1 = lives p - 1 /\ is_dead r.1 = (lives p - 1 <=? 0))
  \/ (r.2 = false /\ (y p <= inject_Z LEVEL_HEIGHT)%Q /\ r.1 = p).
Proof.
  unfold fall_out. destruct (Qltb _ _) eqn:E.
  - left. apply Qltb_lt in E. repeat split; [exact E|reflexivity..].
  - right. apply Qltb_ge in E. repeat split. exact E.
Qed.

(** C4, as stated, fails on the fall-out path: the death is reported, a
    life is taken and two remain, but the hit-invincibility timer is not set.
    With an enemy in the way the same frame takes two lives for the one
    event. *)
Lemma C4_fall_out_grants_no_window :
  (let r := update 1 0 [] [] [] [] 1 actor_at_bottom in
   ev_player_death r.2 = true
   /\ lives r.1.1.1 = lives actor_at_bottom - 1
   /\ 0 < lives r.1.1.1
   /\ is_dead r.1.1.1 = false
   /\ ~ (0 < invincible_timer r.1.1.1)%Q)
  /\ (let r := update 1 0 [] [] [] [enemy_at 100 1000] 1 actor_at_bottom in
      ev_player_death r.2 = true
      /\ lives r.1.1.1 = lives actor_at_bottom - 2).
Proof.
  vm_compute. repeat split; try reflexivity. intros H. discriminate H.
Qed.

(** C4 (amended): when [update] reports a player death on a live actor, each
    cause that fired took exactly one life and the dead flag says whether
    lives remain.  Without a fall-out the cause is an enemy hit: one life is
    taken and, if lives remain, the hit-invincibility timer is set to its
    positive constant and the actor is not dead.  With a fall-out either one
    life is taken and the timer is not set by the death (it is the value
    the powerup step left), or an enemy hit came with it and two lives are
    taken. *)
Theorem C4_player_death_accounting (dt now : Q) (platforms : list Platform)
    (portals : list Portal) (collectibles : list Collectible) (enemies : list Enemy)
    (dim : Z) (p : Player.t) :
  is_dead p = false ->
  let r := update dt now platforms portals collectibles enemies dim p in
  let p' := r.1.1.1 in
  ev_player_death r.2 = true ->
  is_dead p' = (lives p' <=? 0)
  /\ ((y p' <= inject_Z LEVEL_HEIGHT)%Q ->
        lives p' = lives p - 1
        /\ (0 < lives p' ->
              invincible_timer p' = PLAYER_INVINCIBILITY_AFTER_HIT
              /\ (0 < invincible_timer p')%Q /\ is_dead p' = false))
  /\ ((inject_Z LEVEL_HEIGHT < y p')%Q ->
        (lives p' = lives p - 1
         /\ invincible_timer p' = invincible_timer (update_powerups dt p))
        \/ (lives p' = lives p - 2
            /\ (0 < lives p - 1 ->
                  invincible_timer p' = PLAYER_INVINCIBILITY_AFTER_HIT))).
Proof.
  intros Hlive r p'. subst r p'. rewrite update_live by exact Hlive. cbv zeta.
  cbn [fst snd ev_player_death].
  pose proof (before_portal_frame dt platforms dim p) as F1.
  pose proof (before_enemies_frame dt now platforms portals collectibles dim p) as F2.
  cbv zeta in F1, F2.
  set (p3 := before_enemies dt now platforms portals collectibles dim p) in *.
  assert (Hl3 : lives p3 = lives p) by (destruct_and!; congruence).
  assert (Hd3 : is_dead p3 = false) by (destruct_and!; congruence).
  assert (Hi3 : invincible_timer p3 = invincible_timer (update_powerups dt p))
    by (destruct_and!; congruence).
  clear F1 F2.
  pose proof (check_enemy_collisions_player_death enemies p3) as Hpd.
  pose proof (check_enemy_collisions_frame enemies p3) as F3. cbv zeta in F3.
  destruct (check_enemy_collisions enemies p3) as [[p4 es] hit]. cbn [fst snd] in *.
  assert (Hl4 : lives p4 = lives p) by (destruct_and!; congruence).
  assert (Hd4 : is_dead p4 = false) by (destruct_and!; congruence).
  assert (Hi4 : invincible_timer p4 = invincible_timer (update_powerups dt p))
    by (destruct_and!; congruence).
  clear F3.
  assert (Hcase : hit = player_death \/ hit <> player_death)
    by (destruct hit; [left; reflexivity | right; discriminate ..]).
  destruct Hcase as [-> | Hother].
  - destruct (Hpd eq_refl) as [-> Hinv]. clear Hpd.
    pose proof (apply_enemy_hit_player_death p3 Hinv) as Hh. cbv zeta in Hh.
    destruct (apply_enemy_hit player_death p3) as [[p5 de] ed]. cbn [fst snd] in *.
    destruct Hh as (-> & L5 & D5 & I5 & Y5). intros _.
    pose proof (fall_out_frame p5) as Ff. cbv zeta in Ff.
    destruct (fall_out_spec p5) as [(Hf & Hy & Lf & Df) | (Hf & Hy & Heq)].
    + destruct Ff as (If & _ & _ & _ & _ & _ & _ & _ & _ & _ & Yf).
      rewrite Yf, Lf, Df, If, I5, L5.
      split; [reflexivity|]. split.
      * intros Hle. exfalso. lra.
      * intros _. right. split; [lia|]. intros Hpos.
        destruct (lives p3 - 1 <=? 0) eqn:E; [apply Z.leb_le in E; lia | reflexivity].
    + rewrite Heq, D5, L5, I5.
      split; [reflexivity|]. split.
      * intros _. split; [lia|]. intros Hpos.
        destruct (lives p3 - 1 <=? 0) eqn:E; [apply Z.leb_le in E; lia|].
        repeat split; reflexivity.
      * intros Hgt. exfalso. lra.
  - clear Hpd. pose proof (apply_enemy_hit_other hit p4 Hother) as Hh.
    destruct (apply_enemy_hit hit p4) as [[p5 de] ed]. cbn [fst snd] in *.
    injection Hh as -> ->. cbn [orb].
    pose proof (fall_out_frame p4) as Ff. cbv zeta in Ff.
    destruct (fall_out_spec p4) as [(Hf & Hy & Lf & Df) | (Hf & Hy & Heq)].
    + intros _. destruct Ff as (If & _ & _ & _ & _ & _ & _ & _ & _ & _ & Yf).
      rewrite Yf, Lf, Df, If.
      split; [reflexivity|]. split.
      * intros Hle. exfalso. lra.
      * intros _. left. split; [lia | exact Hi4].
    + rewrite Hf. discriminate.
Qed.

Lemma C4_player_death_accounting_witness :
  let r := update 1 0 [] [] [] [enemy_at 100 300] 1 actor_beside_enemy in
  let p' := r.1.1.1 in
  is_dead p' = (lives p' <=? 0)
  /\ ((y p' <= inject_Z LEVEL_HEIGHT)%Q ->
        lives p' = lives actor_beside_enemy - 1
        /\ (0 < lives p' ->
              invincible_timer p' = PLAYER_INVINCIBILITY_AFTER_HIT
              /\ (0 < invincible_timer p')%Q /\ is_dead p' = false))
  /\ ((inject_Z LEVEL_HEIGHT < y p')%Q ->
        (lives p' = lives actor_beside_enemy - 1
         /\ invincible_timer p' = invincible_timer (update_powerups 1 actor_beside_enemy))
        \/ (lives p' = lives actor_beside_enemy - 2
            /\ (0 < lives actor_beside_enemy - 1 ->
                  invincible_timer p' = PLAYER_INVINCIBILITY_AFTER_HIT))).
Proof.
  apply (C4_player_death_accounting 1 0 [] [] [] [enemy_at 100 300] 1 actor_beside_enemy).
  - reflexivity.
  - vm_compute. reflexivity.
Defined.

End PlayerDeath.

(** ** The jump counter *)

Section Jumps.
Import Player.

(** What [update_powerups] leaves in the two dictionaries and in the limit. *)
Lemma update_powerups_timers dt p k :
  powerup_timers (update_powerups dt p) !! k
  = match powerup_timers p !! k with
    | Some t => if Qle_bool (t - dt) 0 then None else Some (t - dt)%Q
    | None => None
    end.
Proof.
  assert (powerup_timers (update_powerups dt p)
          = filter (λ kv : string * Q, Qle_bool kv.2 0 ≠ true)
              ((λ remaining, (remaining - dt)%Q) <$> powerup_timers p)) as ->.
  { unfold update_powerups. destruct (decide _); simpl;
      destruct (Qltb _ _); reflexivity. }
  rewrite map_lookup_filter, lookup_fmap.
  destruct (powerup_timers p !! k) as [t|]; simpl; [|reflexivity].
  destruct (Qle_bool (t - dt) 0) eqn:E; case_guard; simpl in *; congruence.
Qed.

Lemma expired_lookup dt (timers : gmap string Q) k :
  filter (λ kv : string * Q, Qle_bool kv.2 0 = true)
    ((λ remaining, (remaining - dt)%Q) <$> timers) !! k
  = match timers !! k with
    | Some t => if Qle_bool (t - dt) 0 then Some (t - dt)%Q else None
    | None => None
    end.
Proof.
  rewrite map_lookup_filter, lookup_fmap.
  destruct (timers !! k) as [t|]; simpl; [|reflexivity].
  destruct (Qle_bool (t - dt) 0) eqn:E; case_guard; simpl in *; congruence.
Qed.

Lemma update_powerups_active dt p k :
  active_powerups (update_powerups dt p) !! k
  = match powerup_timers p !! k with
    | Some t => if Qle_bool (t - dt) 0 then Some false else active_powerups p !! k
    | None => active_powerups p !! k
    end.
Proof.
  assert (active_powerups (update_powerups dt p)
          = ((λ _, false) <$> filter (λ kv : string * Q, Qle_bool kv.2 0 = true)
               ((λ remaining, (remaining - dt)%Q) <$> powerup_timers p))
            ∪ active_powerups p) as ->.
  { unfold update_powerups. destruct (decide _); simpl;
      destruct (Qltb _ _); reflexivity. }
  rewrite lookup_union, lookup_fmap, expired_lookup.
  destruct (powerup_timers p !! k) as [t|]; simpl.
  - destruct (Qle_bool (t - dt) 0); simpl;
      destruct (active_powerups p !! k); reflexivity.
  - destruct (active_powerups p !! k); reflexivity.
Qed.

Lemma update_powerups_max_jumps dt p :
  max_jumps (update_powerups dt p)
  = match powerup_timers p !! "jump" with
    | Some t => if Qle_bool (t - dt) 0 then 2 else max_jumps p
    | None => max_jumps p
    end.
Proof.
  unfold update_powerups.
  destruct (decide _) as [Hex|Hex]; rewrite expired_lookup in Hex; simpl;
    destruct (Qltb _ _); simpl;
    destruct (powerup_timers p !! "jump") as [t|];
    try destruct (Qle_bool (t - dt) 0); try reflexivity;
    try (destruct Hex; discriminate); exfalso; apply Hex; eauto.
Qed.


Lemma jump_spec p :
  ((jump p).2 = true <-> jump_count p < max_jumps p)
  /\ ((jump p).2 = true ->
        jump_count (jump p).1 = jump_count p + 1
        /\ on_ground (jump p).1 = false
        /\ max_jumps (jump p).1 = max_jumps p
        /\ active_powerups (jump p).1 = active_powerups p
        /\ powerup_timers (jump p).1 = powerup_timers p)
  /\ ((jump p).2 = false -> (jump p).1 = p).
Proof.
  unfold jump. destruct (jump_count p <? max_jumps p) eqn:E; cbn [fst snd].
  - apply Z.ltb_lt in E. split; [tauto|]. split; [|discriminate].
    intros _. repeat split; reflexivity.
  - apply Z.ltb_ge in E. split; [split; [discriminate | lia]|].
    split; [discriminate | reflexivity].
Qed.

(** Platform resolution either lands, which sets the ground flag and
    clears the counter, or leaves the counter alone with the flag cleared. *)
Lemma check_platform_collisions_landing platforms dim p :
  let q := check_platform_collisions platforms dim p in
  (on_ground q = true /\ jump_count q = 0)
  \/ (on_ground q = false /\ jump_count q = jump_count p).
Proof.
  unfold check_platform_collisions.
  apply (resolve_fold_inv (λ s,
    (on_ground s = true /\ jump_count s = 0)
    \/ (on_ground s = false /\ jump_count s = jump_count p))).
  - intros s P _ Hs. resolve_cases; tauto.
  - right. split; reflexivity.
Qed.

Lemma update_landing dt now platforms portals collectibles enemies dim p :
  is_dead p = false ->
  let q := (update dt now platforms portals collectibles enemies dim p).1.1.1 in
  (on_ground q = true /\ jump_count q = 0)
  \/ (on_ground q = false /\ jump_count q = jump_count p).
Proof.
  intros Hlive q.
  destruct (update_final_state dt now platforms portals collectibles enemies dim p Hlive)
    as (_ & _ & Hg & Hc & _). fold q in Hg, Hc. rewrite Hg, Hc.
  unfold after_collisions.
  set (p2 := _update_collision_rects (_update_animation dt (integrate dt p))).
  assert (Hj : jump_count p2 = jump_count p).
  { pose proof (integrate_frame dt p) as F0.
    pose proof (_update_animation_frame dt (integrate dt p)) as F1.
    pose proof (_update_collision_rects_frame (_update_animation dt (integrate dt p))) as F2.
    cbv zeta in *. destruct_and!. unfold p2. congruence. }
  rewrite <- Hj. apply check_platform_collisions_landing.
Qed.

Lemma add_powerup_limit powerup_type duration p :
  jump_limit_inv p -> jump_limit_inv (add_powerup powerup_type duration p).
Proof.
  unfold jump_limit_inv, jump_powerup_active, add_powerup.
  intros Hinv.
  destruct (decide (powerup_type = "jump")) as [->|Hne].
  - left. destruct (powerup_timers p !! "jump") eqn:E; cbn; rewrite E; cbn;
      rewrite !lookup_insert_eq; eauto.
  - destruct (powerup_timers p !! powerup_type) eqn:E; cbn; rewrite E; cbn;
      rewrite !lookup_insert_ne by exact Hne; exact Hinv.
Qed.

Lemma update_powerups_limit dt p :
  jump_limit_inv p -> jump_limit_inv (update_powerups dt p).
Proof.
  unfold jump_limit_inv, jump_powerup_active.
  rewrite update_powerups_max_jumps, update_powerups_active, update_powerups_timers.
  intros [(Ha & [t Ht] & Hm) | (Ha & Ht & Hm)]; rewrite Ht.
  - destruct (Qle_bool (t - dt) 0).
    + right. repeat split; congruence.
    + left. repeat split; eauto.
  - right. repeat split; assumption.
Qed.


Lemma jump_limit_inv_congr p q :
  active_powerups q = active_powerups p -> powerup_timers q = powerup_timers p ->
  max_jumps q = max_jumps p -> jump_limit_inv p -> jump_limit_inv q.
Proof.
  unfold jump_limit_inv, jump_powerup_active. intros -> -> ->. tauto.
Qed.

Lemma stop_horizontal_movement_frame p :
  let q := stop_horizontal_movement p in
  on_ground q = on_ground p /\ jump_count q = jump_count p
  /\ max_jumps q = max_jumps p /\ active_powerups q = active_powerups p
  /\ powerup_timers q = powerup_timers p.
Proof.
  unfold stop_horizontal_movement. cbn [on_ground set_velocity_x].
  destruct (on_ground p) eqn:E; repeat split; try reflexivity; exact E.
Qed.

Lemma add_powerup_frame powerup_type duration p :
  let q := add_powerup powerup_type duration p in
  on_ground q = on_ground p /\ jump_count q = jump_count p.
Proof.
  unfold add_powerup.
  destruct (powerup_timers _ !! _); destruct (decide _); split; reflexivity.
Qed.

Lemma step_jump_inv p a : jump_inv p -> jump_inv (step p a).
Proof.
  intros (Hc & Hl & Hg). destruct a; cbn [step].
  - destruct (jump_spec p) as (Hiff & Hok & Hno).
    destruct (jump p).2 eqn:E.
    + destruct (Hok eq_refl) as (Hc' & Hg' & Hm' & Ha' & Ht').
      assert (max_jumps p <= 3) by (destruct Hl as [(_&_&->)|(_&_&->)]; lia).
      pose proof (proj1 Hiff eq_refl) as Hlt. repeat split; try lia.
      * eapply jump_limit_inv_congr; eauto.
      * congruence.
    + rewrite (Hno eq_refl). repeat split; tauto || lia.
  - repeat split; try exact Hl; try exact Hg; apply Hc.
  - repeat split; try exact Hl; try exact Hg; apply Hc.
  - destruct (stop_horizontal_movement_frame p) as (Eg & Ec & Em & Ea & Et).
    split; [rewrite Ec; exact Hc|]. split.
    + eapply jump_limit_inv_congr; eauto.
    + rewrite Eg, Ec. exact Hg.
  - destruct (add_powerup_frame powerup_type duration p) as (Eg & Ec).
    split; [rewrite Ec; exact Hc|]. split.
    + apply add_powerup_limit, Hl.
    + rewrite Eg, Ec. exact Hg.
  - destruct (is_dead p) eqn:Hlive.
    { unfold update. rewrite Hlive. repeat split; tauto || lia. }
    destruct (update_final_state dt now platforms portals collectibles enemies
                current_dimension p Hlive) as (_ & _ & _ & _ & Hm & Ht & Ha & _).
    pose proof (update_landing dt now platforms portals collectibles enemies
                  current_dimension p Hlive) as Hland. cbv zeta in Hland.
    split; [|split].
    + destruct Hland as [(_ & ->) | (_ & ->)]; lia.
    + eapply jump_limit_inv_congr; [exact Ha | exact Ht | exact Hm |].
      apply update_powerups_limit, Hl.
    + intros Hon. destruct Hland as [(_ & E) | (E & _)]; congruence.
Qed.

Lemma reset_jump_inv x0 y0 now : jump_inv (reset x0 y0 now).
Proof.
  split; [cbn; lia|]. split.
  - right. split; [|split; reflexivity]. unfold jump_powerup_active. cbn.
    rewrite lookup_empty. discriminate.
  - intros _. reflexivity.
Qed.

Lemma run_jump_inv actions p : jump_inv p -> jump_inv (run actions p).
Proof.
  revert p. induction actions as [|a actions IH]; intros p Hp; [exact Hp|].
  apply IH, step_jump_inv, Hp.
Qed.

(** C5, as stated, fails: a triple jump followed by the expiry of the jump
    powerup leaves the counter at 3 above a limit of 2. *)
Lemma C5_counter_above_limit :
  let p := run (AddPowerup "jump" 15 :: Jump :: Jump :: Jump :: airborne_frames)
               (reset 100 300 0) in
  jump_count p = 3 /\ max_jumps p = 2 /\ ~ (jump_count p <= max_jumps p).
Proof. vm_compute. repeat split; try reflexivity. intros H. apply H. reflexivity. Qed.

(** C5 (amended): [jump] succeeds exactly when the counter is below the
    limit; a success adds one to the counter and clears the ground flag, a
    failure changes nothing.  Along every sequence of calls from a reset the
    counter stays within 0..3, the limit is 3 while the jump powerup is
    active and 2 otherwise, and an actor on the ground has a counter of 0.
    The counter can exceed the limit only through a step that lowers the
    limit (the expiry of the jump powerup): every other step keeps it at or
    below the limit.  The counter changes only by a successful jump (plus
    one) or by an update that ends on the ground (to zero), and an update of
    a live actor that ends on the ground always leaves it at zero. *)
Theorem C5_jump_counter :
  (forall p, (jump p).2 = true <-> jump_count p < max_jumps p)
  /\ (forall p, (jump p).2 = true ->
        jump_count (jump p).1 = jump_count p + 1 /\ on_ground (jump p).1 = false)
  /\ (forall p, (jump p).2 = false -> (jump p).1 = p)
  /\ (forall x0 y0 now actions, jump_inv (run actions (reset x0 y0 now)))
  /\ (forall p a, jump_inv p -> jump_count p <= max_jumps p ->
        max_jumps p <= max_jumps (step p a) ->
        jump_count (step p a) <= max_jumps (step p a))
  /\ (forall p a, jump_count (step p a) <> jump_count p ->
        (a = Jump /\ jump_count (step p a) = jump_count p + 1)
        \/ ((exists dt now pl po co en dim, a = Update dt now pl po co en dim)
            /\ on_ground (step p a) = true /\ jump_count (step p a) = 0))
  /\ (forall p dt now pl po co en dim, is_dead p = false ->
        on_ground (step p (Update dt now pl po co en dim)) = true ->
        jump_count (step p (Update dt now pl po co en dim)) = 0).
Proof.
  split; [intros p; apply jump_spec|].
  split; [intros p H; destruct (jump_spec p) as (_ & Hok & _);
          destruct (Hok H) as (? & ? & _); tauto|].
  split; [intros p; apply jump_spec|].
  split; [intros; apply run_jump_inv, reset_jump_inv|].
  split; [|split].
  - intros p a Hinv Hle Hmax.
    pose proof (step_jump_inv p a Hinv) as (Hc' & _ & _).
    destruct a; cbn [step] in *.
    + destruct (jump_spec p) as (Hiff & Hok & Hno).
      destruct (jump p).2 eqn:E.
      * pose proof (proj1 Hiff eq_refl) as Hlt.
        destruct (Hok eq_refl) as (-> & _ & -> & _). lia.
      * rewrite (Hno eq_refl). exact Hle.
    + exact Hle.
    + exact Hle.
    + destruct (stop_horizontal_movement_frame p) as (_ & -> & -> & _). exact Hle.
    + destruct (add_powerup_frame powerup_type duration p) as (_ & ->). lia.
    + destruct (is_dead p) eqn:Hlive.
      { revert Hmax. unfold update. rewrite Hlive. intros _. exact Hle. }
      pose proof (update_landing dt now platforms portals collectibles enemies
                    current_dimension p Hlive) as Hland. cbv zeta in Hland.
      destruct Hinv as (Hc & _). destruct Hland as [(_ & E) | (_ & E)]; rewrite E; lia.
  - intros p a Hne. destruct a; cbn [step] in *.
    + left. split; [reflexivity|].
      destruct (jump_spec p) as (_ & Hok & Hno).
      destruct (jump p).2 eqn:E.
      * apply Hok. reflexivity.
      * rewrite (Hno eq_refl) in Hne. congruence.
    + exfalso. apply Hne. reflexivity.
    + exfalso. apply Hne. reflexivity.
    + exfalso. apply Hne. apply stop_horizontal_movement_frame.
    + exfalso. apply Hne. apply add_powerup_frame.
    + right. split; [eauto 10|].
      destruct (is_dead p) eqn:Hlive.
      { exfalso. apply Hne. unfold update. rewrite Hlive. reflexivity. }
      pose proof (update_landing dt now platforms portals collectibles enemies
                    current_dimension p Hlive) as Hland. cbv zeta in Hland.
      destruct Hland as [(? & ?) | (_ & E)]; [tauto | congruence].
  - intros p dt now pl po co en dim Hlive Hon. cbn [step] in *.
    pose proof (update_landing dt now pl po co en dim p Hlive) as Hland.
    cbv zeta in Hland. destruct Hland as [(_ & E) | (E & _)]; congruence.
Qed.

Lemma C5_jump_counter_witness :
  ((jump actor_with_jump_powerup).2 = true
   /\ jump_count (jump actor_with_jump_powerup).1 = 1
   /\ on_ground (jump actor_with_jump_powerup).1 = false)
  /\ jump_inv (run (Jump :: Jump :: Jump :: Jump :: airborne_frames)
                   (reset 100 300 0)).
Proof.
  destruct C5_jump_counter as (Hiff & Hok & _ & Hinv & _).
  assert (Hjump : (jump actor_with_jump_powerup).2 = true).
  { apply Hiff. vm_compute. reflexivity. }
  split.
  - split; [exact Hjump|]. destruct (Hok _ Hjump) as (Hc & Hg).
    split; [exact Hc | exact Hg].
  - apply Hinv.
Defined.

End Jumps.

(** ** Platform resolution *)

Section Platforms.
Import Player.

(** C2: the horizontal branch puts the actor on the far side.  The actor
    overlaps the left end of the platform by 5 units horizontally and 20
    vertically while moving up, so the ground-probe rule does not apply and
    the hit is horizontal; its centre (285) is left of the platform's centre
    (400).  The code moves its left edge to 499, one unit inside the
    platform's right edge, instead of keeping it at the platform's left
    edge, where its right edge would come to rest. *)
Theorem C2_side_hit_crosses_platform :
  let platform_rect := GameObject_get_rect (pobj tutorial_platform) in
  let player_rect := get_rect rising_actor in
  let q := check_platform_collisions [tutorial_platform] 1 rising_actor in
  colliderect player_rect platform_rect = true
  /\ Qle_bool 0 (velocity_y rising_actor) = false
  /\ Z.min (right player_rect) (right platform_rect)
     - Z.max (left player_rect) (left platform_rect) = 5
  /\ Z.min (bottom player_rect) (bottom platform_rect)
     - Z.max (top player_rect) (top platform_rect) = 20
  /\ centerx player_rect = 285 /\ centerx platform_rect = 400
  /\ check_collision player_rect platform_rect = Right
  /\ x q = inject_Z (right platform_rect - 1)
  /\ x q = 499%Q
  /\ left (get_rect q) > left platform_rect.
Proof. vm_compute. repeat split; reflexivity. Qed.

(** What one platform does to the actor when the ground-probe rule does not
    apply: the side test on the rectangles, and the assignment of its
    branch. *)
Lemma resolve_platform_sides pr br dim s P :
  visible_in dim P = true ->
  colliderect pr (GameObject_get_rect (pobj P)) = true ->
  colliderect br (GameObject_get_rect (pobj P)) && Qle_bool 0 (velocity_y s) = false ->
  let r := GameObject_get_rect (pobj P) in
  let overlap_x := Z.min (right pr) (right r) - Z.max (left pr) (left r) in
  let overlap_y := Z.min (bottom pr) (bottom r) - Z.max (top pr) (top r) in
  let s' := resolve_platform pr br dim s P in
  (overlap_y <= overlap_x -> centery pr < centery r -> s' = land_on r s)
  /\ (overlap_y <= overlap_x -> centery r <= centery pr ->
        y s' = inject_Z (bottom r) /\ velocity_y s' = 0%Q /\ x s' = x s)
  /\ (overlap_x < overlap_y -> centerx pr < centerx r ->
        x s' = inject_Z (right r - 1) /\ velocity_x s' = 0%Q /\ y s' = y s)
  /\ (overlap_x < overlap_y -> centerx r <= centerx pr ->
        x s' = inject_Z (left r - width s + 1) /\ velocity_x s' = 0%Q /\ y s' = y s).
Proof.
  intros Hvis Hcol Hprobe. cbv zeta.
  unfold resolve_platform, check_collision.
  rewrite Hvis, Hcol, Hprobe. cbn [negb].
  set (r := GameObject_get_rect (pobj P)).
  set (overlap_x := Z.min (right pr) (right r) - Z.max (left pr) (left r)).
  set (overlap_y := Z.min (bottom pr) (bottom r) - Z.max (top pr) (top r)).
  destruct (overlap_x >=? overlap_y) eqn:Ho;
    [apply Z.geb_le in Ho | rewrite Z.geb_leb in Ho; apply Z.leb_gt in Ho].
  - destruct (centery pr <? centery r) eqn:Hc;
      [apply Z.ltb_lt in Hc | apply Z.ltb_ge in Hc];
      repeat split; intros; try lia; reflexivity.
  - destruct (centerx pr <? centerx r) eqn:Hc;
      [apply Z.ltb_lt in Hc | apply Z.ltb_ge in Hc];
      repeat split; intros; try lia; reflexivity.
Qed.

(** C3, as stated, fails.  With two ledges under its feet both are resolved
    by the ground probe, the second write wins, and the actor ends 5 units
    inside the first ledge.  And a single platform hit from the side while
    the actor stands still keeps one unit of overlap. *)
Lemma C3_earlier_platform_still_overlapped :
  (let q := check_platform_collisions [lower_ledge; upper_ledge] 1 standing_actor in
   Qle_bool 0 (velocity_y standing_actor) = true
   /\ visible_in 1 lower_ledge = true
   /\ colliderect (get_rect q) (GameObject_get_rect (pobj lower_ledge)) = true)
  /\ (let q := check_platform_collisions [wall] 1 actor_at_wall in
      Qle_bool 0 (velocity_y actor_at_wall) = true
      /\ visible_in 1 wall = true
      /\ colliderect (get_rect q) (GameObject_get_rect (pobj wall)) = true).
Proof. vm_compute. repeat split; reflexivity. Qed.

Lemma resolve_skipped pr br dim (after : list Platform) s :
  Forall (λ P', visible_in dim P' && colliderect pr (GameObject_get_rect (pobj P')) = false)
         after ->
  fold_left (resolve_platform pr br dim) after s = s.
Proof.
  induction 1 as [|P' after HP' _ IH]; simpl; [reflexivity|].
  rewrite <- IH at 2. f_equal. unfold resolve_platform.
  destruct (visible_in dim P'); simpl in *; [rewrite HP'|]; reflexivity.
Qed.

Lemma resolve_keeps_falling pr br dim platforms s :
  (0 <= velocity_y s)%Q ->
  let s' := fold_left (resolve_platform pr br dim) platforms s in
  (0 <= velocity_y s')%Q /\ height s' = height s /\ width s' = width s.
Proof.
  intros Hv.
  apply (resolve_fold_inv (λ s',
    (0 <= velocity_y s')%Q /\ height s' = height s /\ width s' = width s)).
  - intros s' P _ (Hv' & Hh & Hw). resolve_cases; repeat split; try assumption; lra.
  - repeat split. exact Hv.
Qed.

(** After a landing the actor stands on the platform: its rectangle ends
    where the platform's begins. *)
Lemma land_on_separates (r : Rect) s :
  0 <= height s -> 0 <= rh r -> colliderect (get_rect (land_on r s)) r = false.
Proof.
  intros Hh Hr. unfold colliderect, get_rect, land_on. cbn.
  rewrite trunc_inject_Z.
  destruct (_ || _); [reflexivity|].
  apply andb_false_iff. right. apply Z.ltb_ge. lia.
Qed.

(** After a head bump the actor hangs below the platform. *)
Lemma head_bump_separates (r : Rect) s :
  0 <= height s -> 0 <= rh r ->
  colliderect (get_rect (set_velocity_y 0 (set_y (inject_Z (ry r + rh r)) s))) r = false.
Proof.
  intros Hh Hr. unfold colliderect, get_rect. cbn.
  rewrite trunc_inject_Z.
  destruct (_ || _); [reflexivity|].
  apply andb_false_iff. left. apply andb_false_iff. left.
  apply andb_false_iff. right. apply Z.ltb_ge. lia.
Qed.

(** C3 (amended): let P be the last platform of the registry that is visible
    and overlaps the actor's rectangle at entry.  If the actor does not move
    up at entry and P is resolved vertically (the ground probe overlaps P,
    or the side test answers bottom or top), then after the whole resolution
    the actor's rectangle does not overlap P's; when the ground probe
    overlaps P the actor is on the ground, standing on P's top. *)
Theorem C3_last_vertical_resolution_separates (before after : list Platform)
    (P : Platform) (dim : Z) (p : Player.t) :
  (0 <= velocity_y p)%Q ->
  0 <= height p ->
  0 <= rh (GameObject_get_rect (pobj P)) ->
  visible_in dim P = true ->
  colliderect (get_rect p) (GameObject_get_rect (pobj P)) = true ->
  (colliderect (ground_probe p) (GameObject_get_rect (pobj P)) = true
   \/ check_collision (get_rect p) (GameObject_get_rect (pobj P)) = Bottom
   \/ check_collision (get_rect p) (GameObject_get_rect (pobj P)) = Top) ->
  Forall (λ P', visible_in dim P'
                && colliderect (get_rect p) (GameObject_get_rect (pobj P')) = false)
         after ->
  let q := check_platform_collisions (before ++ P :: after) dim p in
  colliderect (get_rect q) (GameObject_get_rect (pobj P)) = false
  /\ (colliderect (ground_probe p) (GameObject_get_rect (pobj P)) = true ->
        on_ground q = true
        /\ bottom (get_rect q) = top (GameObject_get_rect (pobj P))).
Proof.
  intros Hv Hh Hr Hvis Hcol Hvert Hafter q. subst q.
  unfold check_platform_collisions.
  change (get_rect (set_on_ground false p)) with (get_rect p).
  change (ground_probe (set_on_ground false p)) with (ground_probe p).
  rewrite fold_left_app. simpl fold_left.
  rewrite (resolve_skipped _ _ _ after _ Hafter).
  destruct (resolve_keeps_falling (get_rect p) (ground_probe p) dim before
              (set_on_ground false p) Hv) as (Hv' & Hh' & _).
  set (s := fold_left _ before _) in *.
  change (height (set_on_ground false p)) with (height p) in Hh'.
  rewrite <- Hh' in Hh. apply Qle_bool_iff in Hv'.
  unfold resolve_platform. rewrite Hvis, Hcol, Hv'. cbn [negb].
  destruct (colliderect (ground_probe p) _) eqn:Hprobe; cbn [andb].
  - split; [apply land_on_separates; assumption|].
    intros _. split; [reflexivity|].
    unfold bottom, top, get_rect, land_on. cbn. rewrite trunc_inject_Z. lia.
  - split; [|discriminate].
    destruct Hvert as [Hc | [-> | ->]]; [discriminate | |].
    + apply land_on_separates; assumption.
    + apply head_bump_separates; assumption.
Qed.

Lemma C3_last_vertical_resolution_separates_witness :
  let q := check_platform_collisions ([lower_ledge] ++ upper_ledge :: []) 1 standing_actor in
  colliderect (get_rect q) (GameObject_get_rect (pobj upper_ledge)) = false
  /\ (colliderect (ground_probe standing_actor) (GameObject_get_rect (pobj upper_ledge))
      = true ->
        on_ground q = true
        /\ bottom (get_rect q) = top (GameObject_get_rect (pobj upper_ledge))).
Proof.
  apply (C3_last_vertical_resolution_separates [lower_ledge] [] upper_ledge 1
           standing_actor);
    try (vm_compute; (reflexivity || discriminate)).
  - left. vm_compute. reflexivity.
  - constructor.
Defined.

End Platforms.

(** ** The portal cooldown *)

Section PortalCooldown.
Import Player.

Lemma _check_portal_collision_spec now portals p :
  let r := _check_portal_collision now portals p in
  ((now - last_portal_time p < 1)%Q -> r = (p, false))
  /\ ((1 <= now - last_portal_time p)%Q ->
        r.2 = existsb (touches_portal p) portals)
  /\ last_portal_time r.1 = (if r.2 then now else last_portal_time p).
Proof.
  unfold _check_portal_collision.
  destruct (Qltb _ _) eqn:E.
  - apply Qltb_lt in E. repeat split; try reflexivity. intros H. lra.
  - apply Qltb_ge in E. destruct (existsb _ _); repeat split; try reflexivity;
      intros H; lra.
Qed.

Lemma before_enemies_portal_time dt now platforms portals collectibles dim p :
  last_portal_time (before_enemies dt now platforms portals collectibles dim p)
  = last_portal_time
      (_check_portal_collision now portals (before_portal dt platforms dim p)).1.
Proof.
  unfold before_enemies. cbv zeta.
  destruct (_check_portal_collision _ _ _) as [q b]. cbn [fst snd].
  destruct b; destruct (check_collectible_collisions _ _).2; reflexivity.
Qed.

(** What [update] does to the cooldown and when it reports the portal. *)
Lemma update_portal dt now platforms portals collectibles enemies dim p :
  is_dead p = false ->
  let r := update dt now platforms portals collectibles enemies dim p in
  ev_level_complete r.2
  = (_check_portal_collision now portals (before_portal dt platforms dim p)).2
  /\ last_portal_time r.1.1.1
     = (if ev_level_complete r.2 then now else last_portal_time p).
Proof.
  intros Hlive. rewrite update_live by exact Hlive. cbv zeta.
  cbn [fst snd ev_level_complete]. split; [reflexivity|].
  pose proof (before_portal_frame dt platforms dim p) as F1.
  pose proof (before_enemies_portal_time dt now platforms portals collectibles dim p) as F2.
  set (p3 := before_enemies dt now platforms portals collectibles dim p) in *.
  pose proof (check_enemy_collisions_frame enemies p3) as F3.
  set (ee := check_enemy_collisions enemies p3) in *.
  pose proof (apply_enemy_hit_frame ee.2 ee.1.1) as F4.
  set (hh := apply_enemy_hit ee.2 ee.1.1) in *.
  pose proof (fall_out_frame hh.1.1) as F5.
  destruct (_check_portal_collision_spec now portals (before_portal dt platforms dim p))
    as (_ & _ & F6).
  cbv zeta in *. destruct_and!.
  destruct (_check_portal_collision now portals _).2; congruence.
Qed.

Lemma step_portal_time p a :
  last_portal_time (step p a) = last_trigger (last_portal_time p) p [a].
Proof.
  destruct a; cbn [step last_trigger]; try reflexivity.
  - unfold jump. destruct (_ <? _); reflexivity.
  - unfold stop_horizontal_movement. cbn [on_ground set_velocity_x].
    destruct (on_ground p); reflexivity.
  - unfold add_powerup.
    destruct (powerup_timers _ !! _); destruct (decide _); reflexivity.
  - destruct (is_dead p) eqn:Hlive.
    + unfold update. rewrite Hlive. reflexivity.
    + apply update_portal, Hlive.
Qed.

Lemma run_portal_time actions p :
  last_portal_time (run actions p) = last_trigger (last_portal_time p) p actions.
Proof.
  revert p. induction actions as [|a actions IH]; intros p; [reflexivity|].
  cbn [run fold_left last_trigger]. fold (run actions (step p a)).
  rewrite IH, step_portal_time. reflexivity.
Qed.

(** End-to-end scenario 4: the portal fires at 1.0, not at 1.5, and again
    at 2.2. *)
Example portal_scenario :
  let frame now p := update 0 now [] [tutorial_portal] [] [] 1 p in
  let r1 := frame 1%Q actor_in_portal in
  let r2 := frame 1.5%Q r1.1.1.1 in
  let r3 := frame 2.2%Q r2.1.1.1 in
  (ev_level_complete r1.2, ev_level_complete r2.2, ev_level_complete r3.2)
  = (true, false, true).
Proof. vm_compute. reflexivity. Qed.

(** C9: the cooldown slot of the actor is at every moment the time of the
    most recent portal trigger, or of the reset if there was none.  An
    update that reads a time less than one second after it reports no
    "level_complete"; an update of a live actor that reads a time at least
    one second after it, while the actor touches a portal, reports
    "level_complete" and restarts the cooldown at that time. *)
Theorem C9_portal_cooldown :
  (forall x0 y0 t0 actions,
     last_portal_time (run actions (reset x0 y0 t0))
     = last_trigger t0 (reset x0 y0 t0) actions)
  /\ (forall dt now platforms portals collectibles enemies dim p,
        (now - last_portal_time p < 1)%Q ->
        let r := update dt now platforms portals collectibles enemies dim p in
        ev_level_complete r.2 = false
        /\ last_portal_time r.1.1.1 = last_portal_time p)
  /\ (forall dt now platforms portals collectibles enemies dim p,
        is_dead p = false ->
        (1 <= now - last_portal_time p)%Q ->
        existsb (touches_portal (before_portal dt platforms dim p)) portals = true ->
        let r := update dt now platforms portals collectibles enemies dim p in
        ev_level_complete r.2 = true
        /\ last_portal_time r.1.1.1 = now).
Proof.
  split; [|split].
  - intros. apply (run_portal_time actions (reset x0 y0 t0)).
  - intros dt now platforms portals collectibles enemies dim p Hcool r. subst r.
    destruct (is_dead p) eqn:Hlive.
    { unfold update. rewrite Hlive. split; reflexivity. }
    destruct (update_portal dt now platforms portals collectibles enemies dim p Hlive)
      as (Hev & Ht). cbv zeta in Hev, Ht.
    destruct (_check_portal_collision_spec now portals (before_portal dt platforms dim p))
      as (Hno & _ & _).
    destruct (before_portal_frame dt platforms dim p) as (_ & _ & Hlp & _).
    rewrite Hlp in Hno. rewrite (Hno Hcool) in Hev. cbn [snd] in Hev.
    rewrite Hev in Ht. split; assumption.
  - intros dt now platforms portals collectibles enemies dim p Hlive Hcool Htouch r.
    subst r.
    destruct (update_portal dt now platforms portals collectibles enemies dim p Hlive)
      as (Hev & Ht). cbv zeta in Hev, Ht.
    destruct (_check_portal_collision_spec now portals (before_portal dt platforms dim p))
      as (_ & Hyes & _).
    destruct (before_portal_frame dt platforms dim p) as (_ & _ & Hlp & _).
    rewrite Hlp in Hyes. rewrite (Hyes Hcool), Htouch in Hev.
    rewrite Hev in Ht. split; assumption.
Qed.

Lemma C9_portal_cooldown_witness :
  last_portal_time (run [Update 0 1 [] [tutorial_portal] [] [] 1] actor_in_portal)
  = last_trigger 0 actor_in_portal [Update 0 1 [] [tutorial_portal] [] [] 1]
  /\ ev_level_complete (update 0 0.5%Q [] [tutorial_portal] [] [] 1 actor_in_portal).2 = false
  /\ ev_level_complete (update 0 1.2%Q [] [tutorial_portal] [] [] 1 actor_in_portal).2 = true.
Proof.
  destruct C9_portal_cooldown as (Hrun & Hno & Hyes).
  split; [apply (Hrun 750%Q 190%Q 0%Q)|]. split.
  - apply (Hno 0%Q 0.5%Q [] [tutorial_portal] [] [] 1 actor_in_portal).
    vm_compute. reflexivity.
  - apply (Hyes 0%Q 1.2%Q [] [tutorial_portal] [] [] 1 actor_in_portal);
      vm_compute; (reflexivity || discriminate).
Defined.

End PortalCooldown.

(** ** The horizontal bounds *)

Section Bounds.
Import Player.

(** C10: the clamp does not keep the actor inside the world.  An actor that
    overlaps the right end of the floor is clamped to x = 1275, and the
    resolution of the side hit, which runs after the clamp and writes the
    position unclamped, puts it at x = -39, left of the world. *)
Lemma C10_side_resolution_leaves_bounds :
  let q := (update 1 0 [floor] [] [] [] 1 actor_beside_floor).1.1.1 in
  is_dead actor_beside_floor = false
  /\ (x (integrate 1 actor_beside_floor) == 1275)%Q
  /\ x q = (-39)%Q
  /\ ~ (0 <= x q)%Q.
Proof.
  vm_compute. repeat split; try reflexivity. intros H. apply H. reflexivity.
Qed.

Lemma clamp_bounds (v hi : Q) :
  (0 <= hi)%Q -> (0 <= pymax 0 (pymin v hi) <= hi)%Q.
Proof.
  intros Hhi. unfold pymax, pymin.
  destruct (Qltb hi v) eqn:E1.
  - destruct (Qltb 0 hi) eqn:E2; [lra|]. apply Qltb_ge in E2. lra.
  - apply Qltb_ge in E1. destruct (Qltb 0 v) eqn:E2.
    + apply Qltb_lt in E2. lra.
    + lra.
Qed.

Lemma integrate_clamps dt p :
  width p <= LEVEL_WIDTH ->
  (0 <= x (integrate dt p) <= inject_Z (LEVEL_WIDTH - width p))%Q.
Proof.
  intros Hw. unfold integrate.
  destruct (on_ground p); cbn [x set_x width set_y set_velocity_y set_last_safe_position];
    apply clamp_bounds; change 0%Q with (inject_Z 0); rewrite <- Zle_Qle; lia.
Qed.

(** The horizontal position after platform resolution is the one it was
    given unless a visible platform that overlaps the actor was hit from
    the side. *)
Lemma check_platform_collisions_x platforms dim p :
  let q := check_platform_collisions platforms dim p in
  x q = x p
  \/ exists P, P ∈ platforms /\ visible_in dim P = true
       /\ colliderect (get_rect p) (GameObject_get_rect (pobj P)) = true
       /\ (check_collision (get_rect p) (GameObject_get_rect (pobj P)) = Left
           \/ check_collision (get_rect p) (GameObject_get_rect (pobj P)) = Right).
Proof.
  unfold check_platform_collisions.
  change (get_rect (set_on_ground false p)) with (get_rect p).
  apply (resolve_fold_inv (λ s,
    x s = x p
    \/ exists P, P ∈ platforms /\ visible_in dim P = true
         /\ colliderect (get_rect p) (GameObject_get_rect (pobj P)) = true
         /\ (check_collision (get_rect p) (GameObject_get_rect (pobj P)) = Left
             \/ check_collision (get_rect p) (GameObject_get_rect (pobj P)) = Right))).
  - intros s P HP Hx. unfold resolve_platform.
    destruct (visible_in dim P) eqn:Hvis; cbn [negb]; [|exact Hx].
    destruct (colliderect (get_rect p) _) eqn:Hcol; cbn [negb]; [|exact Hx].
    destruct (_ && _); [exact Hx|].
    destruct (check_collision _ _) eqn:Hside; try exact Hx.
    + right. exists P. tauto.
    + right. exists P. tauto.
  - left. reflexivity.
Qed.

(** On a live actor the clamp bounds the integrated horizontal position,
    whatever the velocity and dt.  At the end of [update] the position is
    still the clamped one, and so within the bounds, unless the side test
    answers left or right for some visible platform that overlaps the
    integrated actor: only the left and right branches of the platform
    resolution write the position after the clamp.  (The side test may give
    that answer for a platform that the ground probe then lands on.) *)
Lemma update_keeps_clamp_without_side_hit (dt now : Q) (platforms : list Platform)
    (portals : list Portal) (collectibles : list Collectible) (enemies : list Enemy)
    (dim : Z) (p : Player.t) :
  is_dead p = false -> width p <= LEVEL_WIDTH ->
  let q := (update dt now platforms portals collectibles enemies dim p).1.1.1 in
  let entry := get_rect (integrate dt p) in
  (0 <= x (integrate dt p) <= inject_Z (LEVEL_WIDTH - width p))%Q
  /\ ((0 <= x q <= inject_Z (LEVEL_WIDTH - width q))%Q
      \/ exists P, P ∈ platforms /\ visible_in dim P = true
           /\ colliderect entry (GameObject_get_rect (pobj P)) = true
           /\ (check_collision entry (GameObject_get_rect (pobj P)) = Left
               \/ check_collision entry (GameObject_get_rect (pobj P)) = Right)).
Proof.
  intros Hlive Hw q entry.
  pose proof (integrate_clamps dt p Hw) as Hclamp.
  split; [exact Hclamp|].
  destruct (update_final_state dt now platforms portals collectibles enemies dim p Hlive)
    as (Hx & _ & _ & _ & _ & _ & _ & Hwq & _). fold q in Hx, Hwq.
  rewrite Hx, Hwq. unfold after_collisions.
  set (p2 := _update_collision_rects (_update_animation dt (integrate dt p))).
  assert (Hp2 : x p2 = x (integrate dt p) /\ get_rect p2 = entry).
  { pose proof (integrate_frame dt p) as F0.
    pose proof (_update_animation_frame dt (integrate dt p)) as F1.
    pose proof (_update_collision_rects_frame (_update_animation dt (integrate dt p))) as F2.
    cbv zeta in *. destruct_and!. unfold p2, entry, get_rect.
    split; [congruence | f_equal; congruence]. }
  destruct Hp2 as (Hx2 & Hr2).
  destruct (check_platform_collisions_x platforms dim p2) as [E | (P & HP & Hvis & Hcol & Hside)].
  - left. rewrite E, Hx2. exact Hclamp.
  - right. exists P. rewrite Hr2 in Hcol, Hside. tauto.
Qed.

End Bounds.

(** * Further properties *)

(** ** Numbers *)

Lemma Qle_bool_false (a b : Q) : Qle_bool a b = false -> (b < a)%Q.
Proof.
  intros H. apply Qnot_le_lt. intros Hle. apply Qle_bool_iff in Hle. congruence.
Qed.

Lemma pymin_le_r (a b : Q) : (pymin a b <= b)%Q.
Proof.
  unfold pymin. destruct (Qltb b a) eqn:E; [lra|]. apply Qltb_ge in E. exact E.
Qed.

(** [max(min(v, hi), lo)], the clamp of the particle rows. *)
Lemma pymax_pymin_bounds (v lo hi : Q) :
  (lo <= hi)%Q -> (lo <= pymax (pymin v hi) lo <= hi)%Q.
Proof.
  intros Hle. unfold pymax, pymin.
  destruct (Qltb hi v) eqn:E1.
  - destruct (Qltb hi lo) eqn:E2; [apply Qltb_lt in E2|apply Qltb_ge in E2]; lra.
  - apply Qltb_ge in E1.
    destruct (Qltb v lo) eqn:E2; [apply Qltb_lt in E2|apply Qltb_ge in E2]; lra.
Qed.

(** Truncation toward zero is within one of its argument, and below a
    non-negative one. *)
Lemma trunc_bounds (q : Q) :
  (q - 1 < inject_Z (trunc q))%Q /\ (inject_Z (trunc q) < q + 1)%Q
  /\ ((0 <= q)%Q -> (inject_Z (trunc q) <= q)%Q).
Proof.
  destruct q as [n d]. unfold trunc, Qlt, Qle. cbn.
  rewrite Pos.mul_1_r, !Z.mul_1_r.
  change (Z.neg d) with (- Z.pos d).
  pose proof (Z.quot_rem' n (Z.pos d)) as Hqr.
  assert (Hd : 0 < Z.pos d) by lia.
  destruct (Z.le_gt_cases 0 n) as [Hn | Hn].
  - pose proof (Z.rem_bound_pos n (Z.pos d) Hn Hd). repeat split; intros; nia.
  - assert (Hneg : 0 <= - n) by lia.
    pose proof (Z.rem_bound_pos (- n) (Z.pos d) Hneg Hd) as Hr.
    rewrite Z.rem_opp_l in Hr by lia. repeat split; intros; nia.
Qed.


(** ** The dimension switch *)

Section DimensionSwitch.
Import GameController Frame.

Lemma switch_dimension_frame g :
  dimension_cooldown (switch_dimension g) = dimension_cooldown g
  /\ active_menu (switch_dimension g) = active_menu g
  /\ game_started (switch_dimension g) = game_started g
  /\ game_paused (switch_dimension g) = game_paused g.
Proof. repeat split; reflexivity. Qed.



(** X2: Whatever integer the dimension slot holds, one switch brings it into
    1..4. *)
Theorem switch_dimension_range (g : GameController.t) :
  1 <= current_dimension (switch_dimension g) <= MAX_DIMENSIONS.
Proof.
  unfold switch_dimension. cbn [current_dimension]. unfold MAX_DIMENSIONS.
  pose proof (Z.mod_pos_bound (current_dimension g) 4 eq_refl). lia.
Qed.

Lemma update_keeps_dimension dt g :
  current_dimension (update dt g).1 = current_dimension g
  /\ game_started (update dt g).1 = game_started g
  /\ game_paused (update dt g).1 = game_paused g
  /\ dimension_cooldown (update dt g).1
     = (if Qltb 0 (dimension_cooldown g) then (dimension_cooldown g - dt)%Q
        else dimension_cooldown g).
Proof.
  unfold update. destruct (Qltb 0 (dimension_cooldown g)); cbn;
    destruct (active_menu g); cbn; try (repeat split; reflexivity);
    destruct (game_started g && negb (game_paused g)); repeat split; reflexivity.
Qed.

(** While the cooldown is above the time that the coming frames add up to,
    no key press changes the dimension. *)
Lemma cooldown_blocks_switch (frames : list (bool * Q)) (g : GameController.t) (c : Q) :
  (c <= dimension_cooldown g)%Q ->
  Forall (λ f : bool * Q, (0 <= f.2)%Q) frames ->
  (elapsed frames < c)%Q ->
  current_dimension (key_frames frames g) = current_dimension g.
Proof.
  revert g c. induction frames as [|[pressed dt] frames IH]; intros g c Hc Hpos Hsum;
    [reflexivity|].
  apply Forall_cons in Hpos as [Hdt Hpos].
  change (0 <= dt)%Q in Hdt. change (dt + elapsed frames < c)%Q in Hsum.
  assert (Hrest : (0 <= elapsed frames)%Q).
  { clear -Hpos. induction Hpos as [|f fs Hf _ IHf]; [apply Qle_refl|].
    change (0 <= f.2 + elapsed fs)%Q. lra. }
  cbn [key_frames fold_left]. fold (key_frames frames (key_frame g (pressed, dt))).
  assert (Hkey : handle_dimension_key pressed g = g).
  { unfold handle_dimension_key.
    destruct (game_started g && negb (game_paused g)); [|reflexivity].
    destruct (Qle_bool (dimension_cooldown g) 0) eqn:E;
      [apply Qle_bool_iff in E; lra | rewrite andb_false_r; reflexivity]. }
  unfold key_frame. cbn [fst snd]. rewrite Hkey.
  destruct (update_keeps_dimension dt g) as (Hd & _ & _ & Hcool).
  rewrite (IH _ (c - dt)%Q); [exact Hd | | exact Hpos | lra].
  rewrite Hcool. destruct (Qltb 0 (dimension_cooldown g)) eqn:E; [lra|].
  apply Qltb_ge in E. lra.
Qed.

(** X3: After a switch of the dimension the key is dead for one second of frame
    time: in the frame of the switch the dimension advances by one, and in
    the frames that follow, as long as their times add up to less than
    [DIMENSION_CHANGE_COOLDOWN] with the first one, it stays there whatever
    is pressed. *)
Theorem dimension_switch_cooldown (g : GameController.t) (dt0 : Q)
    (frames : list (bool * Q)) :
  game_started g = true -> game_paused g = false ->
  (dimension_cooldown g <= 0)%Q ->
  (0 <= dt0)%Q ->
  Forall (λ f : bool * Q, (0 <= f.2)%Q) frames ->
  (dt0 + elapsed frames < DIMENSION_CHANGE_COOLDOWN)%Q ->
  let g1 := key_frame g (true, dt0) in
  current_dimension g1 = current_dimension g mod MAX_DIMENSIONS + 1
  /\ current_dimension (key_frames frames g1) = current_dimension g1.
Proof.
  intros Hs Hp Hc Hdt Hpos Hsum g1.
  assert (Hkey : handle_dimension_key true g
                 = mk DIMENSION_CHANGE_COOLDOWN (active_menu g) true false (game_time g)
                      (current_dimension g mod MAX_DIMENSIONS + 1) (difficulty g)).
  { unfold handle_dimension_key. rewrite Hs, Hp. cbn [negb andb].
    apply Qle_bool_iff in Hc. rewrite Hc. cbn. rewrite Hs, Hp. reflexivity. }
  destruct (update_keeps_dimension dt0 (handle_dimension_key true g)) as (Hd & _ & _ & Hcool).
  change (update dt0 (handle_dimension_key true g)).1 with g1 in Hd, Hcool.
  rewrite Hkey in Hd, Hcool. cbn [dimension_cooldown current_dimension] in Hd, Hcool.
  change (Qltb 0 DIMENSION_CHANGE_COOLDOWN) with true in Hcool. cbv iota in Hcool.
  split; [exact Hd|].
  apply (cooldown_blocks_switch frames g1 (DIMENSION_CHANGE_COOLDOWN - dt0)%Q).
  - rewrite Hcool. apply Qle_refl.
  - exact Hpos.
  - lra.
Qed.

Lemma dimension_switch_cooldown_witness :
  let g1 := key_frame running_quantum (true, 0.1%Q) in
  current_dimension g1 = current_dimension running_quantum mod MAX_DIMENSIONS + 1
  /\ current_dimension (key_frames held_key_frames g1) = current_dimension g1.
Proof.
  apply (dimension_switch_cooldown running_quantum 0.1%Q held_key_frames);
    try reflexivity; try (vm_compute; discriminate).
  repeat constructor; vm_compute; discriminate.
Defined.

End DimensionSwitch.

(** ** Lives across a frame *)

Section Lives.
Import Player.

(** The two causes of a death in one [update] of a live actor, and what
    they do to the lives and to the dead flag. *)
Lemma update_lives_accounting dt now platforms portals collectibles enemies dim p :
  is_dead p = false ->
  let r := update dt now platforms portals collectibles enemies dim p in
  exists by_enemy by_fall : bool,
    ev_player_death r.2 = by_enemy || by_fall
    /\ lives r.1.1.1 = lives p - Z.b2z by_enemy - Z.b2z by_fall
    /\ is_dead r.1.1.1
       = (if by_enemy || by_fall then lives r.1.1.1 <=? 0 else false).
Proof.
  intros Hlive r. subst r. rewrite update_live by exact Hlive. cbv zeta.
  cbn [fst snd ev_player_death].
  pose proof (before_portal_frame dt platforms dim p) as F1.
  pose proof (before_enemies_frame dt now platforms portals collectibles dim p) as F2.
  cbv zeta in F1, F2.
  set (p3 := before_enemies dt now platforms portals collectibles dim p) in *.
  assert (Hl3 : lives p3 = lives p) by (destruct_and!; congruence).
  assert (Hd3 : is_dead p3 = false) by (destruct_and!; congruence).
  clear F1 F2.
  pose proof (check_enemy_collisions_player_death enemies p3) as Hpd.
  pose proof (check_enemy_collisions_frame enemies p3) as F3. cbv zeta in F3.
  destruct (check_enemy_collisions enemies p3) as [[p4 es] hit]. cbn [fst snd] in *.
  assert (Hl4 : lives p4 = lives p) by (destruct_and!; congruence).
  assert (Hd4 : is_dead p4 = false) by (destruct_and!; congruence).
  clear F3.
  assert (Hcase : hit = player_death \/ hit <> player_death)
    by (destruct hit; [left; reflexivity | right; discriminate ..]).
  destruct Hcase as [-> | Hother].
  - destruct (Hpd eq_refl) as [-> Hinv]. clear Hpd.
    pose proof (apply_enemy_hit_player_death p3 Hinv) as Hh. cbv zeta in Hh.
    destruct (apply_enemy_hit player_death p3) as [[p5 de] ed]. cbn [fst snd] in *.
    destruct Hh as (-> & L5 & D5 & _ & _).
    destruct (fall_out_spec p5) as [(Hf & _ & Lf & Df) | (Hf & _ & Heq)].
    + exists true, true. rewrite Hf, Lf, Df, L5. cbn. repeat split; try reflexivity. lia.
    + exists true, false. rewrite Hf, Heq, D5, L5. cbn. repeat split; try reflexivity. lia.
  - clear Hpd. pose proof (apply_enemy_hit_other hit p4 Hother) as Hh.
    destruct (apply_enemy_hit hit p4) as [[p5 de] ed]. cbn [fst snd] in *.
    injection Hh as -> ->.
    destruct (fall_out_spec p4) as [(Hf & _ & Lf & Df) | (Hf & _ & Heq)].
    + exists false, true. rewrite Hf, Lf, Df. cbn. repeat split; try reflexivity. lia.
    + exists false, false. rewrite Hf, Heq. cbn. repeat split; try assumption. lia.
Qed.

(** X4: An update of a live actor reports a death exactly when it took a life;
    it takes at most two, never gives one, and leaves the actor dead exactly
    when it took a life and none remain. *)
Theorem update_reports_every_lost_life (dt now : Q) (platforms : list Platform)
    (portals : list Portal) (collectibles : list Collectible) (enemies : list Enemy)
    (dim : Z) (p : Player.t) :
  is_dead p = false ->
  let r := update dt now platforms portals collectibles enemies dim p in
  (ev_player_death r.2 = true <-> lives r.1.1.1 < lives p)
  /\ lives p - 2 <= lives r.1.1.1 <= lives p
  /\ (is_dead r.1.1.1 = true <-> lives r.1.1.1 < lives p /\ lives r.1.1.1 <= 0).
Proof.
  intros Hlive r.
  destruct (update_lives_accounting dt now platforms portals collectibles enemies dim p
              Hlive) as (be & bf & Hev & Hl & Hd).
  fold r in Hev, Hl, Hd. rewrite Hev, Hd, Hl. clear Hev Hd Hl.
  destruct be, bf; cbn [orb Z.b2z]; rewrite ?Z.leb_le;
    (split; [|split]); try lia; split; intros; try lia; try discriminate;
    try reflexivity; try (split; lia).
Qed.

Lemma update_reports_every_lost_life_witness :
  let r := update 1 0 [] [] [] [enemy_at 100 300] 1 actor_beside_enemy in
  (ev_player_death r.2 = true <-> lives r.1.1.1 < lives actor_beside_enemy)
  /\ lives actor_beside_enemy - 2 <= lives r.1.1.1 <= lives actor_beside_enemy
  /\ (is_dead r.1.1.1 = true
      <-> lives r.1.1.1 < lives actor_beside_enemy /\ lives r.1.1.1 <= 0).
Proof.
  apply (update_reports_every_lost_life 1 0 [] [] [] [enemy_at 100 300] 1
           actor_beside_enemy).
  reflexivity.
Defined.

Lemma add_powerup_lives powerup_type duration p :
  lives (add_powerup powerup_type duration p) = lives p
  /\ is_dead (add_powerup powerup_type duration p) = is_dead p.
Proof.
  unfold add_powerup.
  destruct (powerup_timers _ !! _); destruct (decide _); split; reflexivity.
Qed.

Lemma collect_first_lives rect dim powerups p :
  let q := (PowerupItem.collect_first rect dim powerups p).1.1 in
  lives q = lives p /\ is_dead q = is_dead p.
Proof.
  induction powerups as [|w rest IH]; [split; reflexivity|].
  cbn [PowerupItem.collect_first].
  destruct (PowerupItem.collect_first rect dim rest p) as [[p' rest'] r].
  cbn [fst snd] in *.
  destruct (negb _ && negb _); [exact IH|].
  destruct (negb _ && colliderect _ _); [apply add_powerup_lives | exact IH].
Qed.

(** A frame of the running game never ends with a life missing: if the
    actor enters it alive with its three lives, it leaves it alive with three
    lives, and [_game_over] is not called. *)
Lemma frame_restores_lives (time_factor now t1 t2 : Q) (platforms : list Platform)
    (portals : list Portal) (collectibles : list Collectible) (enemies : list Enemy)
    (powerups : list PowerupItem.t) (dim : Z) (p : Player.t) :
  lives p = PLAYER_STARTING_LIVES -> is_dead p = false ->
  let r := Frame.update_actor time_factor now t1 t2 platforms portals collectibles
             enemies powerups dim p in
  lives r.1 = PLAYER_STARTING_LIVES /\ is_dead r.1 = false /\ r.2 = false.
Proof.
  intros Hl Hlive r. subst r. unfold Frame.update_actor.
  destruct (update_lives_accounting time_factor now platforms portals collectibles
              enemies dim p Hlive) as (be & bf & Hev & Hl1 & Hd1).
  destruct (update time_factor now platforms portals collectibles enemies dim p)
    as [[[p1 cs] es] ev]. cbn [fst snd] in *.
  unfold PowerupItem.check_player_powerup_collisions.
  pose proof (collect_first_lives (get_rect p1) dim powerups p1) as Hc. cbv zeta in Hc.
  destruct (PowerupItem.collect_first (get_rect p1) dim powerups p1) as [[p2 ws] picked].
  cbn [fst snd] in *. destruct Hc as (Hl2 & Hd2).
  assert (Hl1' : 1 <= lives p2 <= 3)
    by (rewrite Hl2, Hl1, Hl; unfold PLAYER_STARTING_LIVES; destruct be, bf; cbn; lia).
  destruct (ev_level_complete ev); destruct (ev_player_death ev) eqn:Hdeath.
  - cbn. repeat split; reflexivity.
  - cbn. repeat split; reflexivity.
  - destruct (lives p2 <=? 0) eqn:E; [apply Z.leb_le in E; lia|].
    cbn. repeat split; reflexivity.
  - cbn. rewrite Hl2, Hd2, Hl1, Hd1, Hl.
    destruct be, bf; cbn in Hev; try discriminate. repeat split; reflexivity.
Qed.

Lemma handle_keys_lives k p :
  lives (Frame.handle_keys k p) = lives p
  /\ is_dead (Frame.handle_keys k p) = is_dead p.
Proof.
  unfold Frame.handle_keys.
  set (q := if Frame.key_left k then move_left p
            else if Frame.key_right k then move_right p
            else stop_horizontal_movement p).
  assert (Hq : lives q = lives p /\ is_dead q = is_dead p).
  { subst q. destruct (Frame.key_left k); [split; reflexivity|].
    destruct (Frame.key_right k); [split; reflexivity|].
    unfold stop_horizontal_movement. destruct (on_ground _); split; reflexivity. }
  destruct (Frame.key_jump k); [|exact Hq].
  unfold jump. destruct (jump_count q <? max_jumps q); exact Hq.
Qed.

(** X5: The game-over menu cannot be reached by playing.  From a reset actor,
    over any number of frames and whatever the keys, the clock and the world
    are in each of them, [_game_over] is never called, and after every frame
    the actor is alive with all of its three lives: one update takes at most
    two lives, and every death with lives left resets the actor, which
    restores them. *)
Theorem game_over_is_unreachable (frames : list Frame.frame) (x0 y0 now : Q) :
  let r := Frame.actor_frames frames (reset x0 y0 now) in
  r.2 = false /\ lives r.1 = PLAYER_STARTING_LIVES /\ is_dead r.1 = false.
Proof.
  cbv zeta.
  assert (Hgen : forall p, lives p = PLAYER_STARTING_LIVES -> is_dead p = false ->
            (Frame.actor_frames frames p).2 = false
            /\ lives (Frame.actor_frames frames p).1 = PLAYER_STARTING_LIVES
            /\ is_dead (Frame.actor_frames frames p).1 = false).
  { induction frames as [|f frames IH]; intros p Hl Hd; [repeat split; assumption|].
    cbn [Frame.actor_frames]. unfold Frame.actor_frame.
    destruct (handle_keys_lives (Frame.frame_keys f) p) as (Hkl & Hkd).
    rewrite <- Hkl in Hl. rewrite <- Hkd in Hd.
    pose proof (frame_restores_lives (Frame.frame_time_factor f) (Frame.frame_now f)
                  (Frame.frame_reset_time_1 f) (Frame.frame_reset_time_2 f)
                  (Frame.frame_platforms f) (Frame.frame_portals f)
                  (Frame.frame_collectibles f) (Frame.frame_enemies f)
                  (Frame.frame_powerups f) (Frame.frame_dimension f)
                  (Frame.handle_keys (Frame.frame_keys f) p) Hl Hd) as Hf.
    cbv zeta in Hf.
    destruct (Frame.update_actor _ _ _ _ _ _ _ _ _ _ _) as [p' over].
    cbn [fst snd] in Hf. destruct Hf as (Hl' & Hd' & ->).
    apply IH; assumption. }
  apply Hgen; reflexivity.
Qed.

(** X25: Every death that the actor's update reports in a frame of the running
    game ends the frame with the actor in its reset state at the spawn point
    (100, 300): all three lives, no powerups and a hit-invincibility timer of
    0.  So the invincibility window that an enemy hit opens never outlasts
    the frame of the hit. *)
Theorem death_resets_the_actor (time_factor now t1 t2 : Q) (platforms : list Platform)
    (portals : list Portal) (collectibles : list Collectible) (enemies : list Enemy)
    (powerups : list PowerupItem.t) (dim : Z) (p : Player.t) :
  lives p = PLAYER_STARTING_LIVES -> is_dead p = false ->
  ev_player_death
    (update time_factor now platforms portals collectibles enemies dim p).2 = true ->
  let r := Frame.update_actor time_factor now t1 t2 platforms portals collectibles
             enemies powerups dim p in
  r = (reset 100 300 t2, false)
  /\ invincible_timer r.1 = 0%Q /\ active_powerups r.1 = ∅
  /\ lives r.1 = PLAYER_STARTING_LIVES.
Proof.
  intros Hl Hlive Hev r. subst r. unfold Frame.update_actor.
  destruct (update_lives_accounting time_factor now platforms portals collectibles
              enemies dim p Hlive) as (be & bf & _ & Hl1 & _).
  destruct (update time_factor now platforms portals collectibles enemies dim p)
    as [[[p1 cs] es] ev]. cbn [fst snd] in *.
  unfold PowerupItem.check_player_powerup_collisions.
  pose proof (collect_first_lives (get_rect p1) dim powerups p1) as Hc. cbv zeta in Hc.
  destruct (PowerupItem.collect_first (get_rect p1) dim powerups p1) as [[p2 ws] picked].
  cbn [fst snd] in *. destruct Hc as (Hl2 & _).
  assert (Hpos : 1 <= lives p2)
    by (rewrite Hl2, Hl1, Hl; unfold PLAYER_STARTING_LIVES; destruct be, bf; cbn; lia).
  rewrite Hev.
  destruct (ev_level_complete ev).
  - cbn. repeat split; reflexivity.
  - destruct (lives p2 <=? 0) eqn:E; [apply Z.leb_le in E; lia|].
    repeat split; reflexivity.
Qed.

Lemma death_resets_the_actor_witness :
  Frame.update_actor 1 0 0 0 [] [] [] [enemy_at 100 300] [] 1 actor_beside_enemy
  = (reset 100 300 0, false).
Proof.
  assert (Hl : lives actor_beside_enemy = PLAYER_STARTING_LIVES) by reflexivity.
  assert (Hd : is_dead actor_beside_enemy = false) by reflexivity.
  assert (Hev : ev_player_death
                  (update 1 0 [] [] [] [enemy_at 100 300] 1 actor_beside_enemy).2 = true)
    by (vm_compute; reflexivity).
  exact (proj1 (death_resets_the_actor 1 0 0 0 [] [] [] [enemy_at 100 300] [] 1
                  actor_beside_enemy Hl Hd Hev)).
Defined.

End Lives.

(** ** The enemy patrol *)

Section Patrol.
Import EnemyPatrol.

(** X6: Whatever the time step and wherever the enemy was, an update of a live
    enemy whose patrol interval is at least as wide as the enemy leaves it
    inside the interval, facing left or right if it did before.  If the enemy
    was inside the interval before, it has moved by at most the distance that
    its speed covers in the step.  The update writes the horizontal position,
    the direction and the two animation slots and nothing else.  The
    animation timer grows by the step; when that takes it to 10 or more it is
    reset to 0 and the animation frame flips, otherwise the frame stays.  So
    the timer ends below 10, and an animation frame of 0 or 1 stays 0 or 1. *)
Theorem patrol_update_stays_in_interval (dt : Q) (current_dimension : Z) (e : Enemy) :
  e_is_dead e = false ->
  (patrol_left e + owidth (eobj e) <= patrol_right e)%Q ->
  let e' := update dt current_dimension e in
  in_patrol e'
  /\ (edirection e = 1 \/ edirection e = -1 ->
      edirection e' = 1 \/ edirection e' = -1)
  /\ (in_patrol e ->
      let step := (espeed e * inject_Z (edirection e) * dt)%Q in
      (pymin 0 step <= ox (eobj e') - ox (eobj e) <= pymax 0 step)%Q)
  /\ oy (eobj e') = oy (eobj e) /\ owidth (eobj e') = owidth (eobj e)
  /\ oheight (eobj e') = oheight (eobj e)
  /\ patrol_left e' = patrol_left e /\ patrol_right e' = patrol_right e
  /\ espeed e' = espeed e /\ e_is_dead e' = false
  /\ ((10 <= e_frame_timer e + dt * 60 / 60)%Q ->
      e_frame_timer e' = 0%Q
      /\ e_animation_frame e' = (e_animation_frame e + 1) mod 2)
  /\ ((e_frame_timer e + dt * 60 / 60 < 10)%Q ->
      e_frame_timer e' = (e_frame_timer e + dt * 60 / 60)%Q
      /\ e_animation_frame e' = e_animation_frame e)
  /\ (e_frame_timer e' < 10)%Q
  /\ (e_animation_frame e = 0 \/ e_animation_frame e = 1 ->
      e_animation_frame e' = 0 \/ e_animation_frame e' = 1).
Proof.
  intros Hlive Hwide e'. subst e'. unfold update, in_patrol. rewrite Hlive.
  set (x1 := (ox (eobj e) + espeed e * inject_Z (edirection e) * (dt * 60) / 60)%Q).
  assert (Hx1 : (x1 == ox (eobj e) + espeed e * inject_Z (edirection e) * dt)%Q)
    by (subst x1; field).
  assert (Hstep : forall s : Q, (pymin 0 s <= 0 /\ pymin 0 s <= s
                                 /\ 0 <= pymax 0 s /\ s <= pymax 0 s)%Q).
  { intros s. unfold pymin, pymax.
    destruct (Qltb s 0) eqn:E1; destruct (Qltb 0 s) eqn:E2;
      try apply Qltb_lt in E1; try apply Qltb_lt in E2;
      try apply Qltb_ge in E1; try apply Qltb_ge in E2; repeat split; lra. }
  destruct (Hstep (espeed e * inject_Z (edirection e) * dt)%Q) as (S1 & S2 & S3 & S4).
  set (timer := (e_frame_timer e + dt * 60 / 60)%Q).
  set (frame' := if Qle_bool 10 timer then (e_animation_frame e + 1) mod 2
                 else e_animation_frame e).
  set (timer' := if Qle_bool 10 timer then 0%Q else timer).
  assert (Htimer : (timer' < 10)%Q).
  { subst timer'. destruct (Qle_bool 10 timer) eqn:E; [reflexivity|].
    apply Qle_bool_false, E. }
  assert (Hframe : e_animation_frame e = 0 \/ e_animation_frame e = 1 ->
                   frame' = 0 \/ frame' = 1).
  { subst frame'. destruct (Qle_bool 10 timer); [|tauto].
    intros [-> | ->]; [right | left]; reflexivity. }
  assert (Hflip : (10 <= timer)%Q ->
                  timer' = 0%Q /\ frame' = (e_animation_frame e + 1) mod 2).
  { intros H. apply Qle_bool_iff in H. subst timer' frame'. rewrite H.
    split; reflexivity. }
  assert (Hkeep : (timer < 10)%Q -> timer' = timer /\ frame' = e_animation_frame e).
  { intros H. subst timer' frame'. destruct (Qle_bool 10 timer) eqn:E.
    - apply Qle_bool_iff in E. exfalso. lra.
    - split; reflexivity. }
  clearbody timer' frame'.
  destruct (Qle_bool x1 (patrol_left e)) eqn:E1.
  - apply Qle_bool_iff in E1.
    cbn [eobj ox oy owidth oheight patrol_left patrol_right espeed edirection e_is_dead
         e_animation_frame e_frame_timer].
    split; [split; lra|]. split; [intros _; left; reflexivity|].
    split; [intros [Hl Hr]; cbv zeta; split; lra|].
    do 7 (split; [reflexivity|]). repeat (split; [assumption|]). assumption.
  - apply Qle_bool_false in E1.
    destruct (Qle_bool (patrol_right e) (x1 + owidth (eobj e))) eqn:E2.
    + apply Qle_bool_iff in E2.
      cbn [eobj ox oy owidth oheight patrol_left patrol_right espeed edirection e_is_dead
           e_animation_frame e_frame_timer].
      split; [split; lra|]. split; [intros _; right; reflexivity|].
      split; [intros [Hl Hr]; cbv zeta; split; lra|].
      do 7 (split; [reflexivity|]). repeat (split; [assumption|]). assumption.
    + apply Qle_bool_false in E2.
      cbn [eobj ox oy owidth oheight patrol_left patrol_right espeed edirection e_is_dead
           e_animation_frame e_frame_timer].
      split; [split; lra|]. split; [intros H; exact H|].
      split; [intros [Hl Hr]; cbv zeta; split; lra|].
      do 7 (split; [reflexivity|]). repeat (split; [assumption|]). assumption.
Qed.

Lemma patrol_update_stays_in_interval_witness :
  in_patrol (update 1 1 (enemy_at 100 300)).
Proof.
  apply (patrol_update_stays_in_interval 1 1 (enemy_at 100 300)).
  - reflexivity.
  - vm_compute. discriminate.
Defined.

End Patrol.

(** ** Contact with enemies *)

Section EnemyContact.
Import Player.

(** X7: The verdict of the enemy loop, case by case.  The list keeps its length.
    "enemy_death": exactly one enemy changed, it was alive and touched by the
    actor's rectangle and by its foot rectangle, the actor was moving down,
    and the actor leaves with the upward bounce velocity and nothing else
    changed.  "player_death": nothing changed, the actor was not invincible
    and touches a live enemy.  No verdict: nothing changed, and every live
    enemy that the actor touches was ignored because the actor is invincible
    and is not stomping it. *)
Theorem check_enemy_collisions_verdict (enemies : list Enemy) (p : Player.t) :
  let '(p', enemies', hit) := check_enemy_collisions enemies p in
  let touches (e : Enemy) :=
    colliderect (get_rect p) (GameObject_get_rect (eobj e)) in
  let stomps (e : Enemy) :=
    colliderect (rect_bottom (collision_rects p)) (GameObject_get_rect (eobj e))
    && Qltb 0 (velocity_y p) in
  length enemies' = length enemies
  /\ match hit with
     | enemy_death =>
         exists before e after,
           enemies = before ++ e :: after
           /\ enemies' = before ++ die e :: after
           /\ e_is_dead e = false /\ touches e = true /\ stomps e = true
           /\ (0 < velocity_y p)%Q
           /\ p' = set_velocity_y (PLAYER_JUMP_STRENGTH * 0.7)%Q p
           /\ (velocity_y p' < 0)%Q
     | player_death =>
         enemies' = enemies /\ p' = p /\ is_invincible p = false
         /\ exists e, e ∈ enemies /\ e_is_dead e = false /\ touches e = true
                      /\ stomps e = false
     | no_hit =>
         enemies' = enemies /\ p' = p
         /\ forall e, e ∈ enemies -> e_is_dead e = false -> touches e = true ->
                      is_invincible p = true /\ stomps e = false
     end.
Proof.
  induction enemies as [|e es IH]; cbn [check_enemy_collisions].
  { split; [reflexivity|]. split; [reflexivity|]. split; [reflexivity|].
    intros e0 He0. inversion He0. }
  destruct (check_enemy_collisions es p) as [[p' es'] r]. cbv zeta in IH |- *.
  destruct IH as [Hlen IH].
  assert (Hskip :
    length (e :: es') = length (e :: es)
    /\ (e_is_dead e = false ->
        colliderect (get_rect p) (GameObject_get_rect (eobj e)) = true ->
        is_invincible p = true
        /\ colliderect (rect_bottom (collision_rects p)) (GameObject_get_rect (eobj e))
           && Qltb 0 (velocity_y p) = false) ->
    length (e :: es') = length (e :: es)
    /\ match r with
       | enemy_death =>
           exists before e0 after,
             e :: es = before ++ e0 :: after
             /\ e :: es' = before ++ die e0 :: after
             /\ e_is_dead e0 = false
             /\ colliderect (get_rect p) (GameObject_get_rect (eobj e0)) = true
             /\ colliderect (rect_bottom (collision_rects p))
                  (GameObject_get_rect (eobj e0)) && Qltb 0 (velocity_y p) = true
             /\ (0 < velocity_y p)%Q
             /\ p' = set_velocity_y (PLAYER_JUMP_STRENGTH * 0.7)%Q p
             /\ (velocity_y p' < 0)%Q
       | player_death =>
           e :: es' = e :: es /\ p' = p /\ is_invincible p = false
           /\ exists e0, e0 ∈ e :: es /\ e_is_dead e0 = false
                /\ colliderect (get_rect p) (GameObject_get_rect (eobj e0)) = true
                /\ colliderect (rect_bottom (collision_rects p))
                     (GameObject_get_rect (eobj e0)) && Qltb 0 (velocity_y p) = false
       | no_hit =>
           e :: es' = e :: es /\ p' = p
           /\ forall e0, e0 ∈ e :: es -> e_is_dead e0 = false ->
                colliderect (get_rect p) (GameObject_get_rect (eobj e0)) = true ->
                is_invincible p = true
                /\ colliderect (rect_bottom (collision_rects p))
                     (GameObject_get_rect (eobj e0)) && Qltb 0 (velocity_y p) = false
       end).
  { intros [Hl He]. split; [exact Hl|]. destruct r.
    - destruct IH as (-> & -> & Hinv & e0 & Hin & H0).
      repeat split; try assumption. exists e0. split; [right; exact Hin | exact H0].
    - destruct IH as (before & e0 & after & -> & -> & H0).
      exists (e :: before), e0, after. repeat split; try apply H0; reflexivity.
    - destruct IH as (-> & -> & Hall). repeat split.
      + intros. inversion H; subst; [apply He; assumption | eapply Hall; eassumption].
      + intros. inversion H; subst; [apply He; assumption | eapply Hall; eassumption]. }
  destruct (e_is_dead e) eqn:Hdead.
  { apply Hskip. split; [cbn; lia | discriminate]. }
  destruct (colliderect (get_rect p) (GameObject_get_rect (eobj e))) eqn:Htouch.
  2:{ apply Hskip. split; [cbn; lia | discriminate]. }
  destruct (colliderect (rect_bottom (collision_rects p)) (GameObject_get_rect (eobj e))
            && Qltb 0 (velocity_y p)) eqn:Hstomp.
  - split; [cbn; reflexivity|].
    exists [], e, es. repeat split; try assumption.
    apply andb_true_iff in Hstomp as [_ Hv]. apply Qltb_lt, Hv.
  - destruct (is_invincible p) eqn:Hinv; cbn [negb].
    + apply Hskip. split; [cbn; lia | intros _ _; split; reflexivity || assumption].
    + split; [reflexivity|]. repeat split.
      exists e. repeat split; try assumption. left.
Qed.

End EnemyContact.

(** ** Invincibility *)

Section Invincibility.
Import Player.

(** X8: While the hit timer outlasts the step, or the invincibility powerup is
    active and does not run out in this step, an update of a live actor loses
    no life to an enemy: a death is reported exactly when the actor ends the
    update below the level, and it costs one life. *)
Theorem invincible_actor_ignores_enemies (dt now : Q) (platforms : list Platform)
    (portals : list Portal) (collectibles : list Collectible) (enemies : list Enemy)
    (dim : Z) (p : Player.t) :
  is_dead p = false ->
  ((0 <= dt)%Q /\ (dt < invincible_timer p)%Q)
  \/ (active_powerups p !! "invincibility" = Some true
      /\ forall t, powerup_timers p !! "invincibility" = Some t -> (dt < t)%Q) ->
  let r := update dt now platforms portals collectibles enemies dim p in
  (ev_player_death r.2 = true <-> (inject_Z LEVEL_HEIGHT < y r.1.1.1)%Q)
  /\ lives r.1.1.1 = lives p - (if ev_player_death r.2 then 1 else 0).
Proof.
  intros Hlive Hprot r. subst r. rewrite update_live by exact Hlive. cbv zeta.
  cbn [fst snd ev_player_death].
  pose proof (before_portal_frame dt platforms dim p) as F1.
  pose proof (before_enemies_frame dt now platforms portals collectibles dim p) as F2.
  cbv zeta in F1, F2.
  set (p3 := before_enemies dt now platforms portals collectibles dim p) in *.
  assert (Hl3 : lives p3 = lives p) by (destruct_and!; congruence).
  assert (Ht3 : invincible_timer p3 = invincible_timer (update_powerups dt p))
    by (destruct_and!; congruence).
  assert (Ha3 : active_powerups p3 = active_powerups (update_powerups dt p))
    by (destruct_and!; congruence).
  clear F1 F2.
  assert (Hinv : is_invincible p3 = true).
  { unfold is_invincible, invincibility_powerup. rewrite Ht3, Ha3.
    destruct Hprot as [[Hdt Ht] | [Ha Ht]].
    - rewrite update_powerups_invincible_timer.
      assert (E : Qltb 0 (invincible_timer p) = true) by (apply Qltb_lt; lra).
      rewrite E. apply orb_true_iff. left. apply Qltb_lt. lra.
    - apply orb_true_iff. right. rewrite update_powerups_active.
      destruct (powerup_timers p !! "invincibility") as [t|] eqn:E.
      + specialize (Ht t eq_refl).
        destruct (Qle_bool (t - dt) 0) eqn:E2.
        * apply Qle_bool_iff in E2. lra.
        * rewrite Ha. reflexivity.
      + rewrite Ha. reflexivity. }
  pose proof (check_enemy_collisions_player_death enemies p3) as Hpd.
  pose proof (check_enemy_collisions_frame enemies p3) as F3. cbv zeta in F3.
  destruct (check_enemy_collisions enemies p3) as [[p4 es] hit]. cbn [fst snd] in *.
  assert (Hl4 : lives p4 = lives p) by (destruct_and!; congruence).
  clear F3.
  assert (Hother : hit <> player_death).
  { intros ->. destruct (Hpd eq_refl) as [_ Hno]. congruence. }
  pose proof (apply_enemy_hit_other hit p4 Hother) as Hh.
  destruct (apply_enemy_hit hit p4) as [[p5 de] ed]. cbn [fst snd] in *.
  injection Hh as -> ->. cbn [orb].
  pose proof (fall_out_frame p4) as F5. cbv zeta in F5.
  destruct F5 as (_ & _ & _ & _ & _ & _ & _ & _ & _ & _ & Hy).
  destruct (fall_out_spec p4) as [(Hf & Hlow & Lf & _) | (Hf & Hhigh & Heq)].
  - rewrite Hf, Lf, Hy, Hl4. split; [tauto | reflexivity].
  - rewrite Hf, Hy, Heq, Hl4. split; [split; [discriminate | lra] | lia].
Qed.

Lemma invincible_actor_ignores_enemies_witness :
  let p := set_invincible_timer 2 actor_beside_enemy in
  let r := update 1 0 [] [] [] [enemy_at 100 300] 1 p in
  (ev_player_death r.2 = true <-> (inject_Z LEVEL_HEIGHT < y r.1.1.1)%Q)
  /\ lives r.1.1.1 = lives p - (if ev_player_death r.2 then 1 else 0).
Proof.
  apply (invincible_actor_ignores_enemies 1 0 [] [] [] [enemy_at 100 300] 1
           (set_invincible_timer 2 actor_beside_enemy)).
  - reflexivity.
  - left. split; vm_compute; [discriminate | reflexivity].
Defined.

End Invincibility.

(** ** The speed of the fall *)

Section FallSpeed.
Import Player.

Lemma gravity_multiplier_values p :
  get_powerup_effect "gravity" 1 p = 1%Q \/ get_powerup_effect "gravity" 1 p = 0.7%Q.
Proof.
  unfold get_powerup_effect.
  destruct (active_powerups p !! "gravity") as [[]|]; [right; reflexivity | left; reflexivity ..].
Qed.

Lemma integrate_velocity_y dt p :
  (velocity_y (integrate dt p) <= MAX_FALL_SPEED * get_powerup_effect "gravity" 1 p)%Q.
Proof.
  unfold integrate.
  assert (E : get_powerup_effect "gravity" 1
                (if on_ground p then set_last_safe_position (x p, y p) p else p)
              = get_powerup_effect "gravity" 1 p) by (destruct (on_ground p); reflexivity).
  cbv zeta. rewrite E. cbn [velocity_y set_x set_y set_velocity_y].
  apply pymin_le_r.
Qed.

Lemma check_platform_collisions_velocity_y platforms dim p :
  let q := check_platform_collisions platforms dim p in
  velocity_y q = velocity_y p \/ velocity_y q = 0%Q.
Proof.
  unfold check_platform_collisions.
  apply (resolve_fold_inv (λ s, velocity_y s = velocity_y p \/ velocity_y s = 0%Q)).
  - intros s P _ Hs. resolve_cases; tauto.
  - left. reflexivity.
Qed.

Lemma check_enemy_collisions_velocity_y enemies p :
  let q := (check_enemy_collisions enemies p).1.1 in
  velocity_y q = velocity_y p \/ velocity_y q = (PLAYER_JUMP_STRENGTH * 0.7)%Q.
Proof.
  induction enemies as [|e es IH]; [left; reflexivity|].
  simpl. destruct (check_enemy_collisions es p) as [[p' es'] r].
  destruct (e_is_dead e); [exact IH|].
  destruct (colliderect _ _); [|exact IH].
  destruct (colliderect _ _ && _); [right; reflexivity|].
  destruct (negb _); [left; reflexivity | exact IH].
Qed.

Lemma apply_enemy_hit_velocity_y hit p :
  velocity_y (apply_enemy_hit hit p).1.1 = velocity_y p.
Proof.
  unfold apply_enemy_hit. destruct hit; [|reflexivity..].
  destruct (negb _ && _); [|reflexivity].
  destruct (lives p - 1 <=? 0) eqn:E; simpl; rewrite E; reflexivity.
Qed.

Lemma fall_out_velocity_y p : velocity_y (fall_out p).1 = velocity_y p.
Proof. unfold fall_out. destruct (Qltb _ _); reflexivity. Qed.

Lemma before_enemies_velocity_y dt now platforms portals collectibles dim p :
  velocity_y (before_enemies dt now platforms portals collectibles dim p)
  = velocity_y (after_collisions dt platforms dim p).
Proof.
  unfold before_enemies, before_portal. cbv zeta.
  set (p3 := after_collisions dt platforms dim p).
  pose proof (footsteps_frame p3) as F4.
  pose proof (update_powerups_frame dt (footsteps p3).1) as F5.
  pose proof (derive_animation_state_frame (update_powerups dt (footsteps p3).1)) as F6.
  pose proof (_check_portal_collision_frame now portals
                (derive_animation_state (update_powerups dt (footsteps p3).1))) as F7.
  cbv zeta in *. destruct_and!.
  destruct (_check_portal_collision _ _ _) as [q b]. cbn [fst snd] in *.
  destruct b; destruct (check_collectible_collisions _ _).2;
    cbn [velocity_y set_collected_item set_level_completed]; congruence.
Qed.

(** X9: The vertical velocity of a live actor after an update never exceeds
    the terminal fall speed, whatever the step and the velocity before; with
    the gravity powerup active the bound is the reduced one. *)
Theorem fall_speed_is_bounded (dt now : Q) (platforms : list Platform)
    (portals : list Portal) (collectibles : list Collectible) (enemies : list Enemy)
    (dim : Z) (p : Player.t) :
  is_dead p = false ->
  let q := (update dt now platforms portals collectibles enemies dim p).1.1.1 in
  (velocity_y q <= MAX_FALL_SPEED * get_powerup_effect "gravity" 1 p)%Q
  /\ (velocity_y q <= MAX_FALL_SPEED)%Q.
Proof.
  intros Hlive q. subst q. rewrite update_live by exact Hlive. cbv zeta. cbn [fst snd].
  rewrite fall_out_velocity_y, apply_enemy_hit_velocity_y.
  pose proof (check_enemy_collisions_velocity_y enemies
                (before_enemies dt now platforms portals collectibles dim p)) as He.
  cbv zeta in He. rewrite before_enemies_velocity_y in He.
  unfold after_collisions in He.
  pose proof (check_platform_collisions_velocity_y platforms dim
                (_update_collision_rects (_update_animation dt (integrate dt p)))) as Hp.
  cbv zeta in Hp.
  pose proof (_update_animation_frame dt (integrate dt p)) as F1.
  pose proof (_update_collision_rects_frame (_update_animation dt (integrate dt p))) as F2.
  cbv zeta in F1, F2.
  assert (Hv : velocity_y (_update_collision_rects (_update_animation dt (integrate dt p)))
               = velocity_y (integrate dt p)) by (destruct_and!; congruence).
  clear F1 F2. rewrite Hv in Hp.
  pose proof (integrate_velocity_y dt p) as Hi.
  assert (Hjump : (PLAYER_JUMP_STRENGTH * 0.7 < 0)%Q) by reflexivity.
  assert (Hmax : (MAX_FALL_SPEED == 15)%Q) by reflexivity.
  destruct (gravity_multiplier_values p) as [Hg | Hg]; rewrite Hg in *;
    destruct He as [E1 | E1]; destruct Hp as [E2 | E2]; rewrite E1, ?E2; split; lra.
Qed.

Lemma fall_speed_is_bounded_witness :
  let q := (update 1 0 [] [] [] [] 1 (set_velocity_y 100 actor_at_bottom)).1.1.1 in
  (velocity_y q
     <= MAX_FALL_SPEED * get_powerup_effect "gravity" 1 (set_velocity_y 100 actor_at_bottom))%Q
  /\ (velocity_y q <= MAX_FALL_SPEED)%Q.
Proof.
  apply (fall_speed_is_bounded 1 0 [] [] [] [] 1 (set_velocity_y 100 actor_at_bottom)).
  reflexivity.
Defined.

End FallSpeed.

(** ** Powerup timers *)

Section PowerupTimers.
Import Player.

Lemma add_powerup_dicts powerup_type duration p k :
  active_powerups (add_powerup powerup_type duration p) !! k
  = (if decide (powerup_type = k) then Some true else active_powerups p !! k)
  /\ (powerup_type = k -> is_Some (powerup_timers (add_powerup powerup_type duration p) !! k))
  /\ (powerup_type <> k ->
      powerup_timers (add_powerup powerup_type duration p) !! k = powerup_timers p !! k).
Proof.
  unfold add_powerup.
  destruct (powerup_timers (set_active_powerups _ p) !! powerup_type) eqn:E;
    destruct (decide (powerup_type = "jump")); cbn;
    (destruct (decide (powerup_type = k)) as [->|Hne];
     [rewrite !lookup_insert_eq; repeat split; eauto; congruence
     |rewrite !lookup_insert_ne by exact Hne; repeat split; eauto; congruence]).
Qed.

Lemma step_powerup_flags k p a :
  (active_powerups p !! k = Some true <-> is_Some (powerup_timers p !! k)) ->
  active_powerups (step p a) !! k = Some true <-> is_Some (powerup_timers (step p a) !! k).
Proof.
  intros Hinv. destruct a; cbn [step].
  - destruct (jump_spec p) as (_ & Hok & Hno).
    destruct (jump p).2 eqn:E.
    + destruct (Hok eq_refl) as (_ & _ & _ & -> & ->). exact Hinv.
    + rewrite (Hno eq_refl). exact Hinv.
  - exact Hinv.
  - exact Hinv.
  - destruct (stop_horizontal_movement_frame p) as (_ & _ & _ & -> & ->). exact Hinv.
  - destruct (add_powerup_dicts powerup_type duration p k) as (Ha & Heq & Hne).
    rewrite Ha. destruct (decide (powerup_type = k)) as [E|E].
    + split; [intros _; apply Heq, E | reflexivity].
    + rewrite (Hne E). exact Hinv.
  - destruct (is_dead p) eqn:Hlive.
    { unfold update. rewrite Hlive. exact Hinv. }
    destruct (update_final_state dt now platforms portals collectibles enemies
                current_dimension p Hlive) as (_ & _ & _ & _ & _ & -> & -> & _).
    rewrite update_powerups_active, update_powerups_timers.
    destruct (powerup_timers p !! k) as [t|].
    + destruct (Qle_bool (t - dt) 0).
      * split; [discriminate | intros [? ?]; discriminate].
      * rewrite Hinv. split; eauto.
    + exact Hinv.
Qed.

Lemma run_powerup_flags k actions p :
  (active_powerups p !! k = Some true <-> is_Some (powerup_timers p !! k)) ->
  active_powerups (run actions p) !! k = Some true
  <-> is_Some (powerup_timers (run actions p) !! k).
Proof.
  revert p. induction actions as [|a actions IH]; intros p Hp; [exact Hp|].
  apply IH, step_powerup_flags, Hp.
Qed.

(** X10: Along every session from a reset, and for every powerup type, the
    powerup is flagged active exactly while it has a timer; a type without a
    timer has no effect. *)
Theorem powerup_flags_follow_timers (actions : list action) (x0 y0 now : Q)
    (k : string) (default_value : Q) :
  let p := run actions (reset x0 y0 now) in
  (active_powerups p !! k = Some true <-> is_Some (powerup_timers p !! k))
  /\ (powerup_timers p !! k = None -> get_powerup_effect k default_value p = default_value).
Proof.
  cbv zeta.
  assert (Hinv : active_powerups (run actions (reset x0 y0 now)) !! k = Some true
                 <-> is_Some (powerup_timers (run actions (reset x0 y0 now)) !! k)).
  { apply run_powerup_flags. cbn. rewrite !lookup_empty.
    split; [discriminate | intros [? ?]; discriminate]. }
  split; [exact Hinv|].
  intros Hnone. unfold get_powerup_effect.
  destruct (active_powerups _ !! k) as [[]|] eqn:E; try reflexivity.
  apply proj1 in Hinv. specialize (Hinv eq_refl). rewrite Hnone in Hinv.
  destruct Hinv; discriminate.
Qed.

End PowerupTimers.

(** ** Collectibles and powerup pick-ups *)

Section PickUps.
Import Player.

(** X11: Collecting is one-way and happens once: the call keeps the list's
    length and every object's place, a collected object stays collected, the
    flag returned says that some object was newly collected, every
    uncollected object that the actor touches is collected (the loop does
    not stop at the first), and a second call at the same position collects
    nothing and reports nothing. *)
Theorem check_collectible_collisions_once (collectibles : list Collectible)
    (p : Player.t) :
  let '(collectibles', flag) := check_collectible_collisions collectibles p in
  let touches (c : Collectible) :=
    colliderect (get_rect p) (GameObject_get_rect (cobj c)) in
  length collectibles' = length collectibles
  /\ (forall i c, collectibles !! i = Some c ->
        exists c', collectibles' !! i = Some c'
          /\ cobj c' = cobj c
          /\ collected c' = collected c || touches c)
  /\ (flag = true <->
      exists c, c ∈ collectibles /\ collected c = false /\ touches c = true)
  /\ check_collectible_collisions collectibles' p = (collectibles', false).
Proof.
  unfold check_collectible_collisions. cbv zeta.
  set (hit := λ c : Collectible,
        negb (collected c) && colliderect (get_rect p) (GameObject_get_rect (cobj c))).
  set (mark := λ c : Collectible, if hit c then mkCollectible (cobj c) true else c).
  split; [apply length_map|]. split; [|split].
  - intros i c Hc. exists (mark c). split.
    + change (map mark collectibles) with (mark <$> collectibles).
      rewrite list_lookup_fmap, Hc. reflexivity.
    + unfold mark, hit. destruct (collected c) eqn:E; cbn [negb andb orb].
      * split; [reflexivity | exact E].
      * destruct (colliderect _ _); split; try reflexivity. exact E.
  - rewrite existsb_exists. split.
    + intros (c & Hin & Hc). exists c. apply andb_true_iff in Hc as [Hn Ht].
      apply negb_true_iff in Hn. repeat split; try assumption.
      apply list_elem_of_In, Hin.
    + intros (c & Hin & Hn & Ht). exists c. split; [apply list_elem_of_In, Hin|].
      unfold hit. rewrite Hn, Ht. reflexivity.
  - assert (Hno : forall c, hit (mark c) = false).
    { intros c. unfold mark. destruct (hit c) eqn:E; [reflexivity | exact E]. }
    f_equal.
    + rewrite map_map. apply map_ext. intros c.
      assert (Hm : mark (mark c)
                   = if hit (mark c) then mkCollectible (cobj (mark c)) true else mark c)
        by reflexivity.
      change (mark (mark c) = mark c). rewrite Hm, Hno. reflexivity.
    + apply not_true_iff_false. rewrite existsb_exists. intros (c & Hin & Hc).
      apply in_map_iff in Hin as (c0 & <- & _).
      change (hit (mark c0) = true) in Hc. rewrite Hno in Hc. discriminate.
Qed.

(** X12: The powerup loop of the world.  It collects at most one powerup per
    call: the first in list order that is in the active dimension (or in
    all), not yet collected and touched by the actor.  That one is marked
    collected and its type and duration go to [add_powerup]; every other
    powerup, touched or not, stays as it was.  If there is none, nothing
    changes and the call reports no pick-up. *)
Theorem check_player_powerup_collisions_first (powerups : list PowerupItem.t)
    (current_dimension : Z) (p : Player.t) :
  let '(p', powerups', (powerup_collected, powerup_type)) :=
    PowerupItem.check_player_powerup_collisions powerups current_dimension p in
  let collectable := PowerupItem.collectable (get_rect p) current_dimension in
  match powerup_type with
  | Some ty =>
      powerup_collected = true
      /\ exists before w after,
           powerups = before ++ w :: after
           /\ Forall (λ v, collectable v = false) before
           /\ collectable w = true
           /\ ty = PowerupItem.powerup_type w
           /\ powerups' = before ++ PowerupItem.collect w :: after
           /\ p' = add_powerup (PowerupItem.powerup_type w) (PowerupItem.duration w) p
  | None =>
      powerup_collected = false
      /\ Forall (λ v, collectable v = false) powerups
      /\ powerups' = powerups /\ p' = p
  end.
Proof.
  unfold PowerupItem.check_player_powerup_collisions.
  generalize (get_rect p) as rect. intros rect.
  induction powerups as [|w rest IH]; cbn [PowerupItem.collect_first].
  { cbn. repeat split. constructor. }
  destruct (PowerupItem.collect_first rect current_dimension rest p) as [[p' rest'] r].
  cbv zeta in IH |- *.
  assert (Hskip : PowerupItem.collectable rect current_dimension w = false ->
    match r with
    | Some ty =>
        bool_decide (is_Some r) = true
        /\ exists before w0 after,
             w :: rest = before ++ w0 :: after
             /\ Forall (λ v, PowerupItem.collectable rect current_dimension v = false) before
             /\ PowerupItem.collectable rect current_dimension w0 = true
             /\ ty = PowerupItem.powerup_type w0
             /\ w :: rest' = before ++ PowerupItem.collect w0 :: after
             /\ p' = add_powerup (PowerupItem.powerup_type w0) (PowerupItem.duration w0) p
    | None =>
        bool_decide (is_Some r) = false
        /\ Forall (λ v, PowerupItem.collectable rect current_dimension v = false) (w :: rest)
        /\ w :: rest' = w :: rest /\ p' = p
    end).
  { intros Hw. destruct r as [ty|].
    - destruct IH as (Hb & before & w0 & after & -> & Hall & Hc & -> & -> & ->).
      split; [exact Hb|]. exists (w :: before), w0, after.
      repeat split; try assumption. constructor; assumption.
    - destruct IH as (Hb & Hall & -> & ->).
      repeat split; try assumption. constructor; assumption. }
  destruct (negb (PowerupItem.dimension_visible w =? -1)
            && negb (PowerupItem.dimension_visible w =? current_dimension)) eqn:Hdim.
  { apply Hskip. unfold PowerupItem.collectable. rewrite Hdim. reflexivity. }
  destruct (negb (PowerupItem.collected w)
            && colliderect rect (GameObject_get_rect (PowerupItem.obj w))) eqn:Hc.
  2:{ apply Hskip. unfold PowerupItem.collectable. rewrite Hdim. cbn [negb andb].
      exact Hc. }
  split; [reflexivity|]. exists [], w, rest.
  repeat split; try constructor.
  unfold PowerupItem.collectable. rewrite Hdim. cbn [negb andb]. exact Hc.
Qed.

End PickUps.

(** ** The particle pool over the frames of a game *)

Section PoolFrames.
Import World View.

(** X13: A spawn into a pool with a free slot writes one row, at the index of
    the former active count, and counts it.  Whatever was drawn, the row is
    on the screen, its size is within 1..10, its velocities within -5..5, its
    lifetime within 0.1..10, and its colour index is 0, 1 or 2.  No other row
    changes. *)
Theorem spawn_writes_one_safe_row (dimension : Z) (player_x player_y : Q) (d : draws)
    (w : World.t) :
  well_formed w -> active_particles w < particle_pool_size w ->
  let w' := _add_dimension_particle dimension player_x player_y d w in
  active_particles w' = active_particles w + 1
  /\ (exists q c,
        foreground_particles w' !! Z.to_nat (active_particles w) = Some q
        /\ (0 <= px q <= inject_Z SCREEN_WIDTH)%Q
        /\ (0 <= py q <= inject_Z SCREEN_HEIGHT)%Q
        /\ (1 <= size q <= 10)%Q
        /\ (-5 <= vx q <= 5)%Q /\ (-5 <= vy q <= 5)%Q
        /\ (0.1 <= lifetime q <= 10)%Q
        /\ color_index q = inject_Z c /\ 0 <= c <= 2)
  /\ (forall i, i <> Z.to_nat (active_particles w) ->
        foreground_particles w' !! i = foreground_particles w !! i).
Proof.
  intros (Hcap & Hlen & Hlo & Hhi) Hfree w'. subst w'.
  unfold _add_dimension_particle.
  rewrite Z.geb_leb.
  destruct (particle_pool_size w <=? active_particles w) eqn:E;
    [apply Z.leb_le in E; exfalso; lia|].
  unfold set_row. rewrite Hlen.
  destruct (0 <=? active_particles w) eqn:E1; [|apply Z.leb_gt in E1; exfalso; lia].
  destruct (active_particles w <? particle_pool_size w) eqn:E2;
    [|apply Z.ltb_ge in E2; exfalso; lia].
  cbn [andb active_particles foreground_particles].
  split; [reflexivity|]. split.
  - eexists _, _. split.
    + apply list_lookup_insert_eq. lia.
    + cbn [px py size vx vy lifetime color_index].
      do 6 (split; [apply pymax_pymin_bounds; vm_compute; discriminate|]).
      split; [reflexivity | lia].
  - intros i Hi. apply list_lookup_insert_ne. congruence.
Qed.

Lemma spawn_writes_one_safe_row_witness :
  active_particles (_add_dimension_particle 2 640 360 some_draws small_pool)
  = active_particles small_pool + 1.
Proof.
  apply (spawn_writes_one_safe_row 2 640 360 some_draws small_pool).
  - repeat split; vm_compute; congruence.
  - reflexivity.
Defined.

(** The aging and compaction block on a well-formed pool, in terms of the
    active rows. *)
Lemma update_foreground_particles_rows (dt : Q) (w : World.t) :
  well_formed w ->
  exists w',
    update_foreground_particles dt w = Some w'
    /\ active_rows w' = filter (λ q, is_live_particle q = true) (age dt <$> active_rows w)
    /\ well_formed w'.
Proof.
  intros (Hcap & Hlen & Hlo & Hhi). unfold active_rows.
  set (n := Z.to_nat (active_particles w)).
  set (aged := age dt <$> take n (foreground_particles w)).
  set (survivors := filter (λ q, is_live_particle q = true) aged).
  assert (Hn : (n <= length (foreground_particles w))%nat) by lia.
  assert (Haged : length aged = n).
  { unfold aged. rewrite length_fmap, length_take_le; [reflexivity | exact Hn]. }
  pose proof (dead_live_partition aged) as Hpart. fold survivors in Hpart.
  assert (Hpool : length (aged ++ drop n (foreground_particles w))
                  = length (foreground_particles w)).
  { rewrite length_app, Haged, length_drop. lia. }
  cut (exists w',
    update_foreground_particles dt w = Some w'
    /\ take (Z.to_nat (active_particles w')) (foreground_particles w') = survivors
    /\ active_particles w' = Z.of_nat (length survivors)
    /\ length (foreground_particles w') = length (foreground_particles w)
    /\ particle_pool_size w' = particle_pool_size w).
  { intros (w' & Hr & Htake & Hact & Hlen' & Hcap'). exists w'.
    split; [exact Hr|]. split; [exact Htake|].
    repeat split; try rewrite Hcap'; try (rewrite Hlen'; exact Hlen);
      try congruence; lia. }
  unfold update_foreground_particles. fold n aged survivors.
  destruct (0 <? active_particles w) eqn:Hpos.
  - set (dead := length (filter (λ q, is_dead_particle q = true) aged)) in *.
    destruct (0 <? Z.of_nat dead) eqn:Hdead.
    + apply Z.ltb_lt in Hdead.
      assert (Hsurv : active_particles w - Z.of_nat dead = Z.of_nat (length survivors)) by lia.
      destruct (0 <? active_particles w - Z.of_nat dead) eqn:Hleft.
      * apply Z.ltb_lt in Hleft. unfold assign_prefix.
        rewrite Hsurv, Nat2Z.id.
        rewrite length_take_le by lia.
        rewrite decide_True by reflexivity. simpl.
        eexists; split; [reflexivity|]; simpl.
        rewrite Nat2Z.id, take_app_length, length_app, length_drop.
        repeat split; lia.
      * apply Z.ltb_ge in Hleft.
        assert (Hnil : length survivors = 0%nat) by lia.
        eexists; split; [reflexivity|]; simpl.
        rewrite Hsurv, Hnil. simpl.
        destruct survivors; [|discriminate]. repeat split; try done.
    + apply Z.ltb_ge in Hdead.
      assert (Hnone : dead = 0%nat) by lia.
      eexists; split; [reflexivity|]; simpl. fold n.
      unfold survivors. rewrite (no_dead_all_live aged Hnone).
      rewrite <- Haged at 1. rewrite take_app_length.
      repeat split; try done. lia.
  - apply Z.ltb_ge in Hpos.
    assert (Hz : n = 0%nat) by lia.
    eexists; split; [reflexivity|].
    unfold survivors, aged. rewrite Hz. simpl.
    replace (active_particles w) with 0 by lia. done.
Qed.

(** A spawn keeps the pool well formed and its active rows alive. *)
Lemma spawn_keeps_rows_alive (dimension : Z) (player_x player_y : Q) (d : draws)
    (w : World.t) :
  well_formed w -> Forall (λ q, (0 < lifetime q)%Q) (active_rows w) ->
  let w' := _add_dimension_particle dimension player_x player_y d w in
  well_formed w' /\ Forall (λ q, (0 < lifetime q)%Q) (active_rows w').
Proof.
  intros Hwf Hlive w'. subst w'.
  destruct (Z.lt_ge_cases (active_particles w) (particle_pool_size w)) as [Hfree | Hfull].
  - destruct (spawn_on_free_slot dimension player_x player_y d w Hwf Hfree)
      as (_ & _ & Hwf').
    split; [exact Hwf'|].
    destruct Hwf as (Hcap & Hlen & Hlo & Hhi).
    revert Hlive. unfold active_rows, _add_dimension_particle.
    rewrite Z.geb_leb.
    destruct (particle_pool_size w <=? active_particles w) eqn:E;
      [apply Z.leb_le in E; exfalso; lia|].
    unfold set_row. rewrite Hlen.
    destruct (0 <=? active_particles w) eqn:E1; [|apply Z.leb_gt in E1; exfalso; lia].
    destruct (active_particles w <? particle_pool_size w) eqn:E2;
      [|apply Z.ltb_ge in E2; exfalso; lia].
    cbn [andb active_particles foreground_particles]. intros Hlive.
    replace (Z.to_nat (active_particles w + 1))
      with (S (Z.to_nat (active_particles w))) by lia.
    erewrite take_S_r; [|apply list_lookup_insert_eq; lia].
    rewrite take_insert_ge by lia.
    apply Forall_app. split; [exact Hlive|].
    constructor; [|constructor]. cbn [lifetime].
    assert (Hb : (0.1 <= pymax (pymin (drawn_life d) 10) 0.1 <= 10)%Q)
      by (apply pymax_pymin_bounds; unfold Qle; cbn; lia).
    lra.
  - unfold _add_dimension_particle. rewrite Z.geb_leb.
    destruct (particle_pool_size w <=? active_particles w) eqn:E;
      [|apply Z.leb_gt in E; exfalso; lia].
    split; assumption.
Qed.

Lemma particle_frame_keeps_rows_alive f (w : World.t) :
  well_formed w ->
  exists w', particle_frame w f = Some w'
    /\ well_formed w' /\ Forall (λ q, (0 < lifetime q)%Q) (active_rows w').
Proof.
  intros Hwf. unfold particle_frame.
  destruct (update_foreground_particles_rows f.1 w Hwf) as (w1 & -> & Hrows & Hwf1).
  assert (Hlive : Forall (λ q, (0 < lifetime q)%Q) (active_rows w1))
    by (rewrite Hrows; apply survivors_live).
  cbn. destruct f.2 as [[[[dimension player_x] player_y] d]|].
  - eexists. split; [reflexivity|]. apply spawn_keeps_rows_alive; assumption.
  - eexists. split; [reflexivity|]. split; assumption.
Qed.

(** X14: From a fresh world, the particle blocks of [World.update] never raise,
    over any number of frames, whatever the steps and the draws: the pool
    keeps its 300 rows, the active count stays within 0..300, and every
    active row has a positive lifetime. *)
Theorem particle_frames_never_fail
    (frames : list (Q * option (Z * Q * Q * draws))) :
  exists w,
    particle_frames frames World.new = Some w
    /\ well_formed w
    /\ 0 <= active_particles w <= 300
    /\ Forall (λ q, (0 < lifetime q)%Q) (active_rows w).
Proof.
  assert (Hgen : forall w0, well_formed w0 ->
            Forall (λ q, (0 < lifetime q)%Q) (active_rows w0) ->
            exists w, particle_frames frames w0 = Some w
              /\ well_formed w /\ Forall (λ q, (0 < lifetime q)%Q) (active_rows w)).
  { induction frames as [|f frames IH]; intros w0 Hwf Hlive.
    - exists w0. split; [reflexivity | split; assumption].
    - cbn [particle_frames].
      destruct (particle_frame_keeps_rows_alive f w0 Hwf) as (w1 & -> & Hwf1 & Hlive1).
      cbn. apply IH; assumption. }
  destruct (Hgen World.new) as (w & Hr & Hwf & Hlive).
  - repeat split; vm_compute; congruence.
  - constructor.
  - exists w. split; [exact Hr|]. split; [exact Hwf|]. split; [|exact Hlive].
    destruct Hwf as (Hcap & _ & Hb). rewrite <- Hcap. exact Hb.
Qed.

End PoolFrames.

(** ** The camera *)

Section CameraBounds.
Import Camera View.

(** X15: In a world at least as large as the screen the camera target is
    clamped so that the view it asks for lies inside the world, wherever the
    actor is; and with a smoothing factor [0.1 * dt * 60] between 0 and 1 a
    camera that was inside these bounds stays inside them. *)
Theorem camera_view_stays_in_world (dt player_x player_y : Q) (c : Camera.t) :
  SCREEN_WIDTH <= world_width c -> SCREEN_HEIGHT <= world_height c ->
  let c' := update dt player_x player_y c in
  let max_x := inject_Z (world_width c - SCREEN_WIDTH) in
  let max_y := inject_Z (world_height c - SCREEN_HEIGHT) in
  (0 <= camera_target_x c' <= max_x)%Q /\ (0 <= camera_target_y c' <= max_y)%Q
  /\ world_width c' = world_width c /\ world_height c' = world_height c
  /\ ((0 <= 0.1 * dt * 60 <= 1)%Q ->
      (0 <= camera_x c <= max_x)%Q -> (0 <= camera_y c <= max_y)%Q ->
      (0 <= camera_x c' <= max_x)%Q /\ (0 <= camera_y c' <= max_y)%Q).
Proof.
  intros Hw Hh c' max_x max_y. subst c'. unfold update.
  cbn [camera_x camera_y camera_target_x camera_target_y world_width world_height].
  assert (Hmx : (0 <= max_x)%Q).
  { subst max_x. change 0%Q with (inject_Z 0). rewrite <- Zle_Qle. lia. }
  assert (Hmy : (0 <= max_y)%Q).
  { subst max_y. change 0%Q with (inject_Z 0). rewrite <- Zle_Qle. lia. }
  pose proof (clamp_bounds (player_x - inject_Z (SCREEN_WIDTH / 2)) max_x Hmx) as Hx.
  pose proof (clamp_bounds (player_y - inject_Z (SCREEN_HEIGHT / 2)) max_y Hmy) as Hy.
  fold max_x max_y.
  set (tx := pymax 0 (pymin (player_x - inject_Z (SCREEN_WIDTH / 2)) max_x)) in *.
  set (ty := pymax 0 (pymin (player_y - inject_Z (SCREEN_HEIGHT / 2)) max_y)) in *.
  split; [exact Hx|]. split; [exact Hy|]. split; [reflexivity|]. split; [reflexivity|].
  set (k := (0.1 * dt * 60)%Q). intros Hk Hcx Hcy.
  assert (Hconv : forall a b m : Q, (0 <= a <= m)%Q -> (0 <= b <= m)%Q ->
                    (0 <= a + (b - a) * k <= m)%Q).
  { intros a b m Ha Hb.
    assert (E : (a + (b - a) * k == (1 - k) * a + k * b)%Q) by ring.
    rewrite E.
    assert (H1 : (0 <= (1 - k) * a)%Q) by (apply Qmult_le_0_compat; lra).
    assert (H2 : (0 <= k * b)%Q) by (apply Qmult_le_0_compat; lra).
    assert (H3 : (0 <= (1 - k) * (m - a))%Q) by (apply Qmult_le_0_compat; lra).
    assert (H4 : (0 <= k * (m - b))%Q) by (apply Qmult_le_0_compat; lra).
    split; [lra|].
    assert (E2 : (m - ((1 - k) * a + k * b) == (1 - k) * (m - a) + k * (m - b))%Q) by ring.
    lra. }
  split; apply Hconv; assumption.
Qed.

Lemma camera_view_stays_in_world_witness :
  let c := Camera.mk 100 0 0 0 3000 720 in
  let c' := update 0.1 2000 300 c in
  (0 <= camera_target_x c' <= inject_Z (3000 - SCREEN_WIDTH))%Q.
Proof.
  assert (Hw : SCREEN_WIDTH <= 3000) by (unfold SCREEN_WIDTH; lia).
  assert (Hh : SCREEN_HEIGHT <= 720) by (unfold SCREEN_HEIGHT; lia).
  exact (proj1 (camera_view_stays_in_world 0.1 2000 300 (Camera.mk 100 0 0 0 3000 720)
                  Hw Hh)).
Defined.

Lemma camera_update_at_rest dt player_x player_y c :
  world_width c = SCREEN_WIDTH -> world_height c = SCREEN_HEIGHT ->
  (camera_x c == 0)%Q -> (camera_y c == 0)%Q ->
  let c' := update dt player_x player_y c in
  world_width c' = SCREEN_WIDTH /\ world_height c' = SCREEN_HEIGHT
  /\ (camera_x c' == 0)%Q /\ (camera_y c' == 0)%Q
  /\ (camera_target_x c' == 0)%Q /\ (camera_target_y c' == 0)%Q.
Proof.
  intros Hw Hh Hx Hy c'. subst c'. unfold update.
  cbn [camera_x camera_y camera_target_x camera_target_y world_width world_height].
  rewrite Hw, Hh, !Z.sub_diag.
  pose proof (clamp_bounds (player_x - inject_Z (SCREEN_WIDTH / 2)) (inject_Z 0)) as Bx.
  pose proof (clamp_bounds (player_y - inject_Z (SCREEN_HEIGHT / 2)) (inject_Z 0)) as By.
  assert (H0 : (0 <= inject_Z 0)%Q) by apply Qle_refl.
  specialize (Bx H0). specialize (By H0).
  assert (Z0 : (inject_Z 0 == 0)%Q) by reflexivity.
  set (tx := pymax 0 (pymin (player_x - inject_Z (SCREEN_WIDTH / 2)) (inject_Z 0))) in *.
  set (ty := pymax 0 (pymin (player_y - inject_Z (SCREEN_HEIGHT / 2)) (inject_Z 0))) in *.
  assert (Etx : (tx == 0)%Q) by lra.
  assert (Ety : (ty == 0)%Q) by lra.
  repeat split; try assumption.
  - rewrite Hx, Etx. ring.
  - rewrite Hy, Ety. ring.
Qed.

(** X16: The world is as wide and as high as the screen when it is built and
    nothing changes that, so the camera of the game never leaves the origin:
    after any number of frames, whatever the steps and wherever the actor is,
    the camera and its target are at (0, 0). *)
Theorem camera_never_scrolls (frames : list (Q * Q * Q)) :
  let c := camera_frames frames Camera.new in
  (camera_x c == 0)%Q /\ (camera_y c == 0)%Q
  /\ (camera_target_x c == 0)%Q /\ (camera_target_y c == 0)%Q.
Proof.
  cbv zeta.
  assert (Hgen : forall c0,
            world_width c0 = SCREEN_WIDTH /\ world_height c0 = SCREEN_HEIGHT
            /\ (camera_x c0 == 0)%Q /\ (camera_y c0 == 0)%Q
            /\ (camera_target_x c0 == 0)%Q /\ (camera_target_y c0 == 0)%Q ->
            let c := camera_frames frames c0 in
            world_width c = SCREEN_WIDTH /\ world_height c = SCREEN_HEIGHT
            /\ (camera_x c == 0)%Q /\ (camera_y c == 0)%Q
            /\ (camera_target_x c == 0)%Q /\ (camera_target_y c == 0)%Q).
  { induction frames as [|f frames IH]; intros c0 H0; [exact H0|].
    unfold camera_frames. cbn [fold_left]. apply IH.
    destruct H0 as (Hw & Hh & Hx & Hy & _).
    apply camera_update_at_rest; assumption. }
  apply (Hgen Camera.new). repeat split; reflexivity.
Qed.

End CameraBounds.

(** ** Culling *)

Section Culling.
Import View.

(** X17: Culling keeps every rectangle that reaches the screen: an object of
    non-negative size whose own rectangle, at the position shifted by the
    camera offset, overlaps the screen passes the visibility test.  The
    test looks at the rectangle alone; what an entity draws outside its
    rectangle is not covered. *)
Theorem overlapping_rect_passes_culling (obj : GameObject) (camera_x camera_y : Z) :
  (0 <= owidth obj)%Q -> (0 <= oheight obj)%Q ->
  colliderect (shifted_rect obj camera_x camera_y) screen = true ->
  _is_visible obj camera_x camera_y = true.
Proof.
  intros Hw Hh Hcol. unfold _is_visible. cbv zeta.
  set (sx := (ox obj - inject_Z camera_x)%Q) in *.
  set (sy := (oy obj - inject_Z camera_y)%Q) in *.
  unfold colliderect, shifted_rect, GameObject_get_rect, Rect_of, screen in Hcol.
  cbn [rx ry rw rh ox oy owidth oheight] in Hcol. fold sx sy in Hcol.
  destruct (_ || _ || _ || _) in Hcol; [discriminate|].
  apply andb_true_iff in Hcol as [Hcol H4].
  apply andb_true_iff in Hcol as [Hcol H3].
  apply andb_true_iff in Hcol as [H1 H2].
  apply Z.ltb_lt in H1, H2, H3, H4.
  destruct (trunc_bounds sx) as (Hx1 & Hx2 & _).
  destruct (trunc_bounds sy) as (Hy1 & Hy2 & _).
  destruct (trunc_bounds (owidth obj)) as (_ & _ & Hw').
  destruct (trunc_bounds (oheight obj)) as (_ & _ & Hh').
  specialize (Hw' Hw). specialize (Hh' Hh).
  assert (Htw : 0 <= trunc (owidth obj)).
  { unfold trunc. apply Z.quot_pos; [|lia]. unfold Qle in Hw. cbn in Hw. lia. }
  assert (Hth : 0 <= trunc (oheight obj)).
  { unfold trunc. apply Z.quot_pos; [|lia]. unfold Qle in Hh. cbn in Hh. lia. }
  unfold SCREEN_WIDTH, SCREEN_HEIGHT in *.
  assert (A1 : trunc sx < 1280) by lia.
  assert (A2 : trunc sy < 720) by lia.
  assert (A3 : 1 <= trunc sx + trunc (owidth obj)) by lia.
  assert (A4 : 1 <= trunc sy + trunc (oheight obj)) by lia.
  rewrite Zle_Qle in A3, A4.
  rewrite inject_Z_plus in A3, A4.
  assert (E1 : (inject_Z 1 == 1)%Q) by reflexivity.
  destruct (Qltb (sx + owidth obj) 0) eqn:B1; [apply Qltb_lt in B1; lra|].
  destruct (Qltb (inject_Z 1280) sx) eqn:B2.
  { apply Qltb_lt in B2. exfalso.
    assert (inject_Z 1279 < inject_Z (trunc sx))%Q.
    { assert (E : (inject_Z 1279 == inject_Z 1280 - 1)%Q) by reflexivity. lra. }
    rewrite <- Zlt_Qlt in H. lia. }
  destruct (Qltb (sy + oheight obj) 0) eqn:B3; [apply Qltb_lt in B3; lra|].
  destruct (Qltb (inject_Z 720) sy) eqn:B4.
  { apply Qltb_lt in B4. exfalso.
    assert (inject_Z 719 < inject_Z (trunc sy))%Q.
    { assert (E : (inject_Z 719 == inject_Z 720 - 1)%Q) by reflexivity. lra. }
    rewrite <- Zlt_Qlt in H. lia. }
  reflexivity.
Qed.

Lemma overlapping_rect_passes_culling_witness :
  _is_visible (mkObj 300 550 200 20) 0 0 = true.
Proof.
  apply (overlapping_rect_passes_culling (mkObj 300 550 200 20) 0 0);
    vm_compute; congruence.
Defined.

End Culling.

(** ** Interpolation *)

Section Interpolation.
Import Noise.

Lemma lerp_between (a b s lo hi : Q) :
  (lo <= a <= hi)%Q -> (lo <= b <= hi)%Q -> (0 <= s <= 1)%Q ->
  (lo <= lerp a b s <= hi)%Q.
Proof.
  intros Ha Hb Hs. unfold lerp.
  assert (H1 : (0 <= (1 - s) * (a - lo))%Q) by (apply Qmult_le_0_compat; lra).
  assert (H2 : (0 <= s * (b - lo))%Q) by (apply Qmult_le_0_compat; lra).
  assert (H3 : (0 <= (1 - s) * (hi - a))%Q) by (apply Qmult_le_0_compat; lra).
  assert (H4 : (0 <= s * (hi - b))%Q) by (apply Qmult_le_0_compat; lra).
  assert (E1 : (a + s * (b - a) - lo == (1 - s) * (a - lo) + s * (b - lo))%Q) by ring.
  assert (E2 : (hi - (a + s * (b - a)) == (1 - s) * (hi - a) + s * (hi - b))%Q) by ring.
  lra.
Qed.

Lemma Qfloor_fraction (x : Q) : (0 <= x - inject_Z (Qfloor x) <= 1)%Q.
Proof.
  pose proof (Qfloor_le x). pose proof (Qlt_floor x) as Hlt.
  rewrite inject_Z_plus in Hlt.
  assert (E : (inject_Z 1 == 1)%Q) by reflexivity. lra.
Qed.

Lemma Qfloor_unique (v : Q) (z : Z) :
  (inject_Z z <= v)%Q -> (v < inject_Z (z + 1))%Q -> Qfloor v = z.
Proof.
  intros Hlo Hhi. apply Z.le_antisymm.
  - destruct (Z.le_gt_cases (Qfloor v) z) as [H | H]; [exact H | exfalso].
    assert (H1 : z + 1 <= Qfloor v) by lia.
    rewrite Zle_Qle in H1. pose proof (Qfloor_le v). lra.
  - rewrite <- (Qfloor_Z z). apply Qfloor_resp_le, Hlo.
Qed.

Lemma Qfloor_shift (v : Q) (k : Z) : Qfloor (v + inject_Z k) = Qfloor v + k.
Proof.
  apply Qfloor_unique.
  - rewrite inject_Z_plus. pose proof (Qfloor_le v). lra.
  - rewrite <- Z.add_assoc, (Z.add_comm k 1), Z.add_assoc, inject_Z_plus.
    pose proof (Qlt_floor v). lra.
Qed.

(** X18: With corner values between 0 and 1, as [random.random] draws them, the
    noise value is between 0 and 1 at every point, as the docstring says.
    The corner values depend on the seed alone, so the noise is the same in
    every grid cell: moving the point by whole cells does not change it. *)
Theorem perlin_noise_range (x y n00 n10 n01 n11 : Q) (i j : Z) :
  (0 <= n00 <= 1)%Q -> (0 <= n10 <= 1)%Q -> (0 <= n01 <= 1)%Q -> (0 <= n11 <= 1)%Q ->
  (0 <= perlin_noise x y n00 n10 n01 n11 <= 1)%Q
  /\ (perlin_noise (x + inject_Z i) (y + inject_Z j) n00 n10 n01 n11
      == perlin_noise x y n00 n10 n01 n11)%Q.
Proof.
  intros H00 H10 H01 H11. split.
  - unfold perlin_noise. cbv zeta.
    pose proof (Qfloor_fraction x) as Hsx. pose proof (Qfloor_fraction y) as Hsy.
    apply lerp_between; [apply lerp_between; assumption ..|assumption].
  - unfold perlin_noise, lerp. cbv zeta. rewrite !Qfloor_shift, !inject_Z_plus. ring.
Qed.

Lemma perlin_noise_range_witness :
  (0 <= perlin_noise 2.5 (-0.25) 0.25 0.5 0.75 1 <= 1)%Q.
Proof.
  apply (perlin_noise_range 2.5 (-0.25) 0.25 0.5 0.75 1 0 0);
    split; vm_compute; discriminate.
Defined.

End Interpolation.

(** ** The side test *)

Section SideTest.

Lemma colliderect_sym (a b : Rect) : colliderect a b = colliderect b a.
Proof.
  unfold colliderect.
  destruct (rw a =? 0), (rh a =? 0), (rw b =? 0), (rh b =? 0); cbn; try reflexivity.
  destruct (_ <? _), (_ <? _), (_ <? _), (_ <? _); reflexivity.
Qed.

(** X19: The side test answers a side exactly for rectangles that collide, and
    its answer is relative to the first rectangle: with the arguments
    swapped the answer is the opposite side, except when the two centres
    tie on the axis of the answer, where both orders answer "top"
    (respectively "left"). *)
Theorem check_collision_swapped (rect1 rect2 : Rect) :
  (check_collision rect1 rect2 = NoSide <-> colliderect rect1 rect2 = false)
  /\ match check_collision rect1 rect2 with
     | NoSide => check_collision rect2 rect1 = NoSide
     | Bottom => check_collision rect2 rect1 = Top
     | Right => check_collision rect2 rect1 = Left
     | Top =>
         (check_collision rect2 rect1 = Bottom /\ centery rect2 < centery rect1)
         \/ (check_collision rect2 rect1 = Top /\ centery rect1 = centery rect2)
     | Left =>
         (check_collision rect2 rect1 = Right /\ centerx rect2 < centerx rect1)
         \/ (check_collision rect2 rect1 = Left /\ centerx rect1 = centerx rect2)
     end.
Proof.
  unfold check_collision. rewrite (colliderect_sym rect2 rect1).
  destruct (colliderect rect1 rect2); cbn [negb].
  2:{ split; [split; reflexivity | reflexivity]. }
  cbv zeta.
  replace (Z.min (right rect2) (right rect1) - Z.max (left rect2) (left rect1))
    with (Z.min (right rect1) (right rect2) - Z.max (left rect1) (left rect2)) by lia.
  replace (Z.min (bottom rect2) (bottom rect1) - Z.max (top rect2) (top rect1))
    with (Z.min (bottom rect1) (bottom rect2) - Z.max (top rect1) (top rect2)) by lia.
  destruct (_ >=? _).
  - destruct (centery rect1 <? centery rect2) eqn:E1;
      destruct (centery rect2 <? centery rect1) eqn:E2;
      try apply Z.ltb_lt in E1; try apply Z.ltb_lt in E2;
      try apply Z.ltb_ge in E1; try apply Z.ltb_ge in E2;
      (split; [split; discriminate|]); try reflexivity; try (exfalso; lia).
    + left. split; [reflexivity | lia].
    + right. split; [reflexivity | lia].
  - destruct (centerx rect1 <? centerx rect2) eqn:E1;
      destruct (centerx rect2 <? centerx rect1) eqn:E2;
      try apply Z.ltb_lt in E1; try apply Z.ltb_lt in E2;
      try apply Z.ltb_ge in E1; try apply Z.ltb_ge in E2;
      (split; [split; discriminate|]); try reflexivity; try (exfalso; lia).
    + left. split; [reflexivity | lia].
    + right. split; [reflexivity | lia].
Qed.

End SideTest.

(** ** The jump *)

Section JumpVelocity.
Import Player.

Lemma jump_multiplier_values p :
  get_powerup_effect "jump" 1 p = 1%Q \/ get_powerup_effect "jump" 1 p = 1.3%Q.
Proof.
  unfold get_powerup_effect.
  destruct (active_powerups p !! "jump") as [[]|]; [right; reflexivity | left; reflexivity ..].
Qed.

(** X20: A jump that succeeds always sends the actor upward, at a speed between
    12.8 and 20.8 whatever the counter and the powerups; a jump in the air
    has 0.8 times the strength of a jump from the ground; a jump that fails
    leaves the velocity alone. *)
Theorem jump_launches_upward (p : Player.t) :
  let r := jump p in
  (r.2 = true ->
     (-20.8 <= velocity_y r.1 <= -12.8)%Q
     /\ (jump_count p <= 0 ->
         (velocity_y r.1 == PLAYER_JUMP_STRENGTH * get_powerup_effect "jump" 1 p)%Q)
     /\ (0 < jump_count p ->
         (velocity_y r.1 == 0.8 * (PLAYER_JUMP_STRENGTH * get_powerup_effect "jump" 1 p))%Q))
  /\ (r.2 = false -> velocity_y r.1 = velocity_y p).
Proof.
  unfold jump. destruct (jump_count p <? max_jumps p); cbn [fst snd].
  2:{ split; [discriminate | reflexivity]. }
  split; [intros _ | discriminate].
  cbn [velocity_y set_velocity_y set_jump_count set_on_ground set_animation_state].
  assert (Hj : (PLAYER_JUMP_STRENGTH == -16)%Q) by reflexivity.
  destruct (0 <? jump_count p) eqn:E;
    [apply Z.ltb_lt in E | apply Z.ltb_ge in E];
    destruct (jump_multiplier_values p) as [-> | ->];
    (split; [split; vm_compute; discriminate|]);
    (split; intros; [try (exfalso; lia) | try (exfalso; lia)]); try reflexivity.
Qed.

End JumpVelocity.

(** ** The bobbing of a powerup *)

Section Bobbing.
Import PowerupItem.



End Bobbing.

(** ** The duration of a powerup *)

Section Duration.
Import Player Countdown.







End Duration.

(** ** The levels *)

Section LevelGeneration.
Import Levels.

Lemma randint_Some (a b : Q) (drawn : Z) :
  (a <= b)%Q -> randint a b drawn = Some (inject_Z drawn).
Proof. intros H. unfold randint. apply Qle_bool_iff in H. rewrite H. reflexivity. Qed.

Lemma random_platform_drawn (level_width : Z) (d : platform_draw) :
  100 <= draw_x d <= level_width - 200 ->
  150 <= draw_y d <= SCREEN_HEIGHT - 100 ->
  100 <= draw_width d <= 250 ->
  (draw_dimension d < 3)%nat ->
  exists P, random_platform level_width d = Some P /\ drawn_platform level_width P.
Proof.
  intros Hx Hy Hw Hd. unfold random_platform.
  rewrite (randint_Some 100 (inject_Z (level_width - 200)))
    by (change 100%Q with (inject_Z 100); rewrite <- Zle_Qle; lia).
  rewrite (randint_Some 150 (inject_Z (SCREEN_HEIGHT - 100)))
    by (vm_compute; discriminate).
  rewrite (randint_Some 100 250) by (vm_compute; discriminate).
  cbn [mbind option_bind].
  assert (Hok : forall dim,
            drawn_platform level_width
              (set_dimension_visible dim
                 (Platform_new (inject_Z (draw_x d)) (inject_Z (draw_y d))
                               (inject_Z (draw_width d)) 20))).
  { intros dim. unfold drawn_platform. cbn.
    change 100%Q with (inject_Z 100). change 150%Q with (inject_Z 150).
    change 250%Q with (inject_Z 250). rewrite <- !Zle_Qle. lia. }
  destruct (Qltb (draw_gate d) 0.3).
  - destruct (draw_dimension d) as [|[|[|k]]]; cbn; try (eexists; split; [reflexivity | apply Hok]).
    exfalso. lia.
  - eexists. split; [reflexivity|]. apply (Hok (-1)).
Qed.

Lemma mapM_seq_Some {A} (f : nat -> option A) (I : A -> Prop) (s n : nat) :
  (forall i, (s <= i < s + n)%nat -> exists a, f i = Some a /\ I a) ->
  exists l, mapM f (seq s n) = Some l /\ length l = n /\ Forall I l.
Proof.
  revert s. induction n as [|n IH]; intros s Hf.
  - exists []. repeat split. constructor.
  - destruct (Hf s) as (a & Ha & Ia); [lia|].
    destruct (IH (S s)) as (l & Hl & Hlen & HI); [intros i Hi; apply Hf; lia|].
    exists (a :: l). cbn [seq mapM]. rewrite Ha, Hl. cbn.
    split; [reflexivity|]. split; [congruence|]. constructor; assumption.
Qed.

Lemma insert_by_y_Forall (I : Platform -> Prop) P l :
  I P -> Forall I l -> Forall I (insert_by_y P l).
Proof.
  intros HP Hl. induction Hl as [|Q l HQ Hl IH]; cbn.
  - constructor; [exact HP | constructor].
  - destruct (Qle_bool _ _); repeat constructor; assumption.
Qed.

Lemma length_insert_by_y P l : length (insert_by_y P l) = S (length l).
Proof.
  induction l as [|Q l IH]; cbn; [reflexivity|].
  destruct (Qle_bool _ _); cbn; congruence.
Qed.

Lemma insert_by_y_sorted P l :
  StronglySorted (λ A B, (oy (pobj A) <= oy (pobj B))%Q) l ->
  StronglySorted (λ A B, (oy (pobj A) <= oy (pobj B))%Q) (insert_by_y P l).
Proof.
  intros Hl. induction Hl as [|Q l Hl IH HQ]; cbn.
  - repeat constructor.
  - destruct (Qle_bool (oy (pobj P)) (oy (pobj Q))) eqn:E.
    + apply Qle_bool_iff in E. constructor; [constructor; assumption|].
      constructor; [exact E|].
      eapply Forall_impl; [exact HQ|]. cbn. intros B HB. lra.
    + apply Qle_bool_false in E. constructor; [exact IH|].
      apply insert_by_y_Forall; [lra | exact HQ].
Qed.

Lemma insert_by_y_last P l :
  Forall (λ Q, (oy (pobj Q) < oy (pobj P))%Q) l -> insert_by_y P l = l ++ [P].
Proof.
  intros Hl. induction Hl as [|Q l HQ Hl IH]; cbn; [reflexivity|].
  destruct (Qle_bool (oy (pobj P)) (oy (pobj Q))) eqn:E.
  - apply Qle_bool_iff in E. lra.
  - rewrite IH. reflexivity.
Qed.

Lemma sort_by_y_Forall (I : Platform -> Prop) l : Forall I l -> Forall I (sort_by_y l).
Proof.
  intros Hl. induction Hl as [|Q l HQ Hl IH]; cbn; [constructor|].
  apply insert_by_y_Forall; assumption.
Qed.

Lemma length_sort_by_y l : length (sort_by_y l) = length l.
Proof.
  induction l as [|Q l IH]; [reflexivity|].
  change (sort_by_y (Q :: l)) with (insert_by_y Q (sort_by_y l)).
  rewrite length_insert_by_y. cbn. congruence.
Qed.

Lemma sort_by_y_sorted l :
  StronglySorted (λ A B, (oy (pobj A) <= oy (pobj B))%Q) (sort_by_y l).
Proof.
  induction l as [|Q l IH]; cbn; [constructor|]. apply insert_by_y_sorted, IH.
Qed.

(** Every drawn platform is above the floor, so the sort moves the floor
    from the head of the registry to its end. *)
Lemma sort_floor_drawn (level_width : Z) (drawn : list Platform) :
  Forall (drawn_platform level_width) drawn ->
  sort_by_y (floor :: drawn) = sort_by_y drawn ++ [floor].
Proof.
  intros Hd. cbn [sort_by_y foldr]. apply insert_by_y_last.
  apply sort_by_y_Forall. eapply Forall_impl; [exact Hd|].
  intros P (_ & (_ & Hy) & _). cbn.
  assert (E : (inject_Z (SCREEN_HEIGHT - 100) < inject_Z (SCREEN_HEIGHT - 50))%Q)
    by reflexivity.
  lra.
Qed.

(** The patrol interval that the enemy loop computes on a platform of the
    random level, drawn or floor. *)
Lemma random_enemy_can_patrol (level_number : Z) (platforms : list Platform)
    (d : placement_draw) :
  3 <= level_number ->
  let level_width := SCREEN_WIDTH + level_number * 100 in
  (1 < length platforms)%nat ->
  Forall (λ P, P = floor \/ drawn_platform level_width P) platforms ->
  (draw_choice d < length platforms - 1)%nat ->
  exists es, random_enemy level_width platforms d = Some es
    /\ length es = 1%nat /\ Forall can_patrol es.
Proof.
  intros Hn level_width Hlen Hall Hc. unfold random_enemy.
  apply Nat.ltb_lt in Hlen. rewrite Hlen.
  destruct (drop 1 platforms !! draw_choice d) as [P|] eqn:EP.
  2:{ apply lookup_ge_None in EP. rewrite length_drop in EP. lia. }
  assert (HP : P = floor \/ drawn_platform level_width P).
  { rewrite lookup_drop in EP. apply list_elem_of_lookup_2 in EP.
    rewrite Forall_forall in Hall. apply Hall, EP. }
  assert (Hlw : (1580 <= inject_Z level_width)%Q).
  { change 1580%Q with (inject_Z 1580). rewrite <- Zle_Qle.
    subst level_width. unfold SCREEN_WIDTH. lia. }
  cbn [mbind option_bind].
  assert (Hw : (60 <= owidth (pobj P))%Q).
  { destruct HP as [-> | (_ & _ & Hw)]; [vm_compute; discriminate | lra]. }
  rewrite randint_Some by lra. cbn.
  eexists. split; [reflexivity|]. split; [reflexivity|].
  constructor; [|constructor].
  unfold can_patrol, Enemy_new. cbn [e_is_dead edirection patrol_left patrol_right eobj owidth].
  split; [reflexivity|]. split; [reflexivity|].
  unfold pymax, pymin.
  destruct HP as [-> | ((Hx1 & Hx2) & _ & (Hw1 & Hw2))].
  - cbn [floor platform_at pobj ox owidth].
    assert (E0 : (inject_Z 0 == 0)%Q) by reflexivity.
    assert (E1 : (inject_Z SCREEN_WIDTH == 1280)%Q) by reflexivity.
    destruct (Qltb (inject_Z 0 - 50) 0) eqn:A;
      [apply Qltb_lt in A | apply Qltb_ge in A];
      destruct (Qltb (inject_Z level_width) (inject_Z 0 + inject_Z SCREEN_WIDTH + 50)) eqn:B;
      [apply Qltb_lt in B | apply Qltb_ge in B | apply Qltb_lt in B | apply Qltb_ge in B];
      split; lra.
  - assert (E2 : (inject_Z (level_width - 200) == inject_Z level_width - 200)%Q).
    { unfold Z.sub. rewrite inject_Z_plus. reflexivity. }
    destruct (Qltb (ox (pobj P) - 50) 0) eqn:A;
      [apply Qltb_lt in A | apply Qltb_ge in A];
      destruct (Qltb (inject_Z level_width) (ox (pobj P) + owidth (pobj P) + 50)) eqn:B;
      [apply Qltb_lt in B | apply Qltb_ge in B | apply Qltb_lt in B | apply Qltb_ge in B];
      split; lra.
Qed.

Lemma random_collectible_placed (level_width : Z) (platforms : list Platform)
    (d : placement_draw) :
  (1 < length platforms)%nat ->
  Forall (λ P, P = floor \/ drawn_platform level_width P) platforms ->
  (draw_choice d < length platforms - 1)%nat ->
  exists cs, random_collectible platforms d = Some cs
    /\ length cs = 1%nat /\ Forall (λ c, collected c = false) cs.
Proof.
  intros Hlen Hall Hc. unfold random_collectible.
  apply Nat.ltb_lt in Hlen. rewrite Hlen.
  destruct (drop 1 platforms !! draw_choice d) as [P|] eqn:EP.
  2:{ apply lookup_ge_None in EP. rewrite length_drop in EP. lia. }
  assert (HP : P = floor \/ drawn_platform level_width P).
  { rewrite lookup_drop in EP. apply list_elem_of_lookup_2 in EP.
    rewrite Forall_forall in Hall. apply Hall, EP. }
  cbn [mbind option_bind].
  assert (Hw : (30 <= owidth (pobj P))%Q).
  { destruct HP as [-> | (_ & _ & Hw)]; [vm_compute; discriminate | lra]. }
  rewrite randint_Some by lra. cbn.
  eexists. split; [reflexivity|]. split; [reflexivity|].
  constructor; [reflexivity | constructor].
Qed.

Lemma length_concat_singletons {A} (l : list (list A)) :
  Forall (λ k, length k = 1%nat) l -> length (concat l) = length l.
Proof.
  intros Hl. induction Hl as [|k l Hk Hl IH]; [reflexivity|].
  cbn. rewrite length_app, Hk, IH. reflexivity.
Qed.

(** An enemy that can patrol is inside its interval after one update. *)
Lemma can_patrol_update (dt : Q) (dim : Z) (e : Enemy) :
  can_patrol e -> EnemyPatrol.in_patrol (EnemyPatrol.update dt dim e).
Proof.
  intros (Hlive & _ & _ & Hwide). unfold EnemyPatrol.update, EnemyPatrol.in_patrol.
  rewrite Hlive.
  set (x1 := (ox (eobj e) + espeed e * inject_Z (edirection e) * (dt * 60) / 60)%Q).
  destruct (Qle_bool x1 (patrol_left e)) eqn:E1.
  - cbn [eobj ox owidth patrol_left patrol_right]. split; lra.
  - apply Qle_bool_false in E1.
    destruct (Qle_bool (patrol_right e) (x1 + owidth (eobj e))) eqn:E2.
    + cbn [eobj ox owidth patrol_left patrol_right]. split; lra.
    + apply Qle_bool_false in E2.
      cbn [eobj ox owidth patrol_left patrol_right]. split; lra.
Qed.

(** The random level, for the level numbers that reach it in the game. *)
Lemma random_level_built (level_number : Z) (d : random_draws) :
  3 <= level_number -> draws_in_range level_number d ->
  let level_width := SCREEN_WIDTH + level_number * 100 in
  exists lv drawn,
    _generate_random_level level_number d _clear_level = Some lv
    /\ platforms lv = drawn ++ [floor]
    /\ length drawn = Z.to_nat (5 + level_number)
    /\ Forall (drawn_platform level_width) drawn
    /\ StronglySorted (λ A B, (oy (pobj A) <= oy (pobj B))%Q) (platforms lv)
    /\ (exists P, platforms lv !! 1%nat = Some P
          /\ portals lv = [Portal_new (ox (pobj P) + owidth (pobj P) - 30)
                                      (oy (pobj P) - 60)])
    /\ length (enemies lv) = Z.to_nat level_number
    /\ Forall can_patrol (enemies lv)
    /\ length (collectibles lv) = Z.to_nat (3 + level_number)
    /\ Forall (λ c, collected c = false) (collectibles lv)
    /\ powerups lv = [].
Proof.
  intros Hn (Hpd & Hed & Hcd) level_width. unfold _generate_random_level. cbv zeta.
  fold level_width.
  destruct (mapM_seq_Some
              (λ i, random_platform level_width (platform_draws d i))
              (drawn_platform level_width) 0 (Z.to_nat (5 + level_number)))
    as (drawn & -> & Hlen & Hdrawn).
  { intros i Hi. destruct (Hpd i) as (Hx & Hy & Hw & Hdim); [lia|].
    apply random_platform_drawn; assumption. }
  cbn [mbind option_bind platforms _clear_level app].
  rewrite (sort_floor_drawn level_width drawn Hdrawn).
  set (sorted := sort_by_y drawn).
  assert (Hslen : length sorted = Z.to_nat (5 + level_number))
    by (subst sorted; rewrite length_sort_by_y; exact Hlen).
  assert (Hsorted : Forall (drawn_platform level_width) sorted)
    by (apply sort_by_y_Forall, Hdrawn).
  assert (Hplen : length (sorted ++ [floor]) = S (Z.to_nat (5 + level_number)))
    by (rewrite length_app, Hslen; cbn; lia).
  assert (Hall : Forall (λ P, P = floor \/ drawn_platform level_width P)
                        (sorted ++ [floor])).
  { apply Forall_app. split.
    - eapply Forall_impl; [exact Hsorted|]. intros P HP. right. exact HP.
    - constructor; [left; reflexivity | constructor]. }
  destruct (mapM_seq_Some
              (λ i, random_enemy level_width (sorted ++ [floor]) (enemy_draws d i))
              (λ es, length es = 1%nat /\ Forall can_patrol es)
              0 (Z.to_nat level_number))
    as (new_enemies & -> & Helen & Hes).
  { intros i _. apply random_enemy_can_patrol; try assumption; try lia.
    rewrite Hplen. specialize (Hed i). lia. }
  destruct (mapM_seq_Some
              (λ i, random_collectible (sorted ++ [floor]) (collectible_draws d i))
              (λ cs, length cs = 1%nat /\ Forall (λ c, collected c = false) cs)
              0 (Z.to_nat (3 + level_number)))
    as (new_collectibles & -> & Hclen & Hcs).
  { intros i _. apply (random_collectible_placed level_width); try assumption; try lia.
    rewrite Hplen. specialize (Hcd i). lia. }
  cbn [mbind option_bind].
  assert (H1 : (1 <? length (sorted ++ [floor]))%nat = true)
    by (apply Nat.ltb_lt; lia).
  rewrite H1.
  destruct ((sorted ++ [floor]) !! 1%nat) as [P|] eqn:EP.
  2:{ apply lookup_ge_None in EP. lia. }
  eexists _, sorted. split; [reflexivity|].
  cbn [platforms portals collectibles enemies powerups _clear_level app].
  split; [reflexivity|]. split; [exact Hslen|]. split; [exact Hsorted|].
  split.
  { unfold sorted. rewrite <- (sort_floor_drawn level_width drawn Hdrawn).
    apply sort_by_y_sorted. }
  split; [exists P; split; [exact EP | reflexivity]|].
  split.
  { rewrite length_concat_singletons; [exact Helen|].
    eapply Forall_impl; [exact Hes|]. intros es [H _]. exact H. }
  split.
  { apply Forall_concat. eapply Forall_impl; [exact Hes|]. intros es [_ H]. exact H. }
  split.
  { rewrite length_concat_singletons; [exact Hclen|].
    eapply Forall_impl; [exact Hcs|]. intros cs [H _]. exact H. }
  split; [|reflexivity].
  apply Forall_concat. eapply Forall_impl; [exact Hcs|]. intros cs [_ H]. exact H.
Qed.

(** X23: Every level that the game can ask for is generated without an
    exception, whatever is drawn: its registry of platforms contains the
    floor, it has exactly one portal, nothing in it is collected yet, and
    every enemy is alive, faces right and has a patrol interval that starts
    at or right of the level's left edge and is at least as wide as the
    enemy.  A random level may start an enemy outside its interval; the
    first pass of the world's enemy loop, whatever its step, puts every enemy
    inside. *)
Theorem generate_level_enemies_can_patrol (level_number : Z) (d : random_draws) :
  0 <= level_number -> draws_in_range level_number d ->
  exists lv,
    generate_level level_number d = Some lv
    /\ floor ∈ platforms lv
    /\ length (portals lv) = 1%nat
    /\ Forall can_patrol (enemies lv)
    /\ (forall dt dim,
          Forall EnemyPatrol.in_patrol (EnemyPatrol.update_all dt dim (enemies lv)))
    /\ Forall (λ c, collected c = false) (collectibles lv)
    /\ Forall (λ w, PowerupItem.collected w = false) (powerups lv).
Proof.
  intros Hn Hd.
  cut (exists lv,
    generate_level level_number d = Some lv
    /\ floor ∈ platforms lv
    /\ length (portals lv) = 1%nat
    /\ Forall can_patrol (enemies lv)
    /\ Forall (λ c, collected c = false) (collectibles lv)
    /\ Forall (λ w, PowerupItem.collected w = false) (powerups lv)).
  { intros (lv & H1 & H2 & H3 & H4 & H5 & H6). exists lv.
    repeat (split; [assumption|]). split; [|split; assumption].
    intros dt dim. unfold EnemyPatrol.update_all. apply Forall_fmap.
    eapply Forall_impl; [exact H4|]. intros e He. apply can_patrol_update, He. }
  unfold generate_level. cbv zeta.
  destruct (level_number =? 0) eqn:E0.
  { eexists. split; [reflexivity|]. cbn.
    split; [left|]. split; [reflexivity|]. repeat constructor. }
  destruct (level_number =? 1) eqn:E1.
  { eexists. split; [reflexivity|]. cbn.
    split; [left|]. split; [reflexivity|].
    repeat constructor; vm_compute; discriminate. }
  destruct (level_number =? 2) eqn:E2.
  { eexists. split; [reflexivity|]. cbn.
    split; [left|]. split; [reflexivity|].
    repeat constructor; vm_compute; discriminate. }
  apply Z.eqb_neq in E0, E1, E2.
  assert (H3 : 3 <= level_number) by lia.
  destruct (random_level_built level_number d H3 Hd)
    as (lv & drawn & Hr & Hp & _ & _ & _ & (P & _ & Hportal) & _ & He & _ & Hc & Hw).
  exists lv. split; [exact Hr|].
  split; [rewrite Hp; apply elem_of_app; right; left|].
  split; [rewrite Hportal; reflexivity|].
  split; [exact He|]. split; [exact Hc|]. rewrite Hw. constructor.
Qed.

(** Three platforms at the left, enemies and collectibles on the first
    platform of [platforms[1:]]. *)
Lemma generate_level_enemies_can_patrol_witness :
  let d := mkRandomDraws (λ _, mkPlatformDraw 100 150 100 0.5 0)
                         (λ _, mkPlacementDraw 0 20) (λ _, mkPlacementDraw 0 10) in
  exists lv,
    generate_level 3 d = Some lv
    /\ floor ∈ platforms lv
    /\ length (portals lv) = 1%nat
    /\ Forall can_patrol (enemies lv)
    /\ (forall dt dim,
          Forall EnemyPatrol.in_patrol (EnemyPatrol.update_all dt dim (enemies lv)))
    /\ Forall (λ c, collected c = false) (collectibles lv)
    /\ Forall (λ w, PowerupItem.collected w = false) (powerups lv).
Proof.
  apply (generate_level_enemies_can_patrol 3
           (mkRandomDraws (λ _, mkPlatformDraw 100 150 100 0.5 0)
                          (λ _, mkPlacementDraw 0 20) (λ _, mkPlacementDraw 0 10))).
  - lia.
  - split; [|split]; intros; cbn; unfold SCREEN_WIDTH, SCREEN_HEIGHT; lia.
Defined.

(** X24: In a random level the sort by height puts the floor at the end of the
    registry, behind the drawn platforms in ascending order of [y].  So
    [platforms[1:]], from which the enemies, the collectibles and the portal
    take their platform, leaves out the topmost platform and contains the
    floor; the portal stands on the second platform from the top. *)
Theorem random_level_floor_is_last (level_number : Z) (d : random_draws) :
  3 <= level_number -> draws_in_range level_number d ->
  let level_width := SCREEN_WIDTH + level_number * 100 in
  exists lv drawn,
    generate_level level_number d = Some lv
    /\ platforms lv = drawn ++ [floor]
    /\ length drawn = Z.to_nat (5 + level_number)
    /\ Forall (drawn_platform level_width) drawn
    /\ StronglySorted (λ A B, (oy (pobj A) <= oy (pobj B))%Q) (platforms lv)
    /\ floor ∈ drop 1 (platforms lv)
    /\ (exists P, drawn !! 1%nat = Some P
          /\ portals lv = [Portal_new (ox (pobj P) + owidth (pobj P) - 30)
                                      (oy (pobj P) - 60)])
    /\ length (enemies lv) = Z.to_nat level_number
    /\ length (collectibles lv) = Z.to_nat (3 + level_number).
Proof.
  intros Hn Hd level_width.
  destruct (random_level_built level_number d Hn Hd)
    as (lv & drawn & Hr & Hp & Hlen & Hdrawn & Hsorted & (P & HP & Hportal)
        & Helen & _ & Hclen & _).
  exists lv, drawn. unfold generate_level. cbv zeta.
  destruct (level_number =? 0) eqn:E0; [apply Z.eqb_eq in E0; lia|].
  destruct (level_number =? 1) eqn:E1; [apply Z.eqb_eq in E1; lia|].
  destruct (level_number =? 2) eqn:E2; [apply Z.eqb_eq in E2; lia|].
  split; [exact Hr|]. split; [exact Hp|]. split; [exact Hlen|].
  split; [exact Hdrawn|]. split; [exact Hsorted|].
  split.
  { rewrite Hp. destruct drawn as [|P0 drawn']; [cbn in Hlen; lia|].
    cbn. apply elem_of_app. right. left. }
  split.
  { exists P. split; [|exact Hportal].
    rewrite Hp, lookup_app_l in HP by lia. exact HP. }
  split; assumption.
Qed.

Lemma random_level_floor_is_last_witness :
  let d := mkRandomDraws (λ _, mkPlatformDraw 100 150 100 0.5 0)
                         (λ _, mkPlacementDraw 0 20) (λ _, mkPlacementDraw 0 10) in
  exists lv drawn,
    generate_level 3 d = Some lv
    /\ platforms lv = drawn ++ [floor]
    /\ length drawn = Z.to_nat (5 + 3)
    /\ Forall (drawn_platform (SCREEN_WIDTH + 3 * 100)) drawn
    /\ StronglySorted (λ A B, (oy (pobj A) <= oy (pobj B))%Q) (platforms lv)
    /\ floor ∈ drop 1 (platforms lv)
    /\ (exists P, drawn !! 1%nat = Some P
          /\ portals lv = [Portal_new (ox (pobj P) + owidth (pobj P) - 30)
                                      (oy (pobj P) - 60)])
    /\ length (enemies lv) = Z.to_nat 3
    /\ length (collectibles lv) = Z.to_nat (3 + 3).
Proof.
  apply (random_level_floor_is_last 3
           (mkRandomDraws (λ _, mkPlatformDraw 100 150 100 0.5 0)
                          (λ _, mkPlacementDraw 0 20) (λ _, mkPlacementDraw 0 10))).
  - lia.
  - split; [|split]; intros; cbn; unfold SCREEN_WIDTH, SCREEN_HEIGHT; lia.
Defined.

End LevelGeneration.

(** ** Standing on a platform *)

Section Resting.
Import Player.

Lemma trunc_unique_nonneg (q : Q) (z : Z) :
  0 <= z -> (inject_Z z <= q)%Q -> (q < inject_Z z + 1)%Q -> trunc q = z.
Proof.
  intros Hz Hlo Hhi.
  destruct (trunc_bounds q) as (H1 & _ & H3).
  assert (Hq : (0 <= q)%Q).
  { assert (H0 : (inject_Z 0 <= inject_Z z)%Q) by (rewrite <- Zle_Qle; exact Hz).
    assert (E0 : (inject_Z 0 == 0)%Q) by reflexivity. lra. }
  specialize (H3 Hq).
  assert (E1 : (inject_Z 1 == 1)%Q) by reflexivity.
  assert (A : (inject_Z (trunc q) < inject_Z (z + 1))%Q) by (rewrite inject_Z_plus; lra).
  assert (B : (inject_Z z < inject_Z (trunc q + 1))%Q) by (rewrite inject_Z_plus; lra).
  rewrite <- Zlt_Qlt in A, B. lia.
Qed.

(** The fall of one step from rest: less than one unit for a step of at
    most 1.4. *)
Lemma first_fall_is_short (dt m : Q) :
  (0 < dt)%Q -> (dt <= 1.4)%Q -> m = 1%Q \/ m = 0.7%Q ->
  Qltb (MAX_FALL_SPEED * m) (0 + GRAVITY * m * dt) = false
  /\ (0 < (0 + GRAVITY * m * dt) * dt)%Q /\ ((0 + GRAVITY * m * dt) * dt < 1)%Q
  /\ ((0 + GRAVITY * m * dt) * dt == GRAVITY * m * dt * dt)%Q.
Proof.
  intros Hdt0 Hdt1 Hm.
  assert (Hpos : (0 < dt * dt)%Q) by (apply Qmult_lt_0_compat; exact Hdt0).
  assert (H1 : (dt * dt <= 1.4 * dt)%Q)
    by (apply Qmult_le_compat_r; [exact Hdt1 | lra]).
  assert (HG : (GRAVITY == 0.5)%Q) by reflexivity.
  assert (HM : (MAX_FALL_SPEED == 15)%Q) by reflexivity.
  assert (E : ((0 + GRAVITY * m * dt) * dt == GRAVITY * m * (dt * dt))%Q) by ring.
  assert (E2 : (GRAVITY * m * dt * dt == GRAVITY * m * (dt * dt))%Q) by ring.
  split; [apply Qltb_ge; rewrite HG, HM; destruct Hm as [-> | ->]; lra|].
  rewrite E, E2, HG. destruct Hm as [-> | ->]; repeat split; try lra; reflexivity.
Qed.

Lemma integrate_from_rest (dt : Q) (p : Player.t) :
  velocity_y p = 0%Q ->
  Qltb (MAX_FALL_SPEED * get_powerup_effect "gravity" 1 p)
       (0 + GRAVITY * get_powerup_effect "gravity" 1 p * dt) = false ->
  y (integrate dt p)
  = (y p + (0 + GRAVITY * get_powerup_effect "gravity" 1 p * dt) * dt)%Q.
Proof.
  intros Hv Hno. unfold integrate.
  assert (E : get_powerup_effect "gravity" 1
                (if on_ground p then set_last_safe_position (x p, y p) p else p)
              = get_powerup_effect "gravity" 1 p)
    by (destruct (on_ground p); reflexivity).
  assert (Ev : velocity_y (if on_ground p then set_last_safe_position (x p, y p) p else p)
               = 0%Q) by (destruct (on_ground p); exact Hv).
  assert (Eyp : y (if on_ground p then set_last_safe_position (x p, y p) p else p) = y p)
    by (destruct (on_ground p); reflexivity).
  cbv zeta. rewrite E. cbn [y velocity_y set_x set_y set_velocity_y]. rewrite Ev, Eyp.
  unfold pymin. rewrite Hno. reflexivity.
Qed.

(** Platforms at or below the feet of the actor do not overlap its
    rectangle, so the platform loop skips them all. *)
Lemma platforms_below_are_skipped (platforms : list Platform) (dim : Z) (s : Player.t)
    (feet : Z) :
  0 <= height s -> trunc (y s) + height s <= feet ->
  Forall (λ P, visible_in dim P = true ->
               0 <= rh (GameObject_get_rect (pobj P))
               /\ feet <= ry (GameObject_get_rect (pobj P))) platforms ->
  check_platform_collisions platforms dim s = set_on_ground false s.
Proof.
  intros Hh Hfeet Hall. unfold check_platform_collisions. apply resolve_skipped.
  eapply Forall_impl; [exact Hall|]. intros P HP. cbv beta in HP |- *.
  destruct (visible_in dim P); [|reflexivity]. cbn [andb].
  destruct (HP eq_refl) as (Hrh & Hry).
  unfold colliderect, get_rect. cbn [rx ry rw rh].
  change (height (set_on_ground false s)) with (height s).
  change (y (set_on_ground false s)) with (y s).
  destruct (_ || _ || _ || _); [reflexivity|].
  apply andb_false_iff. right. apply Z.ltb_ge. lia.
Qed.

(** The state after platform resolution of an actor that starts the update
    at rest on its feet. *)
Lemma landed_after_collisions (dt : Q) (platforms : list Platform) (dim : Z)
    (p : Player.t) (feet : Z) :
  velocity_y p = 0%Q ->
  0 <= height p -> y p = inject_Z (feet - height p) -> height p <= feet ->
  (0 < dt)%Q -> (dt <= 1.4)%Q ->
  Forall (λ P, visible_in dim P = true ->
               0 <= rh (GameObject_get_rect (pobj P))
               /\ feet <= ry (GameObject_get_rect (pobj P))) platforms ->
  on_ground (after_collisions dt platforms dim p) = false
  /\ y (after_collisions dt platforms dim p)
     = (y p + (0 + GRAVITY * get_powerup_effect "gravity" 1 p * dt) * dt)%Q.
Proof.
  intros Hv Hh Hy Hfeet Hdt0 Hdt1 Hall.
  destruct (first_fall_is_short dt (get_powerup_effect "gravity" 1 p) Hdt0 Hdt1
              (gravity_multiplier_values p)) as (Hno & Hlo & Hhi & Hdelta).
  pose proof (integrate_from_rest dt p Hv Hno) as Hyi.
  pose proof (_update_animation_frame dt (integrate dt p)) as F1.
  pose proof (_update_collision_rects_frame (_update_animation dt (integrate dt p))) as F2.
  pose proof (integrate_frame dt p) as F0.
  cbv zeta in F0, F1, F2.
  unfold after_collisions.
  generalize dependent (_update_collision_rects (_update_animation dt (integrate dt p))).
  intros p2 F2.
  assert (Hy2 : y p2 = (y p + (0 + GRAVITY * get_powerup_effect "gravity" 1 p * dt) * dt)%Q)
    by (destruct_and!; congruence).
  assert (Hh2 : height p2 = height p) by (destruct_and!; congruence).
  clear F0 F1 F2.
  assert (Ht : trunc (y p2) = feet - height p).
  { apply trunc_unique_nonneg; [lia | |]; rewrite Hy2, Hy; lra. }
  rewrite (platforms_below_are_skipped platforms dim p2 feet);
    [| lia | lia | exact Hall].
  split; [reflexivity | exact Hy2].
Qed.

(** X26: Standing is not stable.  Take a live actor that has just landed: its
    vertical velocity is 0 and its feet are exactly on the top of what it
    stands on, at a non-negative integer height, with every visible platform
    at or below its feet.  After the next update, for every step with
    [0 < dt <= 1.4], the actor is off the ground: gravity has moved it down by
    [GRAVITY * multiplier * dt * dt], which is less than one unit, so its
    rectangle still only touches the platform, and rectangles that only touch
    do not collide. *)
Theorem landed_actor_leaves_the_ground (dt now : Q) (platforms : list Platform)
    (portals : list Portal) (collectibles : list Collectible) (enemies : list Enemy)
    (dim : Z) (p : Player.t) (feet : Z) :
  is_dead p = false ->
  velocity_y p = 0%Q ->
  0 <= height p -> y p = inject_Z (feet - height p) -> height p <= feet ->
  (0 < dt)%Q -> (dt <= 1.4)%Q ->
  Forall (λ P, visible_in dim P = true ->
               0 <= rh (GameObject_get_rect (pobj P))
               /\ feet <= ry (GameObject_get_rect (pobj P))) platforms ->
  let q := (update dt now platforms portals collectibles enemies dim p).1.1.1 in
  on_ground q = false
  /\ (y q == y p + GRAVITY * get_powerup_effect "gravity" 1 p * dt * dt)%Q
  /\ (y p < y q)%Q /\ (y q < y p + 1)%Q
  /\ trunc (y q) = feet - height p.
Proof.
  intros Hlive Hv Hh Hy Hfeet Hdt0 Hdt1 Hall q. subst q.
  pose proof (update_final_state dt now platforms portals collectibles enemies dim p Hlive)
    as F. cbv zeta in F. destruct F as (_ & Ey & Eg & _).
  destruct (landed_after_collisions dt platforms dim p feet Hv Hh Hy Hfeet Hdt0 Hdt1 Hall)
    as (Hg & Hyq).
  rewrite Eg, Ey, Hg, Hyq. clear Eg Ey Hg Hyq.
  destruct (first_fall_is_short dt (get_powerup_effect "gravity" 1 p) Hdt0 Hdt1
              (gravity_multiplier_values p)) as (_ & Hlo & Hhi & Hdelta).
  split; [reflexivity|]. split; [rewrite Hdelta; reflexivity|].
  split; [lra|]. split; [lra|].
  apply trunc_unique_nonneg; [lia | |]; rewrite Hy; lra.
Qed.

Lemma landed_actor_leaves_the_ground_witness :
  on_ground (update 1 0 [floor] [] [] [] 1 (reset 100 610 0)).1.1.1 = false.
Proof.
  assert (Hall : Forall (λ P, visible_in 1 P = true ->
                   0 <= rh (GameObject_get_rect (pobj P))
                   /\ 670 <= ry (GameObject_get_rect (pobj P))) [floor])
    by (repeat constructor; vm_compute; discriminate).
  assert (Hh : 0 <= height (reset 100 610 0)) by (cbn; lia).
  assert (Hfeet : height (reset 100 610 0) <= 670) by (cbn; lia).
  assert (H0 : (0 < 1)%Q) by reflexivity.
  assert (H1 : (1 <= 1.4)%Q) by (vm_compute; discriminate).
  exact (proj1 (landed_actor_leaves_the_ground 1 0 [floor] [] [] [] 1 (reset 100 610 0) 670
                  eq_refl eq_refl Hh eq_refl Hfeet H0 H1 Hall)).
Defined.

End Resting.
